(** * redis-util-functions: a namespaced access layer over ioredis

    Shallow embedding of [redis-util-functions.js] (class
    [RedisUtilFunctions]) and proofs about its key namespacer, command
    dispatcher, batch executor, scan iterator, document accessor and
    set drain.

    Conventions of the model:
    - JavaScript strings are [string], a character being a code unit
      below 256; values are the inductive [value]; numbers are the
      integer-valued doubles ([VNum], which for 0 stands for both
      zeros), the two infinities ([VInf]) and [VNaN].
    - A promise is modelled by its settlement: a computation in the monad
      [M] returns a value ([Ok]), throws or rejects ([Throw]), never
      settles ([Pending]) or exhausts the fuel of a loop ([OutOfFuel]).
    - The command descriptor arrays that the batch executors mutate live
      in a heap and are passed by location; other arrays are values.
    - Method names are strings, as documented; an array in the method
      position is accepted by the code and dispatched under its string
      conversion; any other value there raises a [TypeError].
    - The ioredis connection (the store and its replies, the methods it
      has), the JavaScript runtime ([JSON.parse], [JSON.stringify],
      string conversion of values that are not strings) and the functions
      of the caller are parameters of the development. *)

From Stdlib Require Import ZArith String Ascii List Bool Lia.
From stdpp Require Import base list strings.
Import ListNotations.

Set Warnings "-register-all".

Local Open Scope string_scope.
Local Open Scope list_scope.
Local Open Scope Z_scope.

(** ** JavaScript string primitives used by the source *)

(** [s.indexOf(sub)]: index of the first occurrence, [-1] when absent. *)
Definition indexOf (s sub : string) : Z :=
  match String.index 0 sub s with
  | Some n => Z.of_nat n
  | None => -1
  end.

(** [s.substring(n)]: the string from position [n] to the end. *)
Definition substring_from (n : nat) (s : string) : string :=
  String.substring n (String.length s - n) s.

(** [s.substring(0, n)] and [s.substr(0, n)]: the first [n] characters. *)
Definition substring_to (n : nat) (s : string) : string :=
  String.substring 0 n s.

(** [GetSubstitution] of [String.prototype.replace] for a string pattern:
    [$$] is a dollar sign, [$&] the matched text, [$`] the text before the
    match and [$'] the text after it; every other character, and a dollar
    sign followed by anything else (there are no capture groups), is
    copied. *)
Fixpoint get_substitution (matched before after repl : string) : string :=
  match repl with
  | EmptyString => ""
  | String c tl =>
      if Ascii.eqb c "$" then
        match tl with
        | EmptyString => "$"
        | String d r =>
            if Ascii.eqb d "$" then "$" +:+ get_substitution matched before after r
            else if Ascii.eqb d "&" then matched +:+ get_substitution matched before after r
            else if Ascii.eqb d "`" then before +:+ get_substitution matched before after r
            else if Ascii.eqb d "'" then after +:+ get_substitution matched before after r
            else String c (get_substitution matched before after tl)
        end
      else String c (get_substitution matched before after tl)
  end.

(** [s.replace(pat, repl)] for strings [pat] and [repl]: the first
    occurrence of [pat] is replaced by the expansion of [repl]. *)
Definition js_replace (s pat repl : string) : string :=
  match String.index 0 pat s with
  | None => s
  | Some n =>
      let before := String.substring 0 n s in
      let after := substring_from (n + String.length pat) s in
      before +:+ get_substitution pat before after repl +:+ after
  end.

(** ** [parseInt] on strings (radix argument absent) *)

(** White space and line terminators among the code units below 256:
    TAB, LF, VT, FF, CR, SP and NBSP. *)
Definition is_js_space (c : ascii) : bool :=
  let n := nat_of_ascii c in
  ((9 <=? n) && (n <=? 13) || (n =? 32) || (n =? 160))%nat.

Fixpoint skip_spaces (s : string) : string :=
  match s with
  | String c tl => if is_js_space c then skip_spaces tl else s
  | EmptyString => s
  end.

Definition digit_value (c : ascii) : option Z :=
  let n := nat_of_ascii c in
  if ((48 <=? n) && (n <=? 57))%nat then Some (Z.of_nat (n - 48))
  else if ((97 <=? n) && (n <=? 122))%nat then Some (Z.of_nat (n - 87))
  else if ((65 <=? n) && (n <=? 90))%nat then Some (Z.of_nat (n - 55))
  else None.

(** Longest prefix of digits below [radix]; [None] when there is none. *)
Fixpoint parse_digits (radix : Z) (acc : option Z) (s : string) : option Z :=
  match s with
  | EmptyString => acc
  | String c tl =>
      match digit_value c with
      | Some d =>
          if d <? radix
          then parse_digits radix (Some (radix * default 0 acc + d)) tl
          else acc
      | None => acc
      end
  end.

Definition parse_unsigned (s : string) : option Z :=
  match s with
  | String "0" (String "x" tl) | String "0" (String "X" tl) =>
      parse_digits 16 None tl
  | _ => parse_digits 10 None s
  end.

(** The mathematical integer [parseInt] reads from a string: leading
    white space is skipped, a sign is read, the radix is 16 after [0x]
    and 10 otherwise, and the longest prefix of digits is taken; [None]
    when there is no digit. *)
Definition parseInt_string (s : string) : option Z :=
  match skip_spaces s with
  | String "-" tl => Z.opp <$> parse_unsigned tl
  | String "+" tl => parse_unsigned tl
  | t => parse_unsigned t
  end.

(** ** Numbers *)

(** The double nearest to an integer, ties to even: an integer of
    magnitude up to [2^53] is kept; of a larger one the 53 leading bits
    are kept and the rest is rounded. *)
Definition round_double (n : Z) : Z :=
  let a := Z.abs n in
  let e := Z.log2 a - 52 in
  if e <=? 0 then n
  else
    let q := Z.shiftr a e in
    let r := Z.land a (Z.ones e) in
    let half := Z.shiftl 1 (e - 1) in
    let q := if (half <? r) || ((r =? half) && Z.odd q) then q + 1 else q in
    Z.sgn n * Z.shiftl q e.

(** ** JavaScript values *)

(** A function value is either a function of the caller, identified by a
    number, or a closure created by this library (the reply callbacks of
    [rr] and [rscan]), whose body is modelled where it is created. *)
Inductive closure : Type :=
| FUser (id : nat)
| FLib.

(** Arrays held in [VArr] are array values; the command descriptors that
    the batch executors mutate live in the heap of the world and are
    referred to by location.  [VPipe p] is the Batch Context number [p]
    (an ioredis pipeline: the only value with an [exec] member);
    [VErr] is an [Error] object; [VInf] is [Infinity] or [-Infinity]. *)
Inductive value : Type :=
| VUndef
| VNull
| VBool (b : bool)
| VNum (n : Z)
| VNaN
| VStr (s : string)
| VArr (l : list value)
| VFun (f : closure)
| VPipe (p : nat)
| VErr (msg : string)
| VInf (negative : bool).

Definition truthy (v : value) : bool :=
  match v with
  | VUndef | VNull | VNaN => false
  | VBool b => b
  | VNum n => negb (n =? 0)
  | VStr s => negb (String.eqb s "")
  | VArr _ | VFun _ | VPipe _ | VErr _ | VInf _ => true
  end.

(** The number value of an integer: its nearest double, an infinity from
    [2^1024] on. *)
Definition number_of_Z (n : Z) : value :=
  let m := round_double n in
  if 2 ^ 1024 <=? Z.abs m then VInf (m <? 0) else VNum m.

Definition is_null (v : value) : bool :=
  match v with VNull => true | _ => false end.

Definition is_function (v : value) : bool :=
  match v with VFun _ => true | _ => false end.

(** [v === s] for a string [s]. *)
Definition is_string (s : string) (v : value) : bool :=
  match v with VStr t => String.eqb t s | _ => false end.

(** [rest_args[rest_args.length - 1]]; [None] is [undefined]. *)
Definition last_arg (l : list value) : option value :=
  match l with
  | [] => None
  | _ => l !! (length l - 1)%nat
  end.

(** The array after [pop()]. *)
Definition pop (l : list value) : list value :=
  take (length l - 1)%nat l.

(** [l.filter((x, y) => p(x, y))], [y] being the index, counted from [i]. *)
Fixpoint filter_with_index {A} (p : A -> nat -> bool) (i : nat) (l : list A)
  : list A :=
  match l with
  | [] => []
  | x :: tl =>
      if p x i then x :: filter_with_index p (S i) tl
      else filter_with_index p (S i) tl
  end.

(** The position of the first element equal to the string [tok], as
    [rest_args.indexOf(tok)] finds it. *)
Fixpoint index_of_string (tok : string) (l : list value) : option nat :=
  match l with
  | [] => None
  | v :: tl => if is_string tok v then Some 0%nat
               else S <$> index_of_string tok tl
  end.

(** ** The store connection *)

(** A reply of the store: an error, or a result. *)
Inductive reply : Type :=
| RErr (msg : string)
| ROk (v : value).

Definition reply_err (r : reply) : value :=
  match r with RErr m => VErr m | ROk _ => VNull end.

Definition reply_res (r : reply) : value :=
  match r with RErr _ => VUndef | ROk v => v end.

(** What ioredis gives for a batched command: [[null, result]], or the
    one-element array [[error]] for a command that failed. *)
Definition reply_pair (r : reply) : value :=
  match r with
  | RErr m => VArr [VErr m]
  | ROk v => VArr [VNull; v]
  end.

(** A command on the wire: method name and positional arguments. *)
Definition command : Type := string * list value.

Inductive mode : Type := Pipeline | Multi.

(** A Batch Context: its execution mode and its queue. *)
Record pipe : Type := { p_mode : mode; p_queue : list command }.

(** What the library asked of the connection. *)
Inductive event : Type :=
| ESend (c : command) (r : reply)
| EExec (p : nat) (md : mode) (cs : list command) (rs : list reply).

(** Result of a function of the caller. *)
Inductive ures : Type :=
| UOk (v : value)
| UThrow (e : value).

Inductive target : Type := TClient | TPipe (p : nat).

(** A command handed to ioredis was either sent and answered, or queued
    in a Batch Context. *)
Inductive sent : Type :=
| Direct (r : reply)
| Queued (p : nat).

Definition type_error : value := VErr "TypeError".

(** A trailing function argument is the command's callback. *)
Definition split_callback (args : list value) : list value * option closure :=
  match last_arg args with
  | Some (VFun f) => (pop args, Some f)
  | _ => (args, None)
  end.

(** [_rexec]: a trailing argument with an [exec] member is popped and is
    the execution target; otherwise the target is the connection. *)
Definition _rexec (rest_args : list value) : target * list value :=
  match last_arg rest_args with
  | Some (VPipe p) => (TPipe p, pop rest_args)
  | _ => (TClient, rest_args)
  end.

(** [_rjpath], on a path that is a string or absent. *)
Definition _rjpath (path : value) : option string :=
  if negb (truthy path) || is_string "$" path then Some "$"
  else match path with
       | VStr p => if negb (String.eqb (substring_to 2 p) "$.")
                   then Some ("$." +:+ p) else Some p
       | _ => None
       end.

(** [_rpfx(hkey)] with the configured [this.redisHprefix]. *)
Definition _rpfx (redisHprefix hkey : string) : string :=
  let _slot_pfx := if String.eqb (substring_to 1 hkey) "{" then "{" else "" in
  let hkey := if String.eqb (substring_to 1 hkey) "{"
              then substring_from 1 hkey else hkey in
  _slot_pfx
    +:+ (if negb (indexOf hkey redisHprefix =? 0) then redisHprefix else "")
    +:+ hkey.

(** What [_rpfx] does to the text after an optional opening brace. *)
Definition with_prefix (redisHprefix body : string) : string :=
  if String.prefix redisHprefix body then body else redisHprefix +:+ body.

(** A key that begins with a cluster tag: [{tag}rest]. *)
Definition tagged (tag rest : string) : string :=
  "{" +:+ tag +:+ "}" +:+ rest.

(** ** A scripted store, for concrete runs *)

Module Sample.

(** The store answers with the scripted replies, in order. *)
Definition Store : Type := list reply.

Definition store_exec (st : Store) (method : string) (args : list value)
  : reply * Store :=
  match st with
  | r :: tl => (r, tl)
  | [] => (ROk VNull, [])
  end.

Definition has_method (method : string) : bool :=
  existsb (String.eqb method)
          ["call"; "del"; "get"; "set"; "scan"; "hscan"; "spop"; "zpopmin"].

(** Function 0 returns its first argument; function 1 is a fallback
    producer that stores the document [[7]] and returns the string
    [produced]; every other function throws. *)
Definition user_fn (id : nat) (args : list value) (st : Store)
  : ures * Store :=
  match id with
  | O => (UOk (default VUndef (head args)), st)
  | S O => (UOk (VStr "produced"), ROk (VStr "[7]") :: st)
  | _ => (UThrow (VErr "boom"), st)
  end.

Definition JSON_parse (s : string) : option value :=
  if String.eqb s "[]" then Some (VArr [])
  else if String.eqb s "[7]" then Some (VArr [VNum 7])
  else if String.eqb s "7" then Some (VNum 7)
  else if String.eqb s "null" then Some VNull
  else None.

Definition JSON_stringify (v : value) : value :=
  match v with
  | VNum 7 => VStr "7"
  | VNull => VStr "null"
  | _ => VUndef
  end.

Definition ToString (v : value) : string :=
  match v with
  | VNull => "null"
  | VUndef => "undefined"
  | VNum 7 => "7"
  | _ => ""
  end.

End Sample.

(** ** The world: store, Batch Contexts, descriptor heap, request log *)

Section Model.

(** The ioredis collaborator: the state of the remote store, what the
    store answers to a command, and which method names the connection
    and its Batch Contexts expose. *)
Variable Store : Type.
Variable store_exec : Store -> string -> list value -> reply * Store.
Variable has_method : string -> bool.

(** The functions of the caller (callbacks and fallback producers): they
    return or throw, and may act on the store. *)
Variable user_fn : nat -> list value -> Store -> ures * Store.

(** The JavaScript runtime: [JSON.parse] ([None] is a [SyntaxError]),
    [JSON.stringify] and the string conversion of values that are not
    strings. *)
Variable JSON_parse : string -> option value.
Variable JSON_stringify : value -> value.
Variable ToString : value -> string.

(** [this.redisHprefix]. *)
Variable redisHprefix : string.

Record World : Type := {
  store : Store;
  pipes : list pipe;
  heap : list (list value);
  log : list event
}.

Definition set_store (st : Store) (w : World) : World :=
  {| store := st; pipes := pipes w; heap := heap w; log := log w |}.

Definition set_pipes (ps : list pipe) (w : World) : World :=
  {| store := store w; pipes := ps; heap := heap w; log := log w |}.

Definition set_heap (h : list (list value)) (w : World) : World :=
  {| store := store w; pipes := pipes w; heap := h; log := log w |}.

Definition add_log (e : event) (w : World) : World :=
  {| store := store w; pipes := pipes w; heap := heap w;
     log := log w ++ [e] |}.

Definition init_world (st : Store) : World :=
  {| store := st; pipes := []; heap := []; log := [] |}.

Inductive outcome (A : Type) : Type :=
| Ok (a : A) (w : World)
| Throw (e : value) (w : World)
| Pending (w : World)
| OutOfFuel.

Arguments Ok {A} a w.
Arguments Throw {A} e w.
Arguments Pending {A} w.
Arguments OutOfFuel {A}.

Definition M (A : Type) : Type := World -> outcome A.

Definition ret {A} (a : A) : M A := fun w => Ok a w.

Definition bind {A B} (m : M A) (k : A -> M B) : M B :=
  fun w =>
    match m w with
    | Ok a w' => k a w'
    | Throw e w' => Throw e w'
    | Pending w' => Pending w'
    | OutOfFuel => OutOfFuel
    end.

Definition throw {A} (e : value) : M A := fun w => Throw e w.

Notation "'let!' x := m 'in' k" := (bind m (fun x => k))
  (at level 10, x name, m at level 100, k at level 200).
Notation "'do!' m 'in' k" := (bind m (fun _ => k))
  (at level 10, m at level 100, k at level 200).

Fixpoint for_each {A} (f : A -> M unit) (l : list A) : M unit :=
  match l with
  | [] => ret tt
  | x :: tl => do! f x in for_each f tl
  end.

Fixpoint map_m {A B} (f : A -> M B) (l : list A) : M (list B) :=
  match l with
  | [] => ret []
  | x :: tl => let! y := f x in let! ys := map_m f tl in ret (y :: ys)
  end.

(** String conversion: a string is itself. *)
Definition js_string_of (v : value) : string :=
  match v with VStr s => s | _ => ToString v end.

(** [parseInt(v)] without radix: [v] is converted to a string, the
    integer at its start is read and converted to a number; [NaN] when
    the string starts with no integer.  (For more than 20 significant
    decimal digits the language lets an implementation approximate; the
    nearest double of the exact integer is what Node gives.) *)
Definition parseInt (v : value) : value :=
  match parseInt_string (js_string_of v) with
  | Some n => number_of_Z n
  | None => VNaN
  end.

(** Calling a function value.  A closure of the library is never handed
    to the library by a caller; calling one returns [undefined]. *)
Definition call_fn (f : closure) (args : list value) : M value :=
  fun w =>
    match f with
    | FUser id =>
        match user_fn id args (store w) with
        | (UOk v, st) => Ok v (set_store st w)
        | (UThrow e, st) => Throw e (set_store st w)
        end
    | FLib => Ok VUndef w
    end.

(** ioredis answers a command: the trailing callback, if any, is not
    sent; a callback of the caller receives [(err, result)], and what it
    returns or throws does not reach the library. *)
Definition transmit (c : command) (st : Store) : reply * Store :=
  let '(args, cbk) := split_callback c.2 in
  let '(r, st') := store_exec st c.1 args in
  match cbk with
  | Some (FUser id) => (r, (user_fn id [reply_err r; reply_res r] st').2)
  | _ => (r, st')
  end.

Fixpoint transmit_all (cs : list command) (st : Store) : list reply * Store :=
  match cs with
  | [] => ([], st)
  | c :: tl =>
      let '(r, st1) := transmit c st in
      let '(rs, st2) := transmit_all tl st1 in
      (r :: rs, st2)
  end.

(** [execer[method](...args)]: on the connection the command is sent and
    answered; on a Batch Context it is queued.  A method the target does
    not have raises a [TypeError].  A [VPipe] value always names a Batch
    Context of the world; for a number that names none the queues are
    left as they are. *)
Definition invoke (t : target) (method : string) (args : list value) : M sent :=
  fun w =>
    if has_method method then
      match t with
      | TClient =>
          let '(r, st) := transmit (method, args) (store w) in
          Ok (Direct r)
             (add_log (ESend (method, (split_callback args).1) r) (set_store st w))
      | TPipe p =>
          Ok (Queued p)
             (set_pipes
                (alter (fun q => {| p_mode := p_mode q;
                                    p_queue := p_queue q ++ [(method, args)] |})
                       p (pipes w)) w)
      end
    else Throw type_error w.

(** [this.redisClient.pipeline()] and [this.redisClient.multi()]: a fresh,
    empty Batch Context. *)
Definition new_pipe (md : mode) : M nat :=
  fun w =>
    Ok (length (pipes w))
       (set_pipes (pipes w ++ [{| p_mode := md; p_queue := [] |}]) w).

(** [rpipe.exec()]: one round trip; the value is the array of
    [[error, result]] pairs, one per queued command, in queue order. *)
Definition pipe_exec (p : nat) : M value :=
  fun w =>
    match pipes w !! p with
    | None => Throw type_error w
    | Some q =>
        let '(rs, st) := transmit_all (p_queue q) (store w) in
        Ok (VArr (reply_pair <$> rs))
           (add_log (EExec p (p_mode q) (p_queue q) rs) (set_store st w))
    end.

(** Awaiting what ioredis returned for a command: the promise of a sent
    command settles with its reply; a queued command returned the Batch
    Context itself. *)
Definition settle (s : sent) : M value :=
  match s with
  | Direct (ROk v) => ret v
  | Direct (RErr e) => throw (VErr e)
  | Queued p => ret (VPipe p)
  end.

(** [_rpfx] applied to a value: anything but a string has no
    [substring] method. *)
Definition rpfx_val (v : value) : M string :=
  match v with
  | VStr k => ret (_rpfx redisHprefix k)
  | _ => throw type_error
  end.

(** ** Command dispatcher and raw command router *)

(** The argument rewriting of [_rraw]: the third positional argument of a
    [JSON.] command is JSON-encoded, and [JSON.ARRINSERT] has its third
    and fourth arguments swapped. *)
Definition _rraw_args (redis_method : string) (rest_args : list value)
  : list value :=
  let a2 := default VUndef (rest_args !! 2%nat) in
  let rest_args :=
    if (indexOf redis_method "JSON." =? 0)
       && (3 <=? length rest_args)%nat
       && (negb (is_null a2)
           || String.eqb redis_method "JSON.SET"
           || String.eqb redis_method "JSON.ARRINSERT"
           || String.eqb redis_method "JSON.ARRAPPEND")
       && negb (is_function a2)
    then <[2%nat := JSON_stringify a2]> rest_args
    else rest_args in
  if String.eqb redis_method "JSON.ARRINSERT" && (4 <=? length rest_args)%nat
  then
    let b2 := default VUndef (rest_args !! 2%nat) in
    let b3 := default VUndef (rest_args !! 3%nat) in
    <[2%nat := b3]> (<[3%nat := b2]> rest_args)
  else rest_args.

(** [_rraw(redis_method, ...rest_args)]. *)
Definition _rraw (redis_method : string) (rest_args : list value) : M sent :=
  let '(execer, rest_args) := _rexec rest_args in
  invoke execer "call" (VStr redis_method :: _rraw_args redis_method rest_args).

(** The multi-key extension of [_redis_call]: when the primary key
    carries a brace and the method is [del] or a sorted-set store
    command, every string argument that starts with a brace is
    namespaced. *)
Definition multi_key_method (redis_method : string) : bool :=
  String.eqb redis_method "del"
  || (String.eqb (substring_to 1 redis_method) "z"
      && negb (indexOf redis_method "store" =? -1)).

Definition prefix_tagged_arg (rest_arg : value) : value :=
  match rest_arg with
  | VStr a => if negb (String.eqb (substring_to 1 a) "{") then rest_arg
              else VStr (_rpfx redisHprefix a)
  | _ => rest_arg
  end.

(** [_redis_call(redis_method, hkey, ...rest_args)]. *)
Definition _redis_call (redis_method : string) (hkey : value)
  (rest_args : list value) : M sent :=
  if negb (indexOf redis_method "." =? -1) then
    _rraw redis_method (hkey :: rest_args)
  else
    let! rest_args :=
      (if (0 <? length rest_args)%nat then
         match hkey with
         | VStr h =>
             if String.eqb (substring_to 1 h) "{" && multi_key_method redis_method
             then ret (prefix_tagged_arg <$> rest_args)
             else ret rest_args
         | _ => throw type_error
         end
       else ret rest_args) in
    let '(execer, rest_args) := _rexec rest_args in
    invoke execer redis_method (hkey :: rest_args).

(** [_redis_call] with an array in the method position.  [indexOf] is
    then the array's: the array is dotted when one of its elements is
    the string [.], and it starts with [JSON.] when that string is its
    first element; it equals no method name; it has no [substring], so
    the test of the multi-key extension raises a [TypeError] as soon as
    it gets there; the method looked up on the execution target is the
    string conversion of the array. *)
Definition _redis_call_array (redis_method : list value) (hkey : value)
  (rest_args : list value) : M sent :=
  if existsb (is_string ".") redis_method then
    let '(execer, rest_args) := _rexec (hkey :: rest_args) in
    let a2 := default VUndef (rest_args !! 2%nat) in
    let rest_args :=
      if is_string "JSON." (default VUndef (head redis_method))
         && (3 <=? length rest_args)%nat
         && negb (is_null a2)
         && negb (is_function a2)
      then <[2%nat := JSON_stringify a2]> rest_args
      else rest_args in
    invoke execer "call" (VArr redis_method :: rest_args)
  else
    do! (if (0 <? length rest_args)%nat then
           match hkey with
           | VStr h => if String.eqb (substring_to 1 h) "{"
                       then throw type_error else ret tt
           | _ => throw type_error
           end
         else ret tt) in
    let '(execer, rest_args) := _rexec rest_args in
    invoke execer (ToString (VArr redis_method)) (hkey :: rest_args).

(** [_redis_call(...d)] for an array [d]: the method is the first
    element, the key the second; elements that are missing are
    [undefined].  A method that is neither a string nor an array has no
    [indexOf]. *)
Definition _redis_call_spread (d : list value) : M sent :=
  match d with
  | VStr redis_method :: tl =>
      _redis_call redis_method (default VUndef (head tl)) (tail tl)
  | VArr redis_method :: tl =>
      _redis_call_array redis_method (default VUndef (head tl)) (tail tl)
  | _ => throw type_error
  end.

(** [rr(redis_method, hkey, ...rest_args)].  With a trailing callback the
    result is a promise settled by the reply callback [f]: it rejects on
    an error reply and resolves with [cb(result)]; it never settles when
    the dispatch throws inside the asynchronous executor or when the
    callback throws inside the reply callback. *)
Definition rr (redis_method : value) (hkey : value) (rest_args : list value)
  : M value :=
  let! hkey := rpfx_val hkey in
  match last_arg rest_args with
  | Some (VFun cb) =>
      let rest_args := pop rest_args ++ [VFun FLib] in
      fun w =>
        match _redis_call_spread (redis_method :: VStr hkey :: rest_args) w with
        | Ok (Direct (RErr e)) w1 => Throw (VErr e) w1
        | Ok (Direct (ROk result)) w1 =>
            match call_fn cb [result] w1 with
            | Ok v w2 => Ok v w2
            | Throw _ w2 => Pending w2
            | other => other
            end
        | Ok (Queued _) w1 => Pending w1
        | Throw _ w1 => Pending w1
        | Pending w1 => Pending w1
        | OutOfFuel => OutOfFuel
        end
  | _ =>
      let! s := _redis_call_spread (redis_method :: VStr hkey :: rest_args) in
      settle s
  end.

(** ** Batch executor *)

Definition read_heap (l : nat) : M (list value) :=
  fun w => match heap w !! l with
           | Some d => Ok d w
           | None => Throw type_error w
           end.

Definition write_heap (l : nat) (d : list value) : M unit :=
  fun w => Ok tt (set_heap (<[l := d]> (heap w)) w).

(** A new array. *)
Definition alloc (d : list value) : M nat :=
  fun w => Ok (length (heap w)) (set_heap (heap w ++ [d]) w).

(** The body of the loop of [rpipemulti] and [rpipemulti2array] for the
    descriptor at location [l]: the key is namespaced in place, the Batch
    Context is pushed in place, and the descriptor is dispatched. *)
Definition enqueue_descriptor (rpipe : nat) (l : nat) : M unit :=
  let! d := read_heap l in
  let! d :=
    (if (1 <? length d)%nat then
       let! k := rpfx_val (default VUndef (d !! 1%nat)) in
       ret (<[1%nat := VStr k]> d)
     else ret d) in
  do! write_heap l (d ++ [VPipe rpipe]) in
  do! _redis_call_spread (d ++ [VPipe rpipe]) in
  ret tt.

(** A callback handed to ioredis is run on the reply; what it returns or
    throws does not reach the library. *)
Definition notify (cb : value) (args : list value) : M unit :=
  fun w =>
    match cb with
    | VFun (FUser id) => Ok tt (set_store (user_fn id args (store w)).2 w)
    | _ => Ok tt w
    end.

(** [rpipemulti(commands, arg2, cb)]; [commands] holds the locations of
    the descriptor arrays. *)
Definition rpipemulti (commands : list nat) (arg2 cb : value) : M value :=
  let type :=
    if truthy arg2 && negb (is_function arg2) && is_string "t" arg2
    then Multi else Pipeline in
  let cb :=
    if truthy arg2 then
      if is_function arg2 then arg2
      else if truthy cb && negb (is_function cb) then VNull else cb
    else cb in
  let! rpipe := new_pipe type in
  do! for_each (enqueue_descriptor rpipe) commands in
  let! results := pipe_exec rpipe in
  if truthy cb then do! notify cb [VNull; results] in ret results
  else ret results.

(** [r[1]]. *)
Definition second_slot (r : value) : M value :=
  match r with
  | VArr l => ret (default VUndef (l !! 1%nat))
  | VStr t => ret (match String.get 1 t with
                   | Some c => VStr (String c "")
                   | None => VUndef
                   end)
  | VUndef | VNull => throw type_error
  | _ => ret VUndef
  end.

(** [rpipemulti2array(commands)]. *)
Definition rpipemulti2array (commands : list nat) : M value :=
  let! rpipe := new_pipe Pipeline in
  do! for_each (enqueue_descriptor rpipe) commands in
  let! results := pipe_exec rpipe in
  match results with
  | VArr (r :: rs) => let! out := map_m second_slot (r :: rs) in ret (VArr out)
  | _ => ret results
  end.

(** [rpipemaybe(commands)]; [this.rr(...commands[0])] takes the method
    and the key from the first two elements of the descriptor. *)
Definition rpipemaybe (commands : list nat) : M value :=
  match commands with
  | [l] =>
      let! d := read_heap l in
      rr (default VUndef (d !! 0%nat)) (default VUndef (d !! 1%nat)) (drop 2 d)
  | _ => rpipemulti commands VUndef VUndef
  end.

(** ** Scan iterator *)

(** The options of [rscan], typed as documented. *)
Record scan_opts : Type := {
  o_return : bool;
  o_return_cursor : bool;
  o_one : bool;
  o_cursor : option Z;
  o_cb_all : bool;
  o_count : option Z
}.

(** [{}]. *)
Definition no_opts : scan_opts :=
  {| o_return := false; o_return_cursor := false; o_one := false;
     o_cursor := None; o_cb_all := false; o_count := None |}.

(** One round: [this.redisClient[func](...params, (_err, _result) =>
    resolve(_result))]; an error reply leaves [_result] undefined. *)
Definition scan_round (func : string) (params : list value) : M value :=
  let! s := invoke TClient func (params ++ [VFun FLib]) in
  match s with
  | Direct r => ret (reply_res r)
  | Queued _ => ret VUndef
  end.

(** [while (result[1].length) { cb(...result[1].splice(-num_params)) }]. *)
Fixpoint consume_groups (fuel : nat) (cb : closure) (num_params : nat)
  (items : list value) : M unit :=
  match items with
  | [] => ret tt
  | _ =>
      match fuel with
      | O => fun _ => OutOfFuel
      | S fuel =>
          let k := (length items - num_params)%nat in
          do! call_fn cb (drop k items) in
          consume_groups fuel cb num_params (take k items)
      end
  end.

(** [opts.return_cursor ? [i, keys] : keys]. *)
Definition scan_result (opts : scan_opts) (i : value) (keys : list value)
  : value :=
  if o_return_cursor opts then VArr [i; VArr keys] else VArr keys.

(** The consumption of one round: [result.slice(1)] is [rtl]; the items
    go to the callback, group by group from the end or all at once, or to
    the accumulator [keys]. *)
Definition consume_round (func : string) (cb : option closure)
  (opts : scan_opts) (keys : list value) (rtl : list value)
  : M (list value) :=
  let num_params := (if String.eqb func "scan" then 1 else 2)%nat in
  match rtl with
  | VArr (x :: xs) :: _ =>
      match cb with
      | Some f =>
          if o_cb_all opts
          then do! call_fn f [VArr (x :: xs)] in ret keys
          else do! consume_groups (length (x :: xs)) f num_params (x :: xs) in
               ret keys
      | None =>
          if o_return opts then ret (keys ++ x :: xs) else ret keys
      end
  | _ => ret keys
  end.

(** The [while (true)] loop of [rscan], from the state [(params, i, keys)]. *)
Fixpoint scan_loop (fuel : nat) (func : string) (cb : option closure)
  (opts : scan_opts) (params : list value) (i : value) (keys : list value)
  : M value :=
  match fuel with
  | O => fun _ => OutOfFuel
  | S fuel =>
      let! result := scan_round func params in
      match result with
      | VArr (r0 :: rtl) =>
          let i := parseInt r0 in
          let params :=
            <[(if String.eqb func "scan" then 0 else 1)%nat := i]> params in
          let! keys := consume_round func cb opts keys rtl in
          if negb (truthy i) || o_one opts then ret (scan_result opts i keys)
          else scan_loop fuel func cb opts params i keys
      | _ => ret (scan_result opts i keys)
      end
  end.

(** The first cursor: [opts.cursor ? opts.cursor - 0 : 0]. *)
Definition first_cursor (opts : scan_opts) : Z :=
  match o_cursor opts with
  | Some c => if truthy (VNum c) then c - 0 else 0
  | None => 0
  end.

(** The parameters of the first round. *)
Definition scan_params (hkey_params : list value) (ptn : value)
  (opts : scan_opts) : list value :=
  let params := hkey_params ++ [VNum (first_cursor opts)] in
  let params := if truthy ptn then params ++ [VStr "MATCH"; ptn] else params in
  match o_count opts with
  | Some c => if truthy (VNum c) then params ++ [VStr "COUNT"; VNum c]
              else params
  | None => params
  end.

(** The start of [rscan]: the hash key or else the pattern is
    namespaced; the value is the enumeration primitive and the parameters
    of the first round. *)
Definition scan_start (ptn hkey : value) (opts : scan_opts)
  : M (string * list value) :=
  let! st :=
    (if truthy hkey then
       let! h := rpfx_val hkey in ret (VStr h, ptn, [VStr h])
     else if truthy ptn then
       let! p := rpfx_val ptn in ret (hkey, VStr p, [])
     else ret (hkey, ptn, [])) in
  let '(hkey, ptn, params) := st in
  let func := if truthy hkey then "hscan" else "scan" in
  ret (func, scan_params params ptn opts).

(** [rscan(ptn, cb, hkey, opts)]. *)
Definition rscan (fuel : nat) (ptn cb hkey : value) (opts : option scan_opts)
  : M value :=
  let opts := default no_opts opts in
  let! start := scan_start ptn hkey opts in
  let cb := match cb with VFun f => Some f | _ => None end in
  scan_loop fuel start.1 cb opts start.2 (VNum (first_cursor opts)) [].

(** ** Document path accessor *)

(** [parseJson(s, dflt)]. *)
Definition parseJson (s dflt : value) : M value :=
  match s with
  | VStr t => match JSON_parse t with
              | Some v => ret v
              | None => throw (VErr "SyntaxError")
              end
  | VNum _ | VNaN | VInf _ | VBool _ | VNull => ret s
  | _ => ret dflt
  end.

(** The option tokens of [rjget], in the order of [Object.keys(opts)]. *)
Record get_opts : Type := {
  g_rerun : bool;
  g_keep_array : bool;
  g_empty_array_null : bool
}.

(** One step of the [forEach]: the first occurrence of the token is
    spliced out of [rest_args]. *)
Definition take_token (tok : string) (rest_args : list value)
  : bool * list value :=
  match index_of_string tok rest_args with
  | Some i => (true, delete i rest_args)
  | None => (false, rest_args)
  end.

Definition take_tokens (rest_args : list value) : get_opts * list value :=
  let '(r, rest_args) := take_token "rerun" rest_args in
  let '(k, rest_args) := take_token "keep_array" rest_args in
  let '(e, rest_args) := take_token "empty_array_null" rest_args in
  ({| g_rerun := r; g_keep_array := k; g_empty_array_null := e |}, rest_args).

(** An option token of [rjget]. *)
Definition option_token (v : value) : bool :=
  is_string "rerun" v || is_string "keep_array" v
  || is_string "empty_array_null" v.

Definition is_empty_array (v : value) : bool :=
  match v with VArr [] => true | _ => false end.

(** [if (callback && typeof callback === 'function') res = callback(res)],
    awaited. *)
Definition apply_callback (callback res : value) : M value :=
  match callback with
  | VFun f => call_fn f [res]
  | _ => ret res
  end.

(** Lines 389 to 401: decoding, [empty_array_null], unwrapping of a
    singleton, callback. *)
Definition shape_result (opts : get_opts) (callback : value) (res : value)
  : M value :=
  if negb (is_null res) then
    let! res := (match res with
                 | VStr _ => parseJson res res
                 | _ => ret res
                 end) in
    let res := if g_empty_array_null opts && is_empty_array res
               then VNull else res in
    if negb (is_null res) then
      let res := match res with
                 | VArr [x] => if negb (g_keep_array opts) then x else res
                 | _ => res
                 end in
      apply_callback callback res
    else ret res
  else ret res.

(** The state of [rjget] at line 402: namespaced key, normalised path,
    options, remaining trailing arguments, result so far. *)
Record got : Type := {
  g_hkey : string;
  g_path : string;
  g_opts : get_opts;
  g_rest : list value;
  g_res : value
}.

(** Lines 372 to 401 of [rjget]. *)
Definition rjget_result (hkey path callback : value) (rest_args : list value)
  : M got :=
  let! path := (match _rjpath path with
                | Some p => ret p
                | None => throw type_error
                end) in
  let! hkey := rpfx_val hkey in
  let! s := _rraw "JSON.GET" [VStr hkey; VStr path] in
  let! res := settle s in
  let '(opts, rest_args) := take_tokens rest_args in
  let! res := shape_result opts callback res in
  ret {| g_hkey := hkey; g_path := path; g_opts := opts;
         g_rest := rest_args; g_res := res |}.

(** [rjget(hkey, path, callback, ...rest_args)]. *)
Fixpoint rjget (fuel : nat) (hkey path callback : value)
  (rest_args : list value) : M value :=
  match fuel with
  | O => fun _ => OutOfFuel
  | S fuel =>
      let! g := rjget_result hkey path callback rest_args in
      if negb (is_null (g_res g)) || (length (g_rest g) =? 0)%nat
      then ret (g_res g)
      else
        match g_rest g with
        | VFun f :: _ =>
            let! produced := call_fn f [VStr (g_hkey g); VStr (g_path g)] in
            if g_rerun (g_opts g)
            then rjget fuel (VStr (g_hkey g)) (VStr (g_path g)) callback []
            else ret produced
        | _ => ret VNull
        end
  end.

(** ** Set drain *)

(** [ptn ? ptn.replace('*', _key) : _key], the key of a deletion. *)
Definition drain_target (ptn _key : value) : M value :=
  if truthy ptn then
    match ptn with
    | VStr p =>
        match _key with
        | VFun f =>
            match String.index 0 "*" p with
            | None => ret (VStr p)
            | Some n =>
                let! r := call_fn f [VStr "*"; VNum (Z.of_nat n); VStr p] in
                ret (VStr (String.substring 0 n p +:+ js_string_of r
                           +:+ substring_from (n + 1) p))
            end
        | _ => ret (VStr (js_replace p "*" (js_string_of _key)))
        end
    | _ => throw type_error
    end
  else ret _key.

(** [_keys.map((_key) => ['del', ...])]: one new descriptor array per
    key; the value is the list of their locations. *)
Definition del_descriptor (ptn _key : value) : M nat :=
  let! k := drain_target ptn _key in
  alloc [VStr "del"; k].

(** [(x, y) => !(y % 2)]. *)
Definition even_index (x : value) (y : nat) : bool := (y mod 2 =? 0)%nat.

(** [rdel_from_set(keys_set, is_sorted, ptn)]. *)
Fixpoint rdel_from_set (fuel : nat) (keys_set : value) (is_sorted : bool)
  (ptn : value) : M value :=
  match fuel with
  | O => fun _ => OutOfFuel
  | S fuel =>
      let command := if is_sorted then "zpopmin" else "spop" in
      let! _keys := rr (VStr command) keys_set [VNum 500] in
      match _keys with
      | VArr (k :: ks) =>
          let _keys := if is_sorted
                       then filter_with_index even_index 0 (k :: ks)
                       else k :: ks in
          let! commands := map_m (del_descriptor ptn) _keys in
          do! rpipemulti commands VUndef VUndef in
          rdel_from_set fuel keys_set is_sorted ptn
      | _ => ret VUndef
      end
  end.

(** ** What a batch executor queues for a descriptor *)

Definition dotted (redis_method : string) : bool :=
  negb (indexOf redis_method "." =? -1).

(** The method invoked on the execution target. *)
Definition wire_method (redis_method : string) : string :=
  if dotted redis_method then "call" else redis_method.

(** The command [_redis_call] hands to the execution target for the
    method [redis_method], the namespaced key [hkey] and the arguments
    [args] (the execution target removed). *)
Definition wire_command (redis_method hkey : string) (args : list value)
  : command :=
  if dotted redis_method then
    ("call", VStr redis_method :: _rraw_args redis_method (VStr hkey :: args))
  else
    (redis_method,
     VStr hkey ::
       (if String.eqb (substring_to 1 hkey) "{" && multi_key_method redis_method
        then prefix_tagged_arg <$> args else args)).

(** A descriptor of the data model: method name, key, arguments. *)
Record desc : Type := {
  d_method : string;
  d_key : string;
  d_args : list value
}.

Definition descriptor_array (d : desc) : list value :=
  VStr (d_method d) :: VStr (d_key d) :: d_args d.

(** The method of the descriptor is one the execution target has. *)
Definition dispatchable (d : desc) : Prop :=
  has_method (wire_method (d_method d)) = true.

(** The array at location [l] is a descriptor that can be dispatched. *)
Definition holds_descriptor (w : World) (l : nat) : Prop :=
  exists d, heap w !! l = Some (descriptor_array d) /\ dispatchable d.

(** The descriptor after a batch executor has processed it: key
    namespaced, Batch Context [p] appended. *)
Definition consumed (p : nat) (d : desc) : desc :=
  {| d_method := d_method d;
     d_key := _rpfx redisHprefix (d_key d);
     d_args := d_args d ++ [VPipe p] |}.

(** The command a batch executor queues for a descriptor. *)
Definition queued_command (d : desc) : command :=
  wire_command (d_method d) (_rpfx redisHprefix (d_key d)) (d_args d).

Definition append_queue (cs : list command) (q : pipe) : pipe :=
  {| p_mode := p_mode q; p_queue := p_queue q ++ cs |}.

Definition push_command (c : command) (q : pipe) : pipe :=
  {| p_mode := p_mode q; p_queue := p_queue q ++ [c] |}.

Definition world_of {A} (o : outcome A) : option World :=
  match o with
  | Ok _ w | Throw _ w | Pending w => Some w
  | OutOfFuel => None
  end.

(** The world after a batch: the new Batch Context holds the queue [cs],
    the store has answered, the descriptors are in [h'], the round trip
    is logged. *)
Definition after_batch (md : mode) (cs : list command) (rs : list reply)
  (st : Store) (h' : list (list value)) (w : World) : World :=
  {| store := st;
     pipes := pipes w ++ [{| p_mode := md; p_queue := cs |}];
     heap := h';
     log := log w ++ [EExec (length (pipes w)) md cs rs] |}.

(** The payload of a sorted-set pop: members and scores alternate. *)
Definition zpop_payload (pairs : list (string * value)) : list value :=
  flat_map (fun ms => [VStr ms.1; ms.2]) pairs.

(** The key [rdel_from_set] deletes for a member that is a string, when
    [ptn] is a string or absent. *)
Definition drain_key (ptn : value) (member : string) : string :=
  match ptn with
  | VStr p => if truthy ptn then js_replace p "*" member else member
  | _ => member
  end.

(** The deletion descriptor of a key. *)
Definition del_desc (k : string) : desc :=
  {| d_method := "del"; d_key := k; d_args := [] |}.

(** A payload [rscan] goes on with: a non-empty array. *)
Definition nonempty_array (v : value) : bool :=
  match v with VArr (_ :: _) => true | _ => false end.

(** A computation that returns, throws or stays pending without asking
    anything of the connection. *)
Definition quiet {A} (m : M A) : Prop :=
  forall w, exists w', world_of (m w) = Some w' /\ log w' = log w.

(** A computation that neither creates a Batch Context nor touches the
    descriptor arrays. *)
Definition keeps_batches {A} (m : M A) : Prop :=
  forall w w', world_of (m w) = Some w' ->
    heap w' = heap w /\ length (pipes w') = length (pipes w).

(** The last argument is neither a callback nor a Batch Context. *)
Definition ends_plain (args : list value) : bool :=
  match last_arg args with
  | Some (VFun _) | Some (VPipe _) => false
  | _ => true
  end.

(** The connection is sent the command [c] and its reply is awaited: the
    store moves on, the request is logged, the promise settles with the
    reply. *)
Definition sends (c : command) (w : World) : outcome value :=
  settle (Direct (store_exec (store w) c.1 c.2).1)
         (add_log (ESend c (store_exec (store w) c.1 c.2).1)
                  (set_store (store_exec (store w) c.1 c.2).2 w)).

(** The position of the cursor among the parameters of a round. *)
Definition cursor_index (func : string) : nat :=
  if String.eqb func "scan" then 0%nat else 1%nat.

(** The requests of the rounds that the store answers with the payloads
    [[cursor, items]] of [script], the first one asked with [params]. *)
Fixpoint scan_events (func : string) (params : list value)
  (script : list (value * list value)) : list event :=
  match script with
  | [] => []
  | (r0, items) :: tl =>
      ESend (func, params) (ROk (VArr [r0; VArr items]))
      :: scan_events func (<[cursor_index func := parseInt r0]> params) tl
  end.

(** The parameters of the round after those of [script]. *)
Fixpoint advance (func : string) (params : list value)
  (script : list (value * list value)) : list value :=
  match script with
  | [] => params
  | (r0, _) :: tl => advance func (<[cursor_index func := parseInt r0]> params) tl
  end.

(** The cursor after the rounds of [script], [i] before them. *)
Fixpoint cursor_after (i : value) (script : list (value * list value))
  : value :=
  match script with
  | [] => i
  | (r0, _) :: tl => cursor_after (parseInt r0) tl
  end.

(** The store answers the successive rounds of an enumeration, each
    asked with the cursor the round before returned, with the payloads
    [[cursor, items]] of [script], none of whose cursors is zero or not
    a number, and answers the round after them with [bad]. *)
Inductive scan_rounds_then (func : string)
  : list value -> Store -> list (value * list value) -> reply -> Store -> Prop :=
| scan_then_stop params st bad st' :
    store_exec st func params = (bad, st') ->
    scan_rounds_then func params st [] bad st'
| scan_then_more params st r0 items st1 script bad st' :
    store_exec st func params = (ROk (VArr [r0; VArr items]), st1) ->
    truthy (parseInt r0) = true ->
    scan_rounds_then func (<[cursor_index func := parseInt r0]> params) st1
                     script bad st' ->
    scan_rounds_then func params st ((r0, items) :: script) bad st'.

(** The [COUNT] parameters of a scan. *)
Definition count_params (opts : scan_opts) : list value :=
  match o_count opts with
  | Some n => if n =? 0 then [] else [VStr "COUNT"; VNum n]
  | None => []
  end.

(** The first request of [rscan(ptn, cb, hkey, opts)]: with a hash key,
    a field scan of the namespaced hash key, the pattern passed as it
    is; without one, a key scan, for the namespaced pattern when there
    is a pattern. *)
Inductive scan_request (opts : scan_opts) : value -> value -> command -> Prop :=
| scan_request_fields ptn h :
    h <> "" ->
    scan_request opts ptn (VStr h)
      ("hscan",
       [VStr (_rpfx redisHprefix h); VNum (default 0 (o_cursor opts))]
         ++ (if truthy ptn then [VStr "MATCH"; ptn] else [])
         ++ count_params opts)
| scan_request_keys p hkey :
    truthy hkey = false ->
    p <> "" ->
    scan_request opts (VStr p) hkey
      ("scan",
       [VNum (default 0 (o_cursor opts)); VStr "MATCH";
        VStr (_rpfx redisHprefix p)] ++ count_params opts)
| scan_request_all ptn hkey :
    truthy hkey = false ->
    truthy ptn = false ->
    scan_request opts ptn hkey
      ("scan", [VNum (default 0 (o_cursor opts))] ++ count_params opts).

(** A computation that only adds to the request log. *)
Definition extends_log {A} (m : M A) : Prop :=
  forall w w', world_of (m w) = Some w' -> exists tl, log w' = log w ++ tl.

Arguments last_arg : simpl never.
Arguments ends_plain : simpl never.
Arguments pop : simpl never.
Arguments _rpfx : simpl never.
Arguments indexOf : simpl never.
Arguments substring_to : simpl never.
Arguments substring_from : simpl never.
Arguments js_replace : simpl never.
Arguments parseInt_string : simpl never.
Arguments round_double : simpl never.
Arguments number_of_Z : simpl never.
Arguments wire_command : simpl never.
Arguments _rraw_args : simpl never.
Arguments multi_key_method : simpl never.
Arguments String.eqb : simpl never.


(** ** Further definitions *)


(** The store answers the successive rounds of an enumeration, each
    asked with the cursor the round before returned, with the payloads
    [[cursor, items]] of [script]; the last cursor, and only the last,
    is zero or not a number. *)
Inductive scan_rounds (func : string)
  : list value -> Store -> list (value * list value) -> Store -> Prop :=
| scan_rounds_last params st r0 items st' :
    store_exec st func params = (ROk (VArr [r0; VArr items]), st') ->
    truthy (parseInt r0) = false ->
    scan_rounds func params st [(r0, items)] st'
| scan_rounds_more params st r0 items st1 script st' :
    store_exec st func params = (ROk (VArr [r0; VArr items]), st1) ->
    truthy (parseInt r0) = true ->
    scan_rounds func (<[cursor_index func := parseInt r0]> params) st1 script st' ->
    scan_rounds func params st ((r0, items) :: script) st'.



(** No option token was given. *)
Definition no_get_opts : get_opts :=
  {| g_rerun := false; g_keep_array := false; g_empty_array_null := false |}.

(** The commands that went out in batches, in order. *)
Definition batched (lg : list event) : list command :=
  flat_map (fun e => match e with
                     | EExec _ _ cs _ => cs
                     | ESend _ _ => []
                     end) lg.

(** The requests sent one by one, in order. *)
Definition sent_directly (lg : list event) : list command :=
  flat_map (fun e => match e with
                     | ESend c _ => [c]
                     | EExec _ _ _ _ => []
                     end) lg.

(** The pop of a drain round. *)
Definition pop_command (is_sorted : bool) (keys_set : string) : command :=
  (if is_sorted then "zpopmin" else "spop",
   [VStr (_rpfx redisHprefix keys_set); VNum 500]).

(** The elements of a pop payload that are deleted. *)
Definition drained (is_sorted : bool) (payload : list value) : list value :=
  if is_sorted then filter_with_index even_index 0 payload else payload.

(** The deletion queued for a member. *)
Definition del_command (ptn : value) (member : string) : command :=
  ("del", [VStr (_rpfx redisHprefix (drain_key ptn member))]).

(** The store answers the pops of a drain with non-empty payloads whose
    deleted elements are the strings of [script], round by round, each
    followed by the batch of deletions, and then with a reply that is
    no non-empty array. *)
Inductive drain_rounds (is_sorted : bool) (keys_set : string) (ptn : value)
  : Store -> list (list string) -> Store -> Prop :=
| drain_rounds_done st v st' :
    store_exec st (pop_command is_sorted keys_set).1
               (pop_command is_sorted keys_set).2 = (ROk v, st') ->
    nonempty_array v = false ->
    drain_rounds is_sorted keys_set ptn st [] st'
| drain_rounds_more st payload members st1 script st' :
    store_exec st (pop_command is_sorted keys_set).1
               (pop_command is_sorted keys_set).2 = (ROk (VArr payload), st1) ->
    payload <> [] ->
    drained is_sorted payload = (fun m => VStr m) <$> members ->
    drain_rounds is_sorted keys_set ptn
                 (transmit_all (del_command ptn <$> members) st1).2 script st' ->
    drain_rounds is_sorted keys_set ptn st (members :: script) st'.

(** ** Synchronous call and rename *)

(** [r(redis_method, hkey, ...rest_args)]: unless the last argument is a
    function, an empty function is appended; the value is what ioredis
    returned, not awaited. *)
Definition r (redis_method hkey : value) (rest_args : list value) : M sent :=
  let! hkey := rpfx_val hkey in
  let rest_args :=
    match last_arg rest_args with
    | Some (VFun _) => rest_args
    | _ => rest_args ++ [VFun FLib]
    end in
  _redis_call_spread (redis_method :: VStr hkey :: rest_args).

(** [rrename(from, to)]. *)
Definition rrename (from to : value) : M sent :=
  let! from := rpfx_val from in
  let! to := rpfx_val to in
  _redis_call "rename" (VStr from) [VStr to].

(** ** Sorted-set helpers *)

(** The [length] of a function value: the number of its parameters. *)
Variable fn_length : closure -> nat.

(** [v.length]: arrays, strings and functions have one; a Batch Context
    reports the length of its queue; [null] and [undefined] have no
    members at all. *)
Definition js_length (v : value) : M value :=
  fun w =>
    match v with
    | VUndef | VNull => Throw type_error w
    | VArr l => Ok (VNum (Z.of_nat (length l))) w
    | VStr s => Ok (VNum (Z.of_nat (String.length s))) w
    | VFun f => Ok (VNum (Z.of_nat (fn_length f))) w
    | VPipe p =>
        Ok (match pipes w !! p with
            | Some q => VNum (Z.of_nat (length (p_queue q)))
            | None => VUndef
            end) w
    | VBool _ | VNum _ | VNaN | VErr _ | VInf _ => Ok VUndef w
    end.

(** [v[i]] on a value that is neither [null] nor [undefined]. *)
Definition js_index (v : value) (i : nat) : value :=
  match v with
  | VArr l => default VUndef (l !! i)
  | VStr s => match String.get i s with
              | Some c => VStr (String c "")
              | None => VUndef
              end
  | _ => VUndef
  end.

(** What iterating [v] yields, in a spread or a destructuring: arrays
    and strings are the only iterable values. *)
Definition js_iterate (v : value) : M (list value) :=
  match v with
  | VArr l => ret l
  | VStr s => ret ((fun c => VStr (String c "")) <$> list_ascii_of_string s)
  | _ => throw type_error
  end.

(** [n > 0] for a [length]. *)
Definition js_positive (n : value) : bool :=
  match n with VNum k => 0 <? k | _ => false end.

(** [x + y]: a string, or an object (whose primitive is a string), on
    either side makes it a concatenation; otherwise it is the sum of the
    two numbers, rounded as doubles are: [NaN] when one of them is
    [undefined] or [NaN] or when they are opposite infinities. *)
Definition string_like (v : value) : bool :=
  match v with
  | VStr _ | VArr _ | VFun _ | VPipe _ | VErr _ => true
  | VUndef | VNull | VBool _ | VNum _ | VNaN | VInf _ => false
  end.

Inductive num : Type :=
| NFin (n : Z)
| NInf (negative : bool)
| NNaN.

(** The number of a value that is not string-like. *)
Definition to_number (v : value) : num :=
  match v with
  | VNum n => NFin n
  | VBool b => NFin (if b then 1 else 0)
  | VNull => NFin 0
  | VInf s => NInf s
  | _ => NNaN
  end.

Definition js_add (x y : value) : value :=
  if string_like x || string_like y
  then VStr (js_string_of x +:+ js_string_of y)
  else match to_number x, to_number y with
       | NFin a, NFin b => number_of_Z (a + b)
       | NInf s, NFin _ | NFin _, NInf s => VInf s
       | NInf s, NInf t => if Bool.eqb s t then VInf s else VNaN
       | _, _ => VNaN
       end.

(** [rinzset(rkey, members_to_check)], [members_to_check] an array. *)
Definition rinzset (rkey : value) (members_to_check : list value) : M value :=
  let! res := rr (VStr "zmscore") rkey members_to_check in
  if negb (truthy res) then ret (VArr [])
  else
    let! n := js_length res in
    if negb (truthy n) then ret (VArr [])
    else ret (VArr (filter_with_index
                      (fun _ i => negb (is_null (js_index res i)))
                      0 members_to_check)).

(** The [do ... while (cursor !== '0')] loop of [zset2set_scan], from the
    cursor [cursor]. *)
Fixpoint zset2set_scan_from (fuel : nat) (source_key target_key cursor : value)
  : M value :=
  match fuel with
  | O => fun _ => OutOfFuel
  | S fuel =>
      let! page := rr (VStr "zscan") source_key [cursor] in
      let! parts := js_iterate page in
      let new_cursor := default VUndef (parts !! 0%nat) in
      let members := default VUndef (parts !! 1%nat) in
      let! n := js_length members in
      do! (if js_positive n then
             let! spread := js_iterate members in
             do! rr (VStr "sadd") target_key spread in ret tt
           else ret tt) in
      if is_string "0" new_cursor then ret VUndef
      else zset2set_scan_from fuel source_key target_key new_cursor
  end.

(** [zset2set_scan(source_key, target_key)]. *)
Definition zset2set_scan (fuel : nat) (source_key target_key : value)
  : M value :=
  zset2set_scan_from fuel source_key target_key (VStr "0").

(** [for (i = 0; i < _members.length; i += 2)
       members.push(_members[i] + ',' + _members[i + 1])],
    [count] iterations from the index [i]. *)
Fixpoint pair_up (_members : value) (count i : nat) : list value :=
  match count with
  | O => []
  | S count =>
      js_add (js_add (js_index _members i) (VStr ",")) (js_index _members (S i))
      :: pair_up _members count (S (S i))
  end.

(** The [while (true)] loop of [zset_convert], from the offset [start]. *)
Fixpoint zset_convert_from (fuel : nat) (source_key target_key : value)
  (command : string) (limit with_scores start : value) : M value :=
  match fuel with
  | O => fun _ => OutOfFuel
  | S fuel =>
      let _end := js_add start limit in
      let params := [start; _end]
                      ++ (if truthy with_scores then [VStr "WITHSCORES"] else []) in
      let! _members := rr (VStr "zrange") source_key params in
      if negb (truthy _members) then ret VUndef
      else
        let! n := js_length _members in
        if negb (truthy n) then ret VUndef
        else
          let! members :=
            (if truthy with_scores then
               ret (pair_up _members
                            (Nat.div2 (S (match n with
                                          | VNum k => Z.to_nat k
                                          | _ => 0%nat
                                          end))) 0)
             else js_iterate _members) in
          do! rr (VStr command) target_key members in
          zset_convert_from fuel source_key target_key command limit with_scores
                            (js_add _end (VNum 1))
  end.

(** [zset_convert(source_key, target_key, command, limit, with_scores)]. *)
Definition zset_convert (fuel : nat) (source_key target_key command limit
                                        with_scores : value) : M value :=
  let command := if is_string "lpush" command then "lpush" else "sadd" in
  let limit := if negb (truthy limit) then VNum 1000 else limit in
  zset_convert_from fuel source_key target_key command limit with_scores (VNum 0).

(** *** Scripts of the store for these runs *)

(** The scores [zmscore] found: the members whose score is not [null]. *)
Definition scored (members scores : list value) : list value :=
  fst <$> List.filter (fun ms => negb (is_null ms.2)) (zip members scores).

Definition zscan_command (source_key cursor : string) : command :=
  ("zscan", [VStr (_rpfx redisHprefix source_key); VStr cursor]).

Definition sadd_command (target_key : string) (payload : list string) : command :=
  ("sadd", VStr (_rpfx redisHprefix target_key) :: ((fun m => VStr m) <$> payload)).

(** The store takes the payload of a page: nothing is asked for an empty
    one. *)
Definition page_copied (target_key : string) (st : Store)
  (payload : list string) (st' : Store) : Prop :=
  match payload with
  | [] => st' = st
  | _ => exists v,
      store_exec st "sadd" (sadd_command target_key payload).2 = (ROk v, st')
  end.

(** The store answers the successive [zscan] requests, each asked with
    the cursor the page before returned, with the pages
    [[cursor, payload]] of [script], and takes each payload; the last
    cursor, and only the last, is the string [0]. *)
Inductive zscan_pages (source_key target_key : string)
  : string -> Store -> list (string * list string) -> Store -> Prop :=
| zscan_pages_last c st payload st1 st' :
    store_exec st "zscan" (zscan_command source_key c).2
    = (ROk (VArr [VStr "0"; VArr ((fun m => VStr m) <$> payload)]), st1) ->
    page_copied target_key st1 payload st' ->
    zscan_pages source_key target_key c st [("0", payload)] st'
| zscan_pages_more c st nc payload st1 st2 script st' :
    store_exec st "zscan" (zscan_command source_key c).2
    = (ROk (VArr [VStr nc; VArr ((fun m => VStr m) <$> payload)]), st1) ->
    nc <> "0" ->
    page_copied target_key st1 payload st2 ->
    zscan_pages source_key target_key nc st2 script st' ->
    zscan_pages source_key target_key c st ((nc, payload) :: script) st'.

(** The requests of those pages. *)
Fixpoint copy_requests (source_key target_key c : string)
  (script : list (string * list string)) : list command :=
  match script with
  | [] => []
  | (nc, payload) :: tl =>
      zscan_command source_key c
      :: match payload with
         | [] => []
         | _ => [sadd_command target_key payload]
         end
      ++ copy_requests source_key target_key nc tl
  end.

Definition zrange_command (source_key : string) (start limit : Z)
  (with_scores : bool) : command :=
  ("zrange",
   [VStr (_rpfx redisHprefix source_key); VNum start; VNum (start + limit)]
     ++ (if with_scores then [VStr "WITHSCORES"] else [])).

(** Members and scores joined two by two; a member without score is
    joined with [undefined]. *)
Fixpoint join_scores (page : list string) : list string :=
  match page with
  | [] => []
  | [m] => [m +:+ "," +:+ ToString VUndef]
  | m :: s :: tl => (m +:+ "," +:+ s) :: join_scores tl
  end.

Definition converted (with_scores : bool) (page : list string) : list string :=
  if with_scores then join_scores page else page.

Definition add_command (cmd target_key : string) (members : list string)
  : command :=
  (cmd, VStr (_rpfx redisHprefix target_key) :: ((fun m => VStr m) <$> members)).

(** The store answers the successive [zrange] requests with the
    non-empty pages of [script], takes what is made of each page, and
    answers the request after the last page with no member; the windows
    follow each other from [start]. *)
Inductive zrange_pages (source_key target_key cmd : string) (limit : Z)
  (with_scores : bool) : Z -> Store -> list (list string) -> Store -> Prop :=
| zrange_pages_done start st v st' :
    store_exec st "zrange"
               (zrange_command source_key start limit with_scores).2
    = (ROk v, st') ->
    truthy v = false \/ v = VArr [] ->
    zrange_pages source_key target_key cmd limit with_scores start st [] st'
| zrange_pages_more start st page st1 v st2 script st' :
    store_exec st "zrange"
               (zrange_command source_key start limit with_scores).2
    = (ROk (VArr ((fun m => VStr m) <$> page)), st1) ->
    page <> [] ->
    store_exec st1 cmd
               (add_command cmd target_key (converted with_scores page)).2
    = (ROk v, st2) ->
    zrange_pages source_key target_key cmd limit with_scores
                 (start + limit + 1) st2 script st' ->
    zrange_pages source_key target_key cmd limit with_scores
                 start st (page :: script) st'.

(** The requests of those pages: the window of page number [i] starts at
    [i * (limit + 1)]. *)
Definition convert_requests (source_key target_key cmd : string)
  (limit : Z) (with_scores : bool) (script : list (list string))
  : list command :=
  concat (imap (fun i page =>
                  [zrange_command source_key (Z.of_nat i * (limit + 1)) limit
                                  with_scores;
                   add_command cmd target_key (converted with_scores page)])
               script)
  ++ [zrange_command source_key (Z.of_nat (length script) * (limit + 1)) limit
                     with_scores].

(** The same requests, from the offset [start] on. *)
Fixpoint convert_requests_from (source_key target_key cmd : string)
  (limit : Z) (with_scores : bool) (start : Z) (script : list (list string))
  : list command :=
  match script with
  | [] => [zrange_command source_key start limit with_scores]
  | page :: tl =>
      zrange_command source_key start limit with_scores
      :: add_command cmd target_key (converted with_scores page)
      :: convert_requests_from source_key target_key cmd limit with_scores
                               (start + limit + 1) tl
  end.
(** * Theorems *)

(** ** Strings *)

Lemma substring_to_1_cons c s : substring_to 1 (String c s) = String c "".
Proof. unfold substring_to. simpl. now destruct s. Qed.

Lemma substring_from_1_cons c s : substring_from 1 (String c s) = s.
Proof.
  unfold substring_from. simpl. rewrite Nat.sub_0_r.
  induction s as [|a s IH]; simpl; [reflexivity|]. now rewrite IH.
Qed.

Lemma prefix_refl_app p s : String.prefix p (p +:+ s) = true.
Proof.
  induction p as [|a p IH]; simpl.
  - now destruct s.
  - destruct (ascii_dec a a); [assumption | congruence].
Qed.

(** [indexOf] is [0] exactly when [sub] is a prefix of [s]. *)
Lemma indexOf_0_prefix s sub :
  (indexOf s sub =? 0) = String.prefix sub s.
Proof.
  unfold indexOf. destruct s as [|c s]; simpl.
  - now destruct sub.
  - destruct sub as [|a sub]; [reflexivity|].
    destruct (ascii_dec a c) as [->|Hne].
    + destruct (String.prefix sub s); [reflexivity|].
      destruct (String.index 0 (String c sub) s); [|reflexivity].
      apply Z.eqb_neq. lia.
    + destruct (String.index 0 (String a sub) s); [|reflexivity].
      apply Z.eqb_neq. lia.
Qed.

(** ** Key namespacer *)

Lemma _rpfx_brace P r : _rpfx P (String "{" r) = String "{" (with_prefix P r).
Proof.
  unfold _rpfx, with_prefix.
  rewrite substring_to_1_cons, substring_from_1_cons. simpl.
  rewrite indexOf_0_prefix. now destruct (String.prefix P r).
Qed.

Lemma _rpfx_plain P k :
  String.eqb (substring_to 1 k) "{" = false -> _rpfx P k = with_prefix P k.
Proof.
  intros H. unfold _rpfx, with_prefix. rewrite H. simpl.
  rewrite indexOf_0_prefix. now destruct (String.prefix P k).
Qed.

Lemma with_prefix_idem P b : with_prefix P (with_prefix P b) = with_prefix P b.
Proof.
  unfold with_prefix. destruct (String.prefix P b) eqn:E.
  - now rewrite E.
  - now rewrite prefix_refl_app.
Qed.

Lemma first_char_cases k :
  (exists r, k = String "{" r) \/ String.eqb (substring_to 1 k) "{" = false.
Proof.
  destruct k as [|c k].
  - right. reflexivity.
  - rewrite substring_to_1_cons.
    destruct (ascii_dec c "{") as [->|Hne].
    + left. now exists k.
    + right. apply String.eqb_neq. congruence.
Qed.

Lemma with_prefix_plain P k :
  String.eqb (substring_to 1 P) "{" = false ->
  String.eqb (substring_to 1 k) "{" = false ->
  String.eqb (substring_to 1 (with_prefix P k)) "{" = false.
Proof.
  intros HP Hk. unfold with_prefix.
  destruct (String.prefix P k) eqn:E; [assumption|].
  destruct P as [|c P].
  - now destruct k.
  - change (String c P +:+ k) with (String c (P +:+ k)).
    rewrite substring_to_1_cons in *. assumption.
Qed.

Lemma string_app_assoc (a b c : string) : (a +:+ b) +:+ c = a +:+ b +:+ c.
Proof.
  induction a as [|x a IH]; [reflexivity|].
  change (String x ((a +:+ b) +:+ c) = String x (a +:+ b +:+ c)).
  now rewrite IH.
Qed.

Lemma string_length_app (a b : string) :
  String.length (a +:+ b) = (String.length a + String.length b)%nat.
Proof.
  induction a as [|x a IH]; [reflexivity|].
  change (S (String.length (a +:+ b)) = S (String.length a + String.length b)).
  now rewrite IH.
Qed.

Lemma prefix_empty s : String.prefix "" s = true.
Proof. now destruct s. Qed.

Lemma with_prefix_unchanged P body :
  with_prefix P body = body <-> String.prefix P body = true.
Proof.
  unfold with_prefix. destruct (String.prefix P body) eqn:E.
  - split; reflexivity.
  - split; [|discriminate]. intros H.
    assert (HP : P = "").
    { apply (f_equal String.length) in H. rewrite string_length_app in H.
      destruct P; [reflexivity|]. cbn [String.length] in H. lia. }
    subst P. now rewrite prefix_empty in E.
Qed.

(** C1, as the code has it: for every key that begins with an opening
    brace, [_rpfx] keeps the brace and namespaces everything after it --
    tag contents, closing brace and remainder together: the prefix is
    inserted directly after the brace unless that text already begins
    with the prefix.  So the key, and with it the tag, comes back
    unchanged exactly when the text after the brace begins with the
    prefix; otherwise the prefix stands before the contents of the tag,
    inside the braces. *)
Theorem rpfx_brace_key (P body : string) :
  _rpfx P ("{" +:+ body)
  = "{" +:+ (if String.prefix P body then body else P +:+ body)
  /\ (_rpfx P ("{" +:+ body) = "{" +:+ body <-> String.prefix P body = true)
  /\ (forall tag rest,
        body = tag +:+ "}" +:+ rest ->
        String.prefix P body = false ->
        _rpfx P (tagged tag rest) = tagged (P +:+ tag) rest).
Proof.
  change ("{" +:+ body) with (String "{" body). rewrite _rpfx_brace.
  split; [reflexivity|]. split.
  - rewrite <- with_prefix_unchanged. split.
    + now intros [= ->].
    + now intros ->.
  - intros tag rest -> Hno. unfold tagged.
    change ("{" +:+ tag +:+ "}" +:+ rest) with (String "{" (tag +:+ "}" +:+ rest)).
    rewrite _rpfx_brace. unfold with_prefix. rewrite Hno.
    change ("{" +:+ ?x) with (String "{" x). f_equal.
    symmetry. apply string_app_assoc.
Qed.

(** C4, as the code has it: for every configured prefix that does not
    itself begin with an opening brace, namespacing is idempotent on
    every key, whether or not the key carries the prefix or a cluster
    tag. *)
Theorem rpfx_idempotent (P k : string) :
  String.eqb (substring_to 1 P) "{" = false ->
  _rpfx P (_rpfx P k) = _rpfx P k.
Proof.
  intros HP. destruct (first_char_cases k) as [[r ->]|Hk].
  - rewrite !_rpfx_brace. now rewrite with_prefix_idem.
  - rewrite (_rpfx_plain P k Hk).
    rewrite _rpfx_plain by now apply with_prefix_plain.
    apply with_prefix_idem.
Qed.

(** ** Dispatch into a Batch Context *)

Lemma last_arg_snoc l x : last_arg (l ++ [x]) = Some x.
Proof.
  unfold last_arg. destruct (l ++ [x]) eqn:E.
  - now destruct l.
  - rewrite <- E. rewrite length_app. simpl.
    replace (length l + 1 - 1)%nat with (length l + 0)%nat by lia.
    now rewrite lookup_app_r, Nat.add_0_r, Nat.sub_diag by lia.
Qed.

Lemma pop_snoc l x : pop (l ++ [x]) = l.
Proof.
  unfold pop. rewrite length_app. simpl.
  replace (length l + 1 - 1)%nat with (length l) by lia.
  now rewrite take_app_length.
Qed.

Lemma _rexec_pipe l p : _rexec (l ++ [VPipe p]) = (TPipe p, l).
Proof. unfold _rexec. now rewrite last_arg_snoc, pop_snoc. Qed.

Lemma invoke_pipe p method args w :
  has_method method = true ->
  invoke (TPipe p) method args w
  = Ok (Queued p)
       (set_pipes (alter (push_command (method, args)) p (pipes w)) w).
Proof. intros H. unfold invoke. now rewrite H. Qed.

Lemma prefix_tagged_arg_pipe l p :
  prefix_tagged_arg <$> (l ++ [VPipe p]) = (prefix_tagged_arg <$> l) ++ [VPipe p].
Proof. now rewrite fmap_app. Qed.

(** A descriptor that ends with a Batch Context is queued there, as the
    command [wire_command] describes. *)
Lemma _redis_call_queued m h args p w :
  has_method (wire_method m) = true ->
  _redis_call m (VStr h) (args ++ [VPipe p]) w
  = Ok (Queued p)
       (set_pipes (alter (push_command (wire_command m h args)) p (pipes w)) w).
Proof.
  intros Hm. unfold _redis_call, wire_command, wire_method, dotted in *.
  destruct (negb (indexOf m "." =? -1)) eqn:Hdot.
  - unfold _rraw.
    change (VStr h :: args ++ [VPipe p]) with ((VStr h :: args) ++ [VPipe p]).
    rewrite _rexec_pipe. now apply invoke_pipe.
  - unfold bind.
    assert (Hlen : (0 <? length (args ++ [VPipe p]))%nat = true).
    { apply Nat.ltb_lt. rewrite length_app. simpl. lia. }
    rewrite Hlen.
    destruct (String.eqb (substring_to 1 h) "{" && multi_key_method m);
      unfold ret.
    + rewrite prefix_tagged_arg_pipe, _rexec_pipe. now apply invoke_pipe.
    + rewrite _rexec_pipe. now apply invoke_pipe.
Qed.

Lemma enqueue_descriptor_ok p l d w :
  heap w !! l = Some (descriptor_array d) ->
  dispatchable d ->
  enqueue_descriptor p l w
  = Ok tt
       (set_pipes
          (alter (push_command (queued_command d)) p (pipes w))
          (set_heap (<[l := descriptor_array (consumed p d)]> (heap w)) w)).
Proof.
  intros Hl Hm. unfold enqueue_descriptor, bind, read_heap. rewrite Hl.
  destruct d as [m k args]. unfold dispatchable in Hm. cbn in *.
  now rewrite _redis_call_queued.
Qed.

(** ** Direct dispatch leaves Batch Contexts and descriptors alone *)

Lemma keeps_ret {A} (a : A) : keeps_batches (ret a).
Proof. intros w w' [= <-]. split; reflexivity. Qed.

Lemma keeps_throw {A} e : keeps_batches (@throw A e).
Proof. intros w w' [= <-]. split; reflexivity. Qed.

Lemma keeps_bind {A B} (m : M A) (k : A -> M B) :
  keeps_batches m -> (forall a, keeps_batches (k a)) -> keeps_batches (bind m k).
Proof.
  intros Hm Hk w w' H. unfold bind in H.
  destruct (m w) as [a w1|e w1|w1|] eqn:E; simpl in H.
  - destruct (Hm w w1) as [H1 H2]; [now rewrite E|].
    destruct (Hk a w1 w' H) as [H3 H4]. split; congruence.
  - injection H as <-. apply Hm. now rewrite E.
  - injection H as <-. apply Hm. now rewrite E.
  - discriminate.
Qed.

Lemma keeps_invoke t method args : keeps_batches (invoke t method args).
Proof.
  intros w w' H. unfold invoke in H.
  destruct (has_method method); [|injection H as <-; now split].
  destruct t as [|p].
  - destruct (transmit (method, args) (store w)) as [r st].
    injection H as <-. now split.
  - injection H as <-. split; [reflexivity|]. simpl. apply length_alter.
Qed.

Lemma keeps_call_fn f args : keeps_batches (call_fn f args).
Proof.
  intros w w' H. unfold call_fn in H. destruct f as [id|].
  - destruct (user_fn id args (store w)) as [[v|e] st];
      injection H as <-; now split.
  - injection H as <-. now split.
Qed.

Lemma keeps_rpfx_val v : keeps_batches (rpfx_val v).
Proof. destruct v; try apply keeps_throw. apply keeps_ret. Qed.

Lemma keeps_settle s : keeps_batches (settle s).
Proof.
  destruct s as [[e|v]|p]; simpl;
    first [apply keeps_throw | apply keeps_ret].
Qed.

Lemma keeps__rraw m args : keeps_batches (_rraw m args).
Proof. unfold _rraw. destruct (_rexec args). apply keeps_invoke. Qed.

Lemma keeps__redis_call m hkey args : keeps_batches (_redis_call m hkey args).
Proof.
  unfold _redis_call. destruct (negb (indexOf m "." =? -1)).
  - apply keeps__rraw.
  - apply keeps_bind.
    + destruct (0 <? length args)%nat; [|apply keeps_ret].
      destruct hkey; try apply keeps_throw.
      destruct (_ && _); apply keeps_ret.
    + intros a. destruct (_rexec a). apply keeps_invoke.
Qed.

Lemma keeps__redis_call_array names hkey args :
  keeps_batches (_redis_call_array names hkey args).
Proof.
  unfold _redis_call_array. destruct (existsb (is_string ".") names).
  - destruct (_rexec (hkey :: args)). apply keeps_invoke.
  - apply keeps_bind.
    + destruct (0 <? length args)%nat; [|apply keeps_ret].
      destruct hkey; try apply keeps_throw.
      destruct (String.eqb _ _); [apply keeps_throw|apply keeps_ret].
    + intros _. destruct (_rexec args). apply keeps_invoke.
Qed.

Lemma keeps__redis_call_spread d : keeps_batches (_redis_call_spread d).
Proof.
  unfold _redis_call_spread. destruct d as [|[] tl]; try apply keeps_throw.
  - apply keeps__redis_call.
  - apply keeps__redis_call_array.
Qed.

Lemma keeps_rr m hkey args : keeps_batches (rr m hkey args).
Proof.
  unfold rr. apply keeps_bind; [apply keeps_rpfx_val|]. intros k.
  assert (Hplain : forall rest,
    keeps_batches (let! s := _redis_call_spread (m :: VStr k :: rest) in settle s)).
  { intros rest. apply keeps_bind; [apply keeps__redis_call_spread|].
    apply keeps_settle. }
  destruct (last_arg args) as [[]|]; try apply Hplain.
  intros w w' H.
  pose proof (keeps__redis_call_spread
                (m :: VStr k :: pop args ++ [VFun FLib]) w) as Hc.
  destruct (_redis_call_spread _ w) as [[[e|v]|p] w1|e w1|w1|]; simpl in *;
    try (injection H as <-; now apply Hc); try discriminate.
  destruct (Hc w1 eq_refl) as [H1 H2].
  pose proof (keeps_call_fn f [v] w1) as Hf.
  destruct (call_fn f [v] w1) as [x w2|e w2|w2|]; simpl in *;
    try discriminate; injection H as <-;
    destruct (Hf w2 eq_refl) as [H3 H4]; split; congruence.
Qed.

Lemma last_arg_cons x l :
  last_arg (x :: l) = match l with [] => Some x | _ => last_arg l end.
Proof.
  destruct l as [|y l]; [reflexivity|].
  unfold last_arg. cbn [length]. rewrite !Nat.sub_succ, !Nat.sub_0_r.
  reflexivity.
Qed.

Lemma ends_plain_cons x l :
  ends_plain l = true -> is_function x = false -> (forall p, x <> VPipe p) ->
  ends_plain (x :: l) = true.
Proof.
  intros Hl Hf Hp. unfold ends_plain in *. rewrite last_arg_cons.
  destruct l; [|exact Hl].
  destruct x; try reflexivity; [discriminate|]. now destruct (Hp p).
Qed.

Lemma last_arg_fmap (f : value -> value) l :
  last_arg (f <$> l) = f <$> last_arg l.
Proof.
  induction l as [|x l IH]; [reflexivity|].
  change (f <$> x :: l) with (f x :: (f <$> l)). rewrite !last_arg_cons, IH.
  now destruct l.
Qed.

Lemma ends_plain_tagged l :
  ends_plain l = true -> ends_plain (prefix_tagged_arg <$> l) = true.
Proof.
  unfold ends_plain. rewrite last_arg_fmap.
  destruct (last_arg l) as [[| | | | |s| | | | |]|]; cbn; try easy.
  now destruct (negb _).
Qed.

Lemma _rexec_plain l : ends_plain l = true -> _rexec l = (TClient, l).
Proof.
  unfold ends_plain, _rexec.
  destruct (last_arg l) as [[]|]; try reflexivity; discriminate.
Qed.

Lemma split_callback_plain l :
  ends_plain l = true -> split_callback l = (l, None).
Proof.
  unfold ends_plain, split_callback.
  destruct (last_arg l) as [[]|]; try reflexivity; discriminate.
Qed.

Lemma invoke_client method args w :
  has_method method = true ->
  split_callback args = (args, None) ->
  invoke TClient method args w
  = Ok (Direct (store_exec (store w) method args).1)
       (add_log (ESend (method, args) (store_exec (store w) method args).1)
                (set_store (store_exec (store w) method args).2 w)).
Proof.
  intros Hm Hs. unfold invoke. rewrite Hm. unfold transmit. cbn [fst snd].
  rewrite Hs. cbn [fst snd].
  destruct (store_exec (store w) method args) as [r st]. reflexivity.
Qed.

Lemma rr_plain m k args w :
  (forall f, last_arg args <> Some (VFun f)) ->
  rr (VStr m) (VStr k) args w
  = (let! s := _redis_call m (VStr (_rpfx redisHprefix k)) args in settle s) w.
Proof.
  intros Hp. unfold rr. unfold bind at 1. cbn [rpfx_val ret].
  destruct (last_arg args) as [[]|]; try reflexivity.
  now destruct (Hp f).
Qed.

Lemma ends_plain_no_callback args :
  ends_plain args = true -> forall f, last_arg args <> Some (VFun f).
Proof. unfold ends_plain. intros H f E. rewrite E in H. discriminate. Qed.

Lemma rr_sends (m k : string) (args : list value) (w : World) :
  dotted m = false ->
  has_method m = true ->
  ends_plain args = true ->
  rr (VStr m) (VStr k) args w
  = sends (m, VStr (_rpfx redisHprefix k)
              :: (if String.eqb (substring_to 1 (_rpfx redisHprefix k)) "{"
                     && multi_key_method m
                  then prefix_tagged_arg <$> args else args)) w.
Proof.
  intros Hdot Hm Hp. rewrite (rr_plain _ _ _ _ (ends_plain_no_callback _ Hp)).
  unfold bind at 1, _redis_call. unfold dotted in Hdot. rewrite Hdot.
  set (h := _rpfx redisHprefix k).
  set (args' := if String.eqb (substring_to 1 h) "{" && multi_key_method m
                then prefix_tagged_arg <$> args else args).
  assert (Hp' : ends_plain args' = true).
  { unfold args'. destruct (_ && _); [now apply ends_plain_tagged|exact Hp]. }
  assert (E : (if (0 <? length args)%nat
               then if String.eqb (substring_to 1 h) "{" && multi_key_method m
                    then ret (prefix_tagged_arg <$> args) else ret args
               else ret args) w = Ok args' w).
  { unfold args'. destruct args as [|a args]; cbn [length Nat.ltb Nat.leb].
    - now destruct (_ && _).
    - now destruct (_ && _). }
  unfold bind at 1. rewrite E. rewrite (_rexec_plain _ Hp').
  rewrite invoke_client; [reflexivity|assumption|].
  apply split_callback_plain. apply ends_plain_cons; [assumption|reflexivity|].
  intros p. discriminate.
Qed.

Lemma sends_outcome (c : command) (w : World) :
  sends c w
  = match store_exec (store w) c.1 c.2 with
    | (ROk v, st) =>
        Ok v {| store := st; pipes := pipes w; heap := heap w;
                log := log w ++ [ESend c (ROk v)] |}
    | (RErr e, st) =>
        Throw (VErr e) {| store := st; pipes := pipes w; heap := heap w;
                          log := log w ++ [ESend c (RErr e)] |}
    end.
Proof.
  unfold sends. destruct (store_exec (store w) c.1 c.2) as [[e|v] st];
    reflexivity.
Qed.

(** C7: a batch of exactly one command is the direct dispatch [rr] of
    that command, and batching is bypassed: no Batch Context is created
    and the descriptor array is left as it was.  For a descriptor that
    holds a standard method, a string key and arguments that end with
    neither a callback nor a Batch Context, the command -- namespaced
    key first -- is sent to the connection at once, and the result is
    the reply to it: its result, or the failure it reports. *)
Theorem rpipemaybe_single (l : nat) (d : list value) (w : World) :
  heap w !! l = Some d ->
  rpipemaybe [l] w
  = rr (default VUndef (d !! 0%nat)) (default VUndef (d !! 1%nat)) (drop 2 d) w
  /\ (forall w', world_of (rpipemaybe [l] w) = Some w' ->
        heap w' = heap w /\ length (pipes w') = length (pipes w))
  /\ (forall m k args,
        d = VStr m :: VStr k :: args ->
        dotted m = false ->
        has_method m = true ->
        ends_plain args = true ->
        let c := (m, VStr (_rpfx redisHprefix k)
                       :: (if String.eqb (substring_to 1 (_rpfx redisHprefix k)) "{"
                              && multi_key_method m
                           then prefix_tagged_arg <$> args else args)) in
        rpipemaybe [l] w
        = match store_exec (store w) c.1 c.2 with
          | (ROk v, st) =>
              Ok v {| store := st; pipes := pipes w; heap := heap w;
                      log := log w ++ [ESend c (ROk v)] |}
          | (RErr e, st) =>
              Throw (VErr e) {| store := st; pipes := pipes w; heap := heap w;
                                log := log w ++ [ESend c (RErr e)] |}
          end).
Proof.
  intros Hl.
  assert (E : rpipemaybe [l] w
              = rr (default VUndef (d !! 0%nat)) (default VUndef (d !! 1%nat))
                   (drop 2 d) w).
  { unfold rpipemaybe, bind, read_heap. now rewrite Hl. }
  split; [exact E|]. rewrite E. split; [apply keeps_rr|].
  intros m k args -> Hdot Hm Hp c.
  change (rr (VStr m) (VStr k) args w
          = match store_exec (store w) c.1 c.2 with
            | (ROk v, st) =>
                Ok v {| store := st; pipes := pipes w; heap := heap w;
                        log := log w ++ [ESend c (ROk v)] |}
            | (RErr e, st) =>
                Throw (VErr e) {| store := st; pipes := pipes w; heap := heap w;
                                  log := log w ++ [ESend c (RErr e)] |}
            end).
  rewrite (rr_sends m k args w Hdot Hm Hp). apply sends_outcome.
Qed.

(** ** The loop of the batch executors *)

Lemma world_eta (w : World) :
  {| store := store w; pipes := pipes w; heap := heap w; log := log w |} = w.
Proof. now destruct w. Qed.

Lemma append_queue_compose cs c (p : nat) (ps : list pipe) :
  alter (append_queue cs) p (alter (push_command c) p ps)
  = alter (append_queue (c :: cs)) p ps.
Proof.
  rewrite list_alter_alter_eq. apply list_alter_ext; [|reflexivity].
  intros q _. unfold append_queue, push_command, compose. simpl.
  now rewrite <- app_assoc.
Qed.

(** Whatever the aliasing between descriptors, every descriptor queues
    exactly one command, which carries its method. *)
Lemma enqueue_all_count p ls :
  forall w,
    Forall (holds_descriptor w) ls ->
    exists cs h',
      for_each (enqueue_descriptor p) ls w
      = Ok tt (set_pipes (alter (append_queue cs) p (pipes w)) (set_heap h' w))
      /\ Forall2 (fun l c => exists d, heap w !! l = Some (descriptor_array d)
                                       /\ c.1 = wire_method (d_method d))
                 ls cs.
Proof.
  induction ls as [|l ls IH]; intros w Hall.
  - exists [], (heap w). split; [|constructor].
    simpl. unfold ret. f_equal. destruct w as [st ps h lg]. unfold set_pipes, set_heap.
    simpl. f_equal. symmetry. apply list_alter_id. intros [md q].
    unfold append_queue. simpl. now rewrite app_nil_r.
  - inversion Hall as [|? ? [d [Hl Hd]] Hrest]; subst.
    set (w1 := set_pipes (alter (push_command (queued_command d)) p (pipes w))
                 (set_heap (<[l := descriptor_array (consumed p d)]> (heap w)) w)).
    assert (Hfwd : forall l',
              holds_descriptor w l' -> holds_descriptor w1 l').
    { intros l' [d' [Hl' Hd']]. unfold holds_descriptor. simpl.
      destruct (decide (l = l')) as [<-|Hne].
      - exists (consumed p d). rewrite list_lookup_insert_eq
          by (eapply lookup_lt_Some; eassumption).
        split; [reflexivity|assumption].
      - exists d'. rewrite list_lookup_insert_ne by assumption.
        split; assumption. }
    assert (Hback : forall l' d1,
              heap w1 !! l' = Some (descriptor_array d1) ->
              exists d0, heap w !! l' = Some (descriptor_array d0)
                         /\ d_method d1 = d_method d0).
    { intros l' d1. simpl. destruct (decide (l = l')) as [<-|Hne].
      - rewrite list_lookup_insert_eq by (eapply lookup_lt_Some; eassumption).
        intros [= E]. exists d. split; [assumption|].
        destruct d, d1. simpl in *. congruence.
      - rewrite list_lookup_insert_ne by assumption. intros E.
        exists d1. split; [assumption|reflexivity]. }
    destruct (IH w1) as (cs & h' & Hrun & Hcs).
    { eapply Forall_impl; [exact Hrest|]. exact Hfwd. }
    exists (queued_command d :: cs), h'. split.
    + simpl. unfold bind. rewrite (enqueue_descriptor_ok p l d w Hl Hd).
      fold w1. rewrite Hrun. f_equal. unfold w1, set_pipes, set_heap. simpl.
      f_equal. apply append_queue_compose.
    + constructor.
      * exists d. split; [assumption|].
        unfold queued_command, wire_command, wire_method.
        now destruct (dotted (d_method d)).
      * eapply Forall2_impl; [exact Hcs|]. simpl. intros l' c [d1 [H1 H2]].
        destruct (Hback l' d1 H1) as [d0 [H3 H4]].
        exists d0. split; [assumption|congruence].
Qed.

Lemma Forall2_impl_elem {A B} (P Q : A -> B -> Prop) (l : list A) (k : list B) :
  Forall2 P l k ->
  (forall x y, x ∈ l -> P x y -> Q x y) ->
  Forall2 Q l k.
Proof.
  induction 1 as [|x y l k Hxy Hrest IH]; intros Himp; constructor.
  - apply Himp; [left|assumption].
  - apply IH. intros x' y' Hin. apply Himp. now right.
Qed.

(** With descriptors at distinct locations, the loop queues the command
    of every descriptor, in order, and leaves every descriptor consumed. *)
Lemma enqueue_all_exact p ls :
  forall ds w,
    NoDup ls ->
    Forall2 (fun l d => heap w !! l = Some (descriptor_array d)) ls ds ->
    Forall dispatchable ds ->
    exists h',
      for_each (enqueue_descriptor p) ls w
      = Ok tt (set_pipes (alter (append_queue (queued_command <$> ds)) p (pipes w))
                         (set_heap h' w))
      /\ Forall2 (fun l d => h' !! l = Some (descriptor_array (consumed p d)))
                 ls ds
      /\ (forall l, l ∉ ls -> h' !! l = heap w !! l).
Proof.
  induction ls as [|l ls IH]; intros ds w Hnd Hall Hok.
  - inversion Hall; subst. exists (heap w). repeat split; [|constructor].
    simpl. unfold ret. f_equal. destruct w as [st ps h lg].
    unfold set_pipes, set_heap. simpl. f_equal. symmetry.
    apply list_alter_id. intros [md q]. unfold append_queue. simpl.
    now rewrite app_nil_r.
  - inversion Hall as [|? d ? ds' Hl Hrest]; subst.
    inversion Hok as [|? ? Hd Hok']; subst.
    inversion Hnd as [|? ? Hnotin Hnd']; subst.
    set (w1 := set_pipes (alter (push_command (queued_command d)) p (pipes w))
                 (set_heap (<[l := descriptor_array (consumed p d)]> (heap w)) w)).
    destruct (IH ds' w1 Hnd') as (h' & Hrun & Hh' & Hother); [|assumption|].
    { eapply Forall2_impl_elem; [exact Hrest|]. simpl. intros l' d' Hin Hl'.
      rewrite list_lookup_insert_ne; [assumption|].
      intros ->. contradiction. }
    exists h'. split; [|split].
    + simpl. unfold bind. rewrite (enqueue_descriptor_ok p l d w Hl Hd).
      fold w1. rewrite Hrun. f_equal. unfold w1, set_pipes, set_heap. simpl.
      f_equal. apply append_queue_compose.
    + constructor; [|assumption].
      rewrite (Hother l Hnotin). simpl.
      apply list_lookup_insert_eq. eapply lookup_lt_Some. eassumption.
    + intros l' Hl'. rewrite Hother.
      * simpl. apply list_lookup_insert_ne. intros ->. apply Hl'. left.
      * intros Hin. apply Hl'. now right.
Qed.

Lemma transmit_all_length cs :
  forall st, length (transmit_all cs st).1 = length cs.
Proof.
  induction cs as [|c cs IH]; intros st; simpl; [reflexivity|].
  destruct (transmit c st) as [r st1].
  specialize (IH st1). destruct (transmit_all cs st1) as [rs st2].
  simpl in *. now rewrite IH.
Qed.

Lemma map_m_second_slot rs w :
  map_m second_slot (reply_pair <$> rs) w = Ok (reply_res <$> rs) w.
Proof.
  induction rs as [|r rs IH]; [reflexivity|].
  change (reply_pair <$> r :: rs) with (reply_pair r :: (reply_pair <$> rs)).
  change (reply_res <$> r :: rs) with (reply_res r :: (reply_res <$> rs)).
  cbn [map_m]. unfold bind at 1.
  replace (second_slot (reply_pair r) w) with (Ok (reply_res r) w)
    by now destruct r.
  unfold bind. now rewrite IH.
Qed.

Lemma batch_run md commands (K : value -> M value) w cs h' :
  for_each (enqueue_descriptor (length (pipes w))) commands
           (set_pipes (pipes w ++ [{| p_mode := md; p_queue := [] |}]) w)
  = Ok tt (set_pipes
             (alter (append_queue cs) (length (pipes w))
                    (pipes w ++ [{| p_mode := md; p_queue := [] |}]))
             (set_heap h'
                (set_pipes (pipes w ++ [{| p_mode := md; p_queue := [] |}]) w))) ->
  (let! rpipe := new_pipe md in
   do! for_each (enqueue_descriptor rpipe) commands in
   let! results := pipe_exec rpipe in
   K results) w
  = K (VArr (reply_pair <$> (transmit_all cs (store w)).1))
      (after_batch md cs (transmit_all cs (store w)).1
                   (transmit_all cs (store w)).2 h' w).
Proof.
  intros Hrun. unfold bind at 1. unfold new_pipe.
  unfold bind at 1. rewrite Hrun.
  unfold bind, pipe_exec. simpl.
  assert (E : alter (append_queue cs) (length (pipes w))
                (pipes w ++ [{| p_mode := md; p_queue := [] |}])
              = pipes w ++ [{| p_mode := md; p_queue := cs |}]).
  { replace (length (pipes w)) with (length (pipes w) + 0)%nat at 1 by lia.
    now rewrite alter_app_r. }
  rewrite E.
  replace ((pipes w ++ [{| p_mode := md; p_queue := cs |}]) !! length (pipes w))
    with (Some {| p_mode := md; p_queue := cs |}).
  2:{ symmetry. rewrite lookup_app_r by lia. now rewrite Nat.sub_diag. }
  simpl. destruct (transmit_all cs (store w)) as [rs st]. reflexivity.
Qed.

Lemma enqueue_all_fresh md commands ds w :
  NoDup commands ->
  Forall2 (fun l d => heap w !! l = Some (descriptor_array d)) commands ds ->
  Forall dispatchable ds ->
  exists h',
    for_each (enqueue_descriptor (length (pipes w))) commands
             (set_pipes (pipes w ++ [{| p_mode := md; p_queue := [] |}]) w)
    = Ok tt (set_pipes
               (alter (append_queue (queued_command <$> ds)) (length (pipes w))
                      (pipes w ++ [{| p_mode := md; p_queue := [] |}]))
               (set_heap h'
                  (set_pipes (pipes w ++ [{| p_mode := md; p_queue := [] |}]) w)))
    /\ Forall2 (fun l d =>
                  h' !! l = Some (descriptor_array (consumed (length (pipes w)) d)))
               commands ds.
Proof.
  intros Hnd Hall Hok.
  destruct (enqueue_all_exact (length (pipes w)) commands ds
              (set_pipes (pipes w ++ [{| p_mode := md; p_queue := [] |}]) w)
              Hnd Hall Hok) as (h' & Hrun & Hh' & _).
  exists h'. split; assumption.
Qed.

Lemma rpipemulti_run commands ds arg2 cb w :
  NoDup commands ->
  Forall2 (fun l d => heap w !! l = Some (descriptor_array d)) commands ds ->
  Forall dispatchable ds ->
  exists v w',
    rpipemulti commands arg2 cb w = Ok v w'
    /\ Forall2 (fun l d =>
                  heap w' !! l
                  = Some (descriptor_array (consumed (length (pipes w)) d)))
               commands ds
    /\ p_queue <$> pipes w' !! length (pipes w) = Some (queued_command <$> ds)
    /\ length (pipes w') = S (length (pipes w)).
Proof.
  intros Hnd Hall Hok. unfold rpipemulti.
  set (md := if truthy arg2 && negb (is_function arg2) && is_string "t" arg2
             then Multi else Pipeline).
  destruct (enqueue_all_fresh md commands ds w Hnd Hall Hok) as (h' & Hrun & Hh').
  rewrite (batch_run md commands _ w _ h' Hrun).
  set (cs := queued_command <$> ds).
  set (w1 := after_batch md cs (transmit_all cs (store w)).1
                         (transmit_all cs (store w)).2 h' w).
  assert (Hq : p_queue <$> pipes w1 !! length (pipes w) = Some cs).
  { simpl. rewrite lookup_app_r by lia. now rewrite Nat.sub_diag. }
  assert (Hlen : length (pipes w1) = S (length (pipes w))).
  { simpl. rewrite length_app. simpl. lia. }
  match goal with |- context [if ?c then _ else _] => destruct c end.
  - unfold bind, notify.
    match goal with |- context [match ?c with VFun _ => _ | _ => _ end] =>
      destruct c as [| | | | | | |[id|]| | |] end;
      eexists _, _; (split; [reflexivity|]); repeat split; assumption.
  - eexists _, _. split; [reflexivity|]. repeat split; assumption.
Qed.

Lemma rpipemulti2array_run commands ds w :
  NoDup commands ->
  Forall2 (fun l d => heap w !! l = Some (descriptor_array d)) commands ds ->
  Forall dispatchable ds ->
  exists v w',
    rpipemulti2array commands w = Ok v w'
    /\ Forall2 (fun l d =>
                  heap w' !! l
                  = Some (descriptor_array (consumed (length (pipes w)) d)))
               commands ds
    /\ p_queue <$> pipes w' !! length (pipes w) = Some (queued_command <$> ds)
    /\ length (pipes w') = S (length (pipes w)).
Proof.
  intros Hnd Hall Hok. unfold rpipemulti2array.
  destruct (enqueue_all_fresh Pipeline commands ds w Hnd Hall Hok)
    as (h' & Hrun & Hh').
  rewrite (batch_run Pipeline commands _ w _ h' Hrun).
  set (cs := queued_command <$> ds).
  set (w1 := after_batch Pipeline cs (transmit_all cs (store w)).1
                         (transmit_all cs (store w)).2 h' w).
  assert (Hq : p_queue <$> pipes w1 !! length (pipes w) = Some cs).
  { simpl. rewrite lookup_app_r by lia. now rewrite Nat.sub_diag. }
  assert (Hlen : length (pipes w1) = S (length (pipes w))).
  { simpl. rewrite length_app. simpl. lia. }
  destruct ((transmit_all cs (store w)).1) as [|r rs] eqn:E.
  - eexists _, _. split; [reflexivity|]. repeat split; assumption.
  - change (reply_pair <$> r :: rs) with (reply_pair r :: (reply_pair <$> rs)).
    cbv iota beta.
    change (reply_pair r :: (reply_pair <$> rs)) with (reply_pair <$> r :: rs).
    unfold bind. rewrite map_m_second_slot.
    eexists _, _. split; [reflexivity|]. repeat split; assumption.
Qed.

Lemma consumed_dispatchable p d : dispatchable d -> dispatchable (consumed p d).
Proof. now destruct d. Qed.

(** On a second execution the Batch Context left behind by the first one
    travels as an argument of the command. *)
Lemma reused_command_carries_context p d :
  dotted (d_method d) = false ->
  last_arg (queued_command (consumed p d)).2 = Some (VPipe p).
Proof.
  intros Hd. unfold queued_command, wire_command. simpl. rewrite Hd. simpl.
  match goal with |- context [if ?c then _ else _] => destruct c end.
  - rewrite fmap_app. simpl.
    change (?x :: ?l ++ [?y]) with ((x :: l) ++ [y]). apply last_arg_snoc.
  - change (?x :: ?l ++ [?y]) with ((x :: l) ++ [y]). apply last_arg_snoc.
Qed.

(** C10: both batch executors mutate the caller's descriptor arrays in
    place -- afterwards each array holds the namespaced key at its second
    position and the Batch Context as a new last element -- so on a
    second execution over the same arrays the commands are built from the
    consumed descriptors: the stale Batch Context is dispatched as an
    argument. *)
Theorem batch_consumes_descriptors (commands : list nat) (ds : list desc)
  (arg2 cb : value) (w : World) :
  NoDup commands ->
  Forall2 (fun l d => heap w !! l = Some (descriptor_array d)) commands ds ->
  Forall dispatchable ds ->
  let p := length (pipes w) in
  let consumed_in w' :=
    Forall2 (fun l d => heap w' !! l = Some (descriptor_array (consumed p d)))
            commands ds in
  (exists v w' v2 w2,
      rpipemulti commands arg2 cb w = Ok v w'
      /\ consumed_in w'
      /\ p_queue <$> pipes w' !! p = Some (queued_command <$> ds)
      /\ rpipemulti commands arg2 cb w' = Ok v2 w2
      /\ p_queue <$> pipes w2 !! S p
         = Some (queued_command <$> (consumed p <$> ds)))
  /\ (exists v w' v2 w2,
      rpipemulti2array commands w = Ok v w'
      /\ consumed_in w'
      /\ p_queue <$> pipes w' !! p = Some (queued_command <$> ds)
      /\ rpipemulti2array commands w' = Ok v2 w2
      /\ p_queue <$> pipes w2 !! S p
         = Some (queued_command <$> (consumed p <$> ds)))
  /\ Forall (fun d => dotted (d_method d) = false ->
                      last_arg (queued_command (consumed p d)).2
                      = Some (VPipe p)) ds.
Proof.
  intros Hnd Hall Hok p consumed_in.
  assert (Hok' : Forall dispatchable (consumed p <$> ds)).
  { apply Forall_fmap. eapply Forall_impl; [exact Hok|].
    intros d. apply consumed_dispatchable. }
  assert (Hall' : forall w', consumed_in w' ->
            Forall2 (fun l d => heap w' !! l = Some (descriptor_array d))
                    commands (consumed p <$> ds)).
  { intros w' H. apply Forall2_fmap_r. exact H. }
  split; [|split].
  - destruct (rpipemulti_run commands ds arg2 cb w Hnd Hall Hok)
      as (v & w' & Hrun & Hcons & Hq & Hlen).
    destruct (rpipemulti_run commands _ arg2 cb w' Hnd (Hall' w' Hcons) Hok')
      as (v2 & w2 & Hrun2 & _ & Hq2 & _).
    rewrite Hlen in Hq2. exists v, w', v2, w2. repeat split; assumption.
  - destruct (rpipemulti2array_run commands ds w Hnd Hall Hok)
      as (v & w' & Hrun & Hcons & Hq & Hlen).
    destruct (rpipemulti2array_run commands _ w' Hnd (Hall' w' Hcons) Hok')
      as (v2 & w2 & Hrun2 & _ & Hq2 & _).
    rewrite Hlen in Hq2. exists v, w', v2, w2. repeat split; assumption.
  - apply Forall_forall. intros d _. apply reused_command_carries_context.
Qed.

(** C3, where it holds: for a batch of M descriptors that hold a method
    known to the Batch Context and a string key, [rpipemulti2array]
    returns the array of the M result slots, in submission order: the
    i-th element is the result slot of the reply to the command queued
    for the i-th descriptor.  The error slots are dropped: for an error
    reply the element is [undefined], whatever the error was. *)
Theorem rpipemulti2array_results (commands : list nat) (w : World) :
  Forall (holds_descriptor w) commands ->
  exists cs rs w',
    rpipemulti2array commands w = Ok (VArr (reply_res <$> rs)) w'
    /\ length rs = length commands
    /\ Forall2 (fun l c => exists d, heap w !! l = Some (descriptor_array d)
                                     /\ c.1 = wire_method (d_method d))
               commands cs
    /\ transmit_all cs (store w) = (rs, store w')
    /\ log w' = log w ++ [EExec (length (pipes w)) Pipeline cs rs]
    /\ (forall i e, rs !! i = Some (RErr e) ->
                    (reply_res <$> rs) !! i = Some VUndef).
Proof.
  intros Hall.
  destruct (enqueue_all_count (length (pipes w)) commands
              (set_pipes (pipes w ++ [{| p_mode := Pipeline; p_queue := [] |}]) w)
              Hall) as (cs & h' & Hrun & Hcs).
  unfold rpipemulti2array.
  rewrite (batch_run Pipeline commands _ w cs h' Hrun).
  pose proof (transmit_all_length cs (store w)) as Hlen.
  destruct (transmit_all cs (store w)) as [rs st] eqn:E. simpl in Hlen.
  exists cs, rs.
  assert (Hrs : length rs = length commands).
  { rewrite Hlen. symmetry. eapply Forall2_length. exact Hcs. }
  assert (Herr : forall i e, rs !! i = Some (RErr e) ->
                             (reply_res <$> rs) !! i = Some VUndef).
  { intros i e Hi. rewrite list_lookup_fmap, Hi. reflexivity. }
  cbn [fst snd].
  destruct rs as [|r rs].
  - eexists. split; [reflexivity|]. repeat split; assumption.
  - change (reply_pair <$> r :: rs) with (reply_pair r :: (reply_pair <$> rs)).
    cbv iota beta.
    change (reply_pair r :: (reply_pair <$> rs)) with (reply_pair <$> r :: rs).
    unfold bind. rewrite map_m_second_slot.
    eexists. split; [reflexivity|]. repeat split; assumption.
Qed.

(** ** Scan iterator *)

Lemma split_callback_lib params :
  split_callback (params ++ [VFun FLib]) = (params, Some FLib).
Proof. unfold split_callback. now rewrite last_arg_snoc, pop_snoc. Qed.

Lemma scan_round_spec func params w :
  has_method func = true ->
  scan_round func params w
  = Ok (reply_res (store_exec (store w) func params).1)
       (add_log (ESend (func, params) (store_exec (store w) func params).1)
                (set_store (store_exec (store w) func params).2 w)).
Proof.
  intros Hm. unfold scan_round, bind, invoke. rewrite Hm.
  unfold transmit. cbn [fst snd]. rewrite split_callback_lib.
  destruct (store_exec (store w) func params) as [r st]. reflexivity.
Qed.

Lemma quiet_ret {A} (a : A) : quiet (ret a).
Proof. intros w. now exists w. Qed.

Lemma quiet_bind {A B} (m : M A) (k : A -> M B) :
  quiet m -> (forall a, quiet (k a)) -> quiet (bind m k).
Proof.
  intros Hm Hk w. unfold bind. destruct (Hm w) as [w1 [H1 H2]].
  destruct (m w) as [a w2|e w2|w2|]; simpl in H1; try discriminate;
    injection H1 as ->.
  - destruct (Hk a w1) as [w3 [H3 H4]]. exists w3. split; congruence.
  - now exists w1.
  - now exists w1.
Qed.

Lemma quiet_call_fn f args : quiet (call_fn f args).
Proof.
  intros w. unfold call_fn. destruct f as [id|].
  - destruct (user_fn id args (store w)) as [[v|e] st]; eexists; now split.
  - now exists w.
Qed.

Lemma quiet_consume_groups cb n fuel :
  forall items, (length items <= fuel)%nat -> (0 < n)%nat ->
                quiet (consume_groups fuel cb n items).
Proof.
  induction fuel as [|fuel IH]; intros items Hlen Hn.
  - destruct items; [apply quiet_ret|simpl in Hlen; lia].
  - destruct items as [|x xs]; [apply quiet_ret|].
    cbn [consume_groups]. apply quiet_bind; [apply quiet_call_fn|].
    intros _. apply IH; [|assumption].
    rewrite length_take. simpl in *. lia.
Qed.

Lemma quiet_consume_round func cb opts keys rtl :
  quiet (consume_round func cb opts keys rtl).
Proof.
  unfold consume_round.
  destruct rtl as [|[| | | | | |[|x xs]| | | |] rtl]; try apply quiet_ret.
  destruct cb as [f|].
  - destruct (o_cb_all opts).
    + apply quiet_bind; [apply quiet_call_fn|]. intros _. apply quiet_ret.
    + apply quiet_bind; [|intros _; apply quiet_ret].
      apply quiet_consume_groups; [reflexivity|].
      destruct (String.eqb func "scan"); lia.
  - destruct (o_return opts); apply quiet_ret.
Qed.

(** *** The start of a key scan *)

Lemma rpfx_nonempty P p : p <> "" -> _rpfx P p <> "".
Proof.
  intros Hp. destruct (first_char_cases p) as [[r ->]|Hk].
  - rewrite _rpfx_brace. discriminate.
  - rewrite (_rpfx_plain P p Hk). unfold with_prefix.
    destruct (String.prefix P p); [exact Hp|].
    intros H. apply (f_equal String.length) in H.
    rewrite string_length_app in H. destruct p; [now apply Hp|].
    cbn [String.length] in H. lia.
Qed.

Lemma first_cursor_default opts : first_cursor opts = default 0 (o_cursor opts).
Proof.
  unfold first_cursor. destruct (o_cursor opts) as [c|]; [|reflexivity].
  cbn [truthy default id]. destruct (Z.eqb_spec c 0) as [->|_]; cbn; lia.
Qed.

Lemma scan_params_eq pre ptn opts :
  scan_params pre ptn opts
  = pre ++ [VNum (default 0 (o_cursor opts))]
        ++ (if truthy ptn then [VStr "MATCH"; ptn] else [])
        ++ count_params opts.
Proof.
  unfold scan_params, count_params. rewrite first_cursor_default.
  destruct (truthy ptn); destruct (o_count opts) as [n|];
    try (cbn [truthy]; destruct (n =? 0); cbn [negb]);
    rewrite <- ?app_assoc, ?app_nil_r; reflexivity.
Qed.

Lemma truthy_string s : s <> "" -> truthy (VStr s) = true.
Proof. intros H. cbn [truthy]. now apply negb_true_iff, String.eqb_neq. Qed.

(** [rscan] enters its loop with the first request of the scan. *)
Lemma rscan_start fuel ptn cbv hkey opts c w :
  scan_request opts ptn hkey c ->
  rscan fuel ptn cbv hkey (Some opts) w
  = scan_loop fuel c.1 (match cbv with VFun f => Some f | _ => None end) opts
              c.2 (VNum (default 0 (o_cursor opts))) [] w.
Proof.
  intros Hc. unfold rscan. change (default no_opts (Some opts)) with opts.
  cbv zeta. rewrite first_cursor_default.
  unfold bind at 1, scan_start. unfold bind at 1.
  destruct Hc as [ptn h Hh|p hkey Hk Hp|ptn hkey Hk Hp].
  - rewrite (truthy_string h Hh). unfold bind at 1. cbn [rpfx_val ret].
    rewrite (truthy_string _ (rpfx_nonempty redisHprefix h Hh)).
    cbn [fst snd]. now rewrite scan_params_eq.
  - rewrite Hk, (truthy_string p Hp). unfold bind at 1. cbn [rpfx_val ret].
    rewrite Hk. cbn [fst snd]. rewrite scan_params_eq.
    now rewrite (truthy_string _ (rpfx_nonempty redisHprefix p Hp)).
  - rewrite Hk, Hp. cbn [ret]. rewrite Hk. cbn [fst snd].
    rewrite scan_params_eq. now rewrite Hp.
Qed.

Lemma scan_request_func opts opts' ptn hkey c c' :
  scan_request opts ptn hkey c -> scan_request opts' ptn hkey c' -> c'.1 = c.1.
Proof.
  intros H H'.
  destruct H as [ptn h Hh|p hkey Hk Hp|ptn hkey Hk Hp];
    inversion H' as [? ? Hh' E1 E2|? ? Hk' Hp' E1 E2|? ? Hk' Hp' E1 E2];
    subst; try reflexivity.
  - rewrite (truthy_string h Hh) in Hk'. discriminate.
  - rewrite (truthy_string h Hh) in Hk'. discriminate.
  - rewrite (truthy_string _ Hh') in Hk. discriminate.
  - rewrite (truthy_string _ Hh') in Hk. discriminate.
Qed.

Lemma scan_request_cursor opts ptn hkey c :
  scan_request opts ptn hkey c ->
  c.2 !! cursor_index c.1 = Some (VNum (default 0 (o_cursor opts))).
Proof. intros H. now destruct H. Qed.

(** *** One round, and the rounds of a script *)

Lemma consume_round_none func opts keys items rest w :
  consume_round func None opts keys (VArr items :: rest) w
  = Ok (if o_return opts then keys ++ items else keys) w.
Proof.
  unfold consume_round. destruct items as [|x xs].
  - rewrite app_nil_r. now destruct (o_return opts).
  - now destruct (o_return opts).
Qed.

Lemma scan_loop_bad fuel func cb opts params i keys w :
  has_method func = true ->
  nonempty_array (reply_res (store_exec (store w) func params).1) = false ->
  scan_loop (S fuel) func cb opts params i keys w
  = Ok (if o_return_cursor opts then VArr [i; VArr keys] else VArr keys)
       {| store := (store_exec (store w) func params).2;
          pipes := pipes w; heap := heap w;
          log := log w ++ [ESend (func, params)
                                 (store_exec (store w) func params).1] |}.
Proof.
  intros Hm Hbad.
  cbn [scan_loop]. unfold bind at 1. rewrite (scan_round_spec _ _ _ Hm).
  destruct (reply_res _) as [| | | | | |[|r0 rtl]| | | |];
    try reflexivity; discriminate.
Qed.

Lemma scan_loop_then_bad func opts script bad st' :
  forall params i keys w,
    scan_rounds_then func params (store w) script bad st' ->
    nonempty_array (reply_res bad) = false ->
    has_method func = true ->
    o_one opts = false ->
    scan_loop (S (length script)) func None opts params i keys w
    = Ok (if o_return_cursor opts
          then VArr [cursor_after i script;
                     VArr (if o_return opts
                           then keys ++ concat (snd <$> script) else keys)]
          else VArr (if o_return opts
                     then keys ++ concat (snd <$> script) else keys))
         {| store := st'; pipes := pipes w; heap := heap w;
            log := log w ++ scan_events func params script
                         ++ [ESend (func, advance func params script) bad] |}.
Proof.
  induction script as [|[r0 items] script IH]; intros params i keys w Hrounds Hbad Hm Hone.
  - inversion Hrounds as [? ? ? ? Hex|]; subst.
    rewrite scan_loop_bad by (rewrite ?Hex; assumption).
    rewrite Hex. cbn [fst snd concat fmap list_fmap scan_events advance
                      cursor_after app].
    rewrite app_nil_r. now destruct (o_return opts).
  - inversion Hrounds as [|? ? ? ? st1 ? ? ? Hex Hgo Hrest]; subst.
    cbn [length]. remember (S (length script)) as n eqn:En.
    cbn [scan_loop]. unfold bind at 1.
    rewrite (scan_round_spec _ _ _ Hm), Hex. cbn [fst snd reply_res].
    unfold bind at 1. rewrite consume_round_none.
    rewrite Hgo, Hone. cbn [negb orb].
    fold (cursor_index func). subst n.
    rewrite (IH (<[cursor_index func := parseInt r0]> params) (parseInt r0)
               (if o_return opts then keys ++ items else keys)
               (add_log (ESend (func, params) (ROk (VArr [r0; VArr items])))
                        (set_store st1 w)) Hrest Hbad Hm Hone).
    cbn [log add_log set_store pipes heap store scan_events advance
         cursor_after concat fmap list_fmap snd].
    rewrite <- !app_assoc. cbn [app].
    destruct (o_return opts), (o_return_cursor opts);
      rewrite <- ?app_assoc; reflexivity.
Qed.

(** *** The request log only grows *)

Lemma extends_of_quiet {A} (m : M A) : quiet m -> extends_log m.
Proof.
  intros Hq w w' H. destruct (Hq w) as [w1 [H1 H2]].
  exists []. rewrite app_nil_r. congruence.
Qed.

Lemma scan_loop_log func cb opts :
  has_method func = true ->
  forall fuel params i keys w w',
    world_of (scan_loop (S fuel) func cb opts params i keys w) = Some w' ->
    exists tl,
      log w' = log w ++ ESend (func, params) (store_exec (store w) func params).1
                     :: tl.
Proof.
  intros Hm. induction fuel as [|fuel IH]; intros params i keys w w' H.
  - cbn [scan_loop] in H. unfold bind at 1 in H.
    rewrite (scan_round_spec _ _ _ Hm) in H.
    destruct (reply_res _) as [| | | | | |[|r0 rtl]| | | |];
      try (injection H as <-; now exists []).
    unfold bind in H.
    destruct (quiet_consume_round func cb opts keys rtl
                (add_log (ESend (func, params) (store_exec (store w) func params).1)
                         (set_store (store_exec (store w) func params).2 w)))
      as [w2 [H1 H2]].
    destruct (consume_round func cb opts keys rtl _) as [ks w3|e w3|w3|];
      cbn [world_of] in H1; try discriminate; injection H1 as ->.
    + destruct (negb (truthy (parseInt r0)) || o_one opts);
        cbn [world_of ret] in H; [|discriminate].
      injection H as <-. exists []. exact H2.
    + injection H as <-. exists []. exact H2.
    + injection H as <-. exists []. exact H2.
  - remember (S fuel) as n eqn:En.
    cbn [scan_loop] in H. unfold bind at 1 in H.
    rewrite (scan_round_spec _ _ _ Hm) in H.
    destruct (reply_res _) as [| | | | | |[|r0 rtl]| | | |];
      try (injection H as <-; now exists []).
    unfold bind in H.
    destruct (quiet_consume_round func cb opts keys rtl
                (add_log (ESend (func, params) (store_exec (store w) func params).1)
                         (set_store (store_exec (store w) func params).2 w)))
      as [w2 [H1 H2]].
    destruct (consume_round func cb opts keys rtl _) as [ks w3|e w3|w3|];
      cbn [world_of] in H1; try discriminate; injection H1 as ->.
    + destruct (negb (truthy (parseInt r0)) || o_one opts).
      * injection H as <-. exists []. exact H2.
      * subst n. destruct (IH _ _ _ _ _ H) as [tl Htl].
        eexists. rewrite Htl, H2. cbn [log add_log].
        rewrite <- app_assoc. reflexivity.
    + injection H as <-. exists []. exact H2.
    + injection H as <-. exists []. exact H2.
Qed.

(** *** Cursors as numbers *)

Lemma round_double_small n : Z.abs n <= 2 ^ 53 -> round_double n = n.
Proof.
  intros H. unfold round_double.
  destruct (Z.eq_dec (Z.abs n) (2 ^ 53)) as [E|E].
  - destruct (Z.abs_eq_or_opp n) as [E1|E1]; rewrite E1 in E.
    + subst n. now vm_compute.
    + assert (n = - 2 ^ 53) by lia. subst n. now vm_compute.
  - assert (Hlt : Z.abs n < 2 ^ 53) by lia.
    assert (Hlog : Z.log2 (Z.abs n) < 53).
    { destruct (Z.eq_dec (Z.abs n) 0) as [->|Hz]; [now vm_compute|].
      apply Z.log2_lt_pow2; lia. }
    replace (Z.log2 (Z.abs n) - 52 <=? 0) with true; [reflexivity|].
    symmetry. apply Z.leb_le. lia.
Qed.

Lemma number_of_Z_small n : Z.abs n <= 2 ^ 53 -> number_of_Z n = VNum n.
Proof.
  intros H. unfold number_of_Z. rewrite (round_double_small n H).
  replace (2 ^ 1024 <=? Z.abs n) with false; [reflexivity|].
  symmetry. apply Z.leb_gt.
  apply Z.le_lt_trans with (1 := H). now vm_compute.
Qed.

(** C8: a round whose payload is not a non-empty array -- an error
    reply, a value that is no array, an empty array -- ends the
    enumeration without a failure, whatever the state of the loop: the
    value is the cursor and the keys accumulated so far (the keys alone
    without [return_cursor]).  So a scan without callback that the
    store answers with the rounds of a script and then with such a
    payload returns the items of those rounds, under [return], and the
    cursor of the last of them, having asked once more and no further. *)
Theorem scan_stops_on_bad_round :
  (forall fuel func cb opts params i keys w,
      has_method func = true ->
      nonempty_array (reply_res (store_exec (store w) func params).1) = false ->
      scan_loop (S fuel) func cb opts params i keys w
      = Ok (if o_return_cursor opts then VArr [i; VArr keys] else VArr keys)
           {| store := (store_exec (store w) func params).2;
              pipes := pipes w; heap := heap w;
              log := log w ++ [ESend (func, params)
                                     (store_exec (store w) func params).1] |})
  /\ (forall ptn cbv hkey opts request script bad st' w,
      scan_request opts ptn hkey request ->
      is_function cbv = false ->
      has_method request.1 = true ->
      o_one opts = false ->
      let c0 := default 0 (o_cursor opts) in
      let keys := if o_return opts then concat (snd <$> script) else [] in
      scan_rounds_then request.1 request.2 (store w) script bad st' ->
      nonempty_array (reply_res bad) = false ->
      rscan (S (length script)) ptn cbv hkey (Some opts) w
      = Ok (if o_return_cursor opts
            then VArr [cursor_after (VNum c0) script; VArr keys]
            else VArr keys)
           {| store := st'; pipes := pipes w; heap := heap w;
              log := log w ++ scan_events request.1 request.2 script
                           ++ [ESend (request.1,
                                      advance request.1 request.2 script)
                                     bad] |}).
Proof.
  split.
  - intros. now apply scan_loop_bad.
  - intros ptn cbv hkey opts request script bad st' w Hreq Hcb Hm Hone c0 keys
           Hrounds Hbad.
    rewrite (rscan_start _ ptn cbv hkey opts request w Hreq).
    replace (match cbv with VFun f => Some f | _ => None end)
      with (@None closure) by (destruct cbv; try reflexivity; discriminate).
    fold c0.
    rewrite (scan_loop_then_bad request.1 opts script bad st' request.2
               (VNum c0) [] w Hrounds Hbad Hm Hone).
    reflexivity.
Qed.

(** C2, where it holds: a scan with the [one] option whose first round
    brings at least one item issues exactly that one round, whatever
    cursor the round returns and whatever the callback does; without a
    callback the value is the items accumulated under [return], and
    with [return_cursor] the cursor of the round with them; that cursor
    is the store's own when the store gives it as the string of an
    integer of magnitude at most [2^53]; and a later scan of the same
    pattern and hash key that is given it as its [cursor] option sends
    it as the cursor of its first request. *)
Theorem scan_one_round (fuel : nat) (ptn cbv hkey : value)
  (opts : scan_opts) (request : command) (w : World) (r0 x : value)
  (xs rest : list value) (st : Store) :
  scan_request opts ptn hkey request ->
  has_method request.1 = true ->
  o_one opts = true ->
  let reply := ROk (VArr (r0 :: VArr (x :: xs) :: rest)) in
  store_exec (store w) request.1 request.2 = (reply, st) ->
  let w1 := {| store := st; pipes := pipes w; heap := heap w;
               log := log w ++ [ESend request reply] |} in
  let keys := if o_return opts then x :: xs else [] in
  (is_function cbv = false ->
     rscan (S fuel) ptn cbv hkey (Some opts) w
     = Ok (if o_return_cursor opts
           then VArr [parseInt r0; VArr keys] else VArr keys) w1)
  /\ (exists w', world_of (rscan (S fuel) ptn cbv hkey (Some opts) w) = Some w'
                 /\ log w' = log w ++ [ESend request reply])
  /\ (forall s n, r0 = VStr s -> parseInt_string s = Some n ->
                  Z.abs n <= 2 ^ 53 -> parseInt r0 = VNum n)
  /\ (forall n opts' request' cbv' fuel' w0 w',
        parseInt r0 = VNum n ->
        o_cursor opts' = Some n ->
        scan_request opts' ptn hkey request' ->
        world_of (rscan (S fuel') ptn cbv' hkey (Some opts') w0) = Some w' ->
        request'.2 !! cursor_index request'.1 = Some (VNum n)
        /\ exists reply' tl, log w' = log w0 ++ ESend request' reply' :: tl).
Proof.
  intros Hreq Hm Hone reply Hreply w1 keys.
  assert (E : forall cb,
             scan_loop (S fuel) request.1 cb opts request.2
                       (VNum (default 0 (o_cursor opts))) [] w
             = (let! keys' := consume_round request.1 cb opts []
                                            (VArr (x :: xs) :: rest) in
                ret (if o_return_cursor opts
                     then VArr [parseInt r0; VArr keys'] else VArr keys')) w1).
  { intros cb. cbn [scan_loop]. unfold bind at 1.
    rewrite (scan_round_spec _ _ _ Hm), Hreply. cbn [fst snd].
    unfold reply at 1. cbn [reply_res].
    replace (add_log (ESend (request.1, request.2) reply) (set_store st w))
      with w1 by (unfold w1; now destruct request).
    unfold bind.
    destruct (consume_round request.1 cb opts [] (VArr (x :: xs) :: rest) w1);
      try reflexivity.
    now rewrite Hone, orb_true_r. }
  split; [|split; [|split]].
  - intros Hcb. rewrite (rscan_start _ ptn cbv hkey opts request w Hreq).
    replace (match cbv with VFun f => Some f | _ => None end)
      with (@None closure) by (destruct cbv; try reflexivity; discriminate).
    rewrite (E None). unfold bind. rewrite consume_round_none. reflexivity.
  - rewrite (rscan_start _ ptn cbv hkey opts request w Hreq). rewrite E.
    destruct (quiet_bind
                (consume_round request.1
                   (match cbv with VFun f => Some f | _ => None end) opts []
                   (VArr (x :: xs) :: rest))
                (fun keys' => ret (if o_return_cursor opts
                                   then VArr [parseInt r0; VArr keys']
                                   else VArr keys'))
                (quiet_consume_round _ _ _ _ _)
                (fun a => quiet_ret _) w1) as [w' [H1 H2]].
    exists w'. split; [exact H1|exact H2].
  - intros s n -> Hs Hn. unfold parseInt. cbn [js_string_of]. rewrite Hs.
    now apply number_of_Z_small.
  - intros n opts' request' cbv' fuel' w0 w' _ Hc Hreq' Hw.
    split.
    { rewrite (scan_request_cursor _ _ _ _ Hreq'), Hc. reflexivity. }
    rewrite (rscan_start _ ptn cbv' hkey opts' request' w0 Hreq') in Hw.
    assert (Hm' : has_method request'.1 = true)
      by (now rewrite (scan_request_func _ _ _ _ _ _ Hreq Hreq')).
    destruct (scan_loop_log request'.1 _ opts' Hm' _ _ _ _ _ _ Hw) as [tl Htl].
    eexists _, tl. rewrite Htl. now destruct request'.
Qed.
(** ** Document path accessor *)

Lemma bind_ret_r {A} (m : M A) w : bind m ret w = m w.
Proof. unfold bind, ret. now destruct (m w). Qed.

Lemma _rraw_json_get k p w :
  has_method "call" = true ->
  _rraw "JSON.GET" [VStr k; VStr p] w
  = Ok (Direct (store_exec (store w) "call"
                           [VStr "JSON.GET"; VStr k; VStr p]).1)
       (add_log (ESend ("call", [VStr "JSON.GET"; VStr k; VStr p])
                       (store_exec (store w) "call"
                                   [VStr "JSON.GET"; VStr k; VStr p]).1)
                (set_store (store_exec (store w) "call"
                                       [VStr "JSON.GET"; VStr k; VStr p]).2 w)).
Proof.
  intros Hm. unfold _rraw.
  change (_rexec [VStr k; VStr p]) with (TClient, [VStr k; VStr p]).
  cbv iota beta.
  change (_rraw_args "JSON.GET" [VStr k; VStr p]) with [VStr k; VStr p].
  unfold invoke. rewrite Hm. unfold transmit.
  change (split_callback ("call", [VStr "JSON.GET"; VStr k; VStr p]).2)
    with ([VStr "JSON.GET"; VStr k; VStr p], @None closure).
  change (split_callback [VStr "JSON.GET"; VStr k; VStr p])
    with ([VStr "JSON.GET"; VStr k; VStr p], @None closure).
  cbn [fst snd].
  destruct (store_exec (store w) "call" [VStr "JSON.GET"; VStr k; VStr p])
    as [r st].
  reflexivity.
Qed.

(** The first part of [rjget] when the store answers [res0]. *)
Lemma rjget_result_spec k path callback rest_args w p res0 st :
  _rjpath path = Some p ->
  has_method "call" = true ->
  store_exec (store w) "call"
             [VStr "JSON.GET"; VStr (_rpfx redisHprefix k); VStr p]
  = (ROk res0, st) ->
  rjget_result (VStr k) path callback rest_args w
  = (let! res := shape_result (take_tokens rest_args).1 callback res0 in
     ret {| g_hkey := _rpfx redisHprefix k; g_path := p;
            g_opts := (take_tokens rest_args).1;
            g_rest := (take_tokens rest_args).2; g_res := res |})
      (add_log (ESend ("call", [VStr "JSON.GET"; VStr (_rpfx redisHprefix k);
                                VStr p]) (ROk res0))
               (set_store st w)).
Proof.
  intros Hp Hm Hreply. unfold rjget_result. rewrite Hp.
  unfold bind at 1. cbn [ret]. unfold bind at 1. cbn [rpfx_val ret].
  unfold bind at 1. rewrite (_rraw_json_get _ _ _ Hm). rewrite Hreply.
  cbn [fst snd]. unfold bind at 1. cbn [settle ret].
  destruct (take_tokens rest_args) as [opts rest]. reflexivity.
Qed.

Lemma rjget_result_fields hkey path callback rest_args w g w1 :
  rjget_result hkey path callback rest_args w = Ok g w1 ->
  g_opts g = (take_tokens rest_args).1
  /\ g_rest g = (take_tokens rest_args).2
  /\ _rjpath path = Some (g_path g)
  /\ (forall k, hkey = VStr k -> g_hkey g = _rpfx redisHprefix k).
Proof.
  unfold rjget_result. destruct (_rjpath path) as [p|]; [|discriminate].
  unfold bind at 1. cbn [ret]. unfold bind at 1.
  destruct hkey as [| | | | |k| | | | |]; try discriminate. cbn [rpfx_val ret].
  unfold bind at 1. destruct (_rraw _ _ w) as [s w2|e w2|w2|]; try discriminate.
  unfold bind at 1. destruct (settle s w2) as [res w3|e w3|w3|]; try discriminate.
  destruct (take_tokens rest_args) as [opts rest].
  unfold bind. destruct (shape_result opts callback res w3) as [r w4|e w4|w4|];
    try discriminate.
  intros [= <- <-]. cbn. repeat split. now intros k' [= ->].
Qed.

Lemma rjget_no_rest n hkey path callback w :
  rjget (S n) hkey path callback [] w
  = (let! g := rjget_result hkey path callback [] in ret (g_res g)) w.
Proof.
  cbn [rjget]. unfold bind.
  destruct (rjget_result hkey path callback [] w) as [g w1|e w1|w1|] eqn:E;
    try reflexivity.
  destruct (rjget_result_fields _ _ _ _ _ _ _ E) as (_ & Hrest & _).
  cbn in Hrest. rewrite Hrest. cbn. now rewrite orb_true_r.
Qed.

Lemma substring_to_2_dollar s : substring_to 2 ("$." +:+ s) = "$.".
Proof. unfold substring_to. cbn. now destruct s. Qed.

Lemma _rjpath_fixed (path : value) (p : string) :
  _rjpath path = Some p ->
  _rjpath (VStr p) = Some p
  /\ (p = "$" \/ substring_to 2 p = "$.").
Proof.
  unfold _rjpath at 1.
  destruct (negb (truthy path) || is_string "$" path) eqn:E.
  - intros [= <-]. split; [reflexivity|now left].
  - destruct path as [| | | | |s| | | | |]; try discriminate.
    apply orb_false_elim in E. destruct E as [Ht Hd].
    cbn [truthy] in Ht. rewrite negb_involutive in Ht.
    destruct (negb (String.eqb (substring_to 2 s) "$.")) eqn:E2; intros [= <-].
    + split; [|right; apply substring_to_2_dollar].
      unfold _rjpath. rewrite substring_to_2_dollar.
      change (String.eqb "$." "$.") with true. cbn [negb].
      replace (negb (truthy (VStr ("$." +:+ s))) || is_string "$" (VStr ("$." +:+ s)))
        with false; [reflexivity|].
      symmetry. apply orb_false_intro.
      * reflexivity.
      * cbn [is_string]. apply String.eqb_neq. destruct s; discriminate.
    + apply negb_false_iff, String.eqb_eq in E2.
      split; [|now right].
      unfold _rjpath. cbn [truthy]. rewrite Ht. cbn [negb orb].
      cbn [is_string] in Hd |- *. rewrite Hd. rewrite E2.
      change (String.eqb "$." "$.") with true. reflexivity.
Qed.

(** *** Option tokens *)

Lemma is_string_eq t v : is_string t v = true -> v = VStr t.
Proof.
  destruct v; try discriminate. cbn [is_string].
  intros H. apply String.eqb_eq in H. now subst.
Qed.

Lemma take_token_cons tok v l :
  take_token tok (v :: l)
  = if is_string tok v then (true, l)
    else ((take_token tok l).1, v :: (take_token tok l).2).
Proof.
  unfold take_token. cbn [index_of_string].
  destruct (is_string tok v); [reflexivity|].
  destruct (index_of_string tok l); reflexivity.
Qed.

Lemma take_token_flag tok l :
  (take_token tok l).1 = existsb (is_string tok) l.
Proof.
  induction l as [|v l IH]; [reflexivity|].
  rewrite take_token_cons. cbn [existsb].
  destruct (is_string tok v); [reflexivity|exact IH].
Qed.

Lemma take_token_sublist tok l : (take_token tok l).2 `sublist_of` l.
Proof.
  unfold take_token. destruct (index_of_string tok l); [|reflexivity].
  apply sublist_delete.
Qed.

Lemma take_token_other t t' l :
  t <> t' ->
  existsb (is_string t') (take_token t l).2 = existsb (is_string t') l.
Proof.
  intros Hne. induction l as [|v l IH]; [reflexivity|].
  rewrite take_token_cons. destruct (is_string t v) eqn:E.
  - cbn [snd existsb]. rewrite (is_string_eq _ _ E). cbn [is_string].
    replace (String.eqb t t') with false; [reflexivity|].
    symmetry. now apply String.eqb_neq.
  - cbn [snd existsb]. now rewrite IH.
Qed.

Lemma take_tokens_unfold l :
  take_tokens l
  = ({| g_rerun := (take_token "rerun" l).1;
        g_keep_array := (take_token "keep_array" (take_token "rerun" l).2).1;
        g_empty_array_null :=
          (take_token "empty_array_null"
                      (take_token "keep_array" (take_token "rerun" l).2).2).1 |},
     (take_token "empty_array_null"
                 (take_token "keep_array" (take_token "rerun" l).2).2).2).
Proof.
  unfold take_tokens.
  destruct (take_token "rerun" l) as [r l1]. cbn [fst snd].
  destruct (take_token "keep_array" l1) as [k l2]. cbn [fst snd].
  destruct (take_token "empty_array_null" l2) as [e l3]. reflexivity.
Qed.

(** The options [rjget] reads are the tokens that occur among the
    trailing arguments. *)
Lemma take_tokens_flags l :
  (take_tokens l).1
  = {| g_rerun := existsb (is_string "rerun") l;
       g_keep_array := existsb (is_string "keep_array") l;
       g_empty_array_null := existsb (is_string "empty_array_null") l |}.
Proof.
  rewrite take_tokens_unfold. cbn [fst]. rewrite !take_token_flag.
  rewrite (take_token_other "keep_array" "empty_array_null") by discriminate.
  rewrite (take_token_other "rerun" "empty_array_null") by discriminate.
  rewrite (take_token_other "rerun" "keep_array") by discriminate.
  reflexivity.
Qed.

Lemma take_tokens_sublist l : (take_tokens l).2 `sublist_of` l.
Proof.
  rewrite take_tokens_unfold. cbn [snd].
  etransitivity; [apply take_token_sublist|].
  etransitivity; [apply take_token_sublist|].
  apply take_token_sublist.
Qed.

Lemma existsb_sublist (q : value -> bool) l1 l2 :
  l1 `sublist_of` l2 -> existsb q l2 = false -> existsb q l1 = false.
Proof.
  intros Hs H. destruct (existsb q l1) eqn:E; [|reflexivity].
  apply existsb_exists in E. destruct E as [x [Hin Hq]].
  assert (Hin2 : In x l2).
  { apply list_elem_of_In. eapply elem_of_sublist; [|exact Hs].
    now apply list_elem_of_In. }
  assert (existsb q l2 = true) by (apply existsb_exists; eauto).
  congruence.
Qed.

Lemma Forall_sublist (Q : value -> Prop) l1 l2 :
  l1 `sublist_of` l2 -> Forall Q l2 -> Forall Q l1.
Proof.
  intros Hs H. apply Forall_forall. intros x Hx.
  rewrite Forall_forall in H. apply H. eapply elem_of_sublist; eassumption.
Qed.

Lemma take_token_pre t pre x post :
  is_string t x = false ->
  exists pre' post',
    (take_token t (pre ++ x :: post)).2 = pre' ++ x :: post'
    /\ pre' `sublist_of` pre
    /\ (NoDup pre -> existsb (is_string t) pre' = false).
Proof.
  intros Hx. induction pre as [|v pre IH].
  - exists [], (take_token t post).2. cbn [app]. rewrite take_token_cons, Hx.
    cbn [snd]. repeat split. reflexivity.
  - destruct IH as (pre' & post' & Hrest & Hsub & Hno).
    cbn [app]. rewrite take_token_cons. destruct (is_string t v) eqn:E.
    + exists pre, post. cbn [snd]. split; [reflexivity|]. split.
      * now apply sublist_cons.
      * intros Hnd. apply NoDup_cons in Hnd. destruct Hnd as [Hnotin _].
        destruct (existsb (is_string t) pre) eqn:E2; [|reflexivity].
        apply existsb_exists in E2. destruct E2 as [u [Hin Hu]].
        rewrite (is_string_eq _ _ E) in Hnotin.
        rewrite (is_string_eq _ _ Hu) in Hin.
        exfalso. apply Hnotin. now apply list_elem_of_In.
    + exists (v :: pre'), post'. cbn [snd]. rewrite Hrest.
      split; [reflexivity|]. split.
      * now apply sublist_skip.
      * intros Hnd. apply NoDup_cons in Hnd. destruct Hnd as [_ Hnd].
        cbn [existsb]. rewrite E. now apply Hno.
Qed.

(** When the arguments before the first one that is no option token are
    option tokens, each given once, that argument is the first one
    left. *)
Lemma take_tokens_pre pre x post :
  option_token x = false ->
  Forall (fun v => option_token v = true) pre ->
  NoDup pre ->
  exists post', (take_tokens (pre ++ x :: post)).2 = x :: post'.
Proof.
  intros Hx Htok Hnd. rewrite take_tokens_unfold. cbn [snd].
  unfold option_token in Hx.
  apply orb_false_elim in Hx. destruct Hx as [Hx Hx3].
  apply orb_false_elim in Hx. destruct Hx as [Hx1 Hx2].
  destruct (take_token_pre "rerun" pre x post Hx1) as (p1 & q1 & E1 & S1 & N1).
  rewrite E1.
  destruct (take_token_pre "keep_array" p1 x q1 Hx2)
    as (p2 & q2 & E2 & S2 & N2).
  rewrite E2.
  destruct (take_token_pre "empty_array_null" p2 x q2 Hx3)
    as (p3 & q3 & E3 & S3 & N3).
  rewrite E3. exists q3.
  assert (Hnd1 : NoDup p1) by (eapply sublist_NoDup; eassumption).
  assert (Hnd2 : NoDup p2) by (eapply sublist_NoDup; eassumption).
  assert (H1 : existsb (is_string "rerun") p3 = false).
  { eapply existsb_sublist; [|exact (N1 Hnd)]. now transitivity p2. }
  assert (H2 : existsb (is_string "keep_array") p3 = false).
  { eapply existsb_sublist; [exact S3|exact (N2 Hnd1)]. }
  assert (H3 : existsb (is_string "empty_array_null") p3 = false)
    by exact (N3 Hnd2).
  assert (Htok3 : Forall (fun v => option_token v = true) p3).
  { eapply Forall_sublist; [|exact Htok].
    transitivity p2; [exact S3|]. now transitivity p1. }
  destruct p3 as [|v p3]; [reflexivity|]. exfalso.
  apply Forall_cons in Htok3. destruct Htok3 as [Hv _].
  cbn [existsb] in H1, H2, H3. unfold option_token in Hv.
  apply orb_false_elim in H1, H2, H3.
  destruct H1 as [H1 _], H2 as [H2 _], H3 as [H3 _].
  rewrite H1, H2, H3 in Hv. discriminate.
Qed.

(** *** The get and what follows it *)

Lemma quiet_throw {A} e : quiet (@throw A e).
Proof. intros w. now exists w. Qed.

Lemma quiet_shape_result opts callback res :
  quiet (shape_result opts callback res).
Proof.
  unfold shape_result. destruct (negb (is_null res)); [|apply quiet_ret].
  apply quiet_bind.
  - destruct res; try apply quiet_ret. unfold parseJson.
    destruct (JSON_parse s); [apply quiet_ret|apply quiet_throw].
  - intros r. destruct (negb (is_null _)); [|apply quiet_ret].
    unfold apply_callback. destruct callback; try apply quiet_ret.
    apply quiet_call_fn.
Qed.

(** The part of [rjget] after line 401 when no function stands first
    among the arguments left. *)
Lemma rjget_tail_plain (fuel : nat) (callback : value) (g : got) (w : World) :
  (forall f more, g_rest g <> VFun f :: more) ->
  (if negb (is_null (g_res g)) || (length (g_rest g) =? 0)%nat
   then ret (g_res g)
   else
     match g_rest g with
     | VFun f :: _ =>
         let! produced := call_fn f [VStr (g_hkey g); VStr (g_path g)] in
         if g_rerun (g_opts g)
         then rjget fuel (VStr (g_hkey g)) (VStr (g_path g)) callback []
         else ret produced
     | _ => ret VNull
     end) w
  = Ok (g_res g) w.
Proof.
  intros Hno. destruct (g_res g) eqn:Er; try reflexivity.
  cbn [is_null negb orb].
  destruct (g_rest g) as [|v more] eqn:E; [reflexivity|].
  cbn [length Nat.eqb].
  destruct v; try reflexivity. now destruct (Hno f more).
Qed.

Lemma rjget_plain fuel k path callback rest_args w p res0 st :
  _rjpath path = Some p ->
  has_method "call" = true ->
  store_exec (store w) "call"
             [VStr "JSON.GET"; VStr (_rpfx redisHprefix k); VStr p]
  = (ROk res0, st) ->
  (forall f more, (take_tokens rest_args).2 <> VFun f :: more) ->
  rjget (S fuel) (VStr k) path callback rest_args w
  = shape_result (take_tokens rest_args).1 callback res0
      (add_log (ESend ("call", [VStr "JSON.GET"; VStr (_rpfx redisHprefix k);
                                VStr p]) (ROk res0))
               (set_store st w)).
Proof.
  intros Hp Hm Hreply Hrest. cbn [rjget]. unfold bind at 1.
  rewrite (rjget_result_spec _ _ _ _ _ _ _ _ Hp Hm Hreply).
  unfold bind at 1.
  destruct (shape_result _ callback res0 _) as [r w2|e w2|w2|]; try reflexivity.
  cbn [ret]. now rewrite rjget_tail_plain.
Qed.

Lemma tokens_no_function rest_args :
  Forall (fun v => option_token v = true) rest_args ->
  forall f more, (take_tokens rest_args).2 <> VFun f :: more.
Proof.
  intros Htok f more E.
  pose proof (Forall_sublist _ _ _ (take_tokens_sublist rest_args) Htok) as H.
  rewrite E in H. apply Forall_cons in H. destruct H as [H _]. discriminate.
Qed.

Lemma rpfx_twice P k :
  String.eqb (substring_to 1 P) "{" = false -> _rpfx P (_rpfx P k) = _rpfx P k.
Proof.
  intros HP. destruct (first_char_cases k) as [[r ->]|Hk].
  - rewrite !_rpfx_brace. now rewrite with_prefix_idem.
  - rewrite (_rpfx_plain P k Hk).
    rewrite _rpfx_plain by now apply with_prefix_plain.
    apply with_prefix_idem.
Qed.

Lemma rjget_result_again k path callback p :
  _rjpath path = Some p ->
  _rpfx redisHprefix (_rpfx redisHprefix k) = _rpfx redisHprefix k ->
  rjget_result (VStr (_rpfx redisHprefix k)) (VStr p) callback []
  = rjget_result (VStr k) path callback [].
Proof.
  intros Hp Hk. unfold rjget_result.
  rewrite (proj1 (_rjpath_fixed path p Hp)), Hp.
  cbn [rpfx_val]. rewrite Hk. reflexivity.
Qed.

Lemma rjget_plain_log fuel k path callback w p :
  _rjpath path = Some p ->
  has_method "call" = true ->
  exists w3,
    world_of (rjget (S fuel) (VStr k) path callback [] w) = Some w3
    /\ log w3
       = log w
         ++ [ESend ("call", [VStr "JSON.GET"; VStr (_rpfx redisHprefix k); VStr p])
                   (store_exec (store w) "call"
                               [VStr "JSON.GET"; VStr (_rpfx redisHprefix k);
                                VStr p]).1].
Proof.
  intros Hp Hm. rewrite rjget_no_rest. unfold bind at 1. unfold rjget_result.
  rewrite Hp. unfold bind at 1. cbn [ret]. unfold bind at 1. cbn [rpfx_val ret].
  unfold bind at 1. rewrite (_rraw_json_get _ _ _ Hm).
  destruct (store_exec (store w) "call" _) as [[e|res0] st] eqn:Hreply;
    cbn [fst snd].
  - unfold bind at 1. cbn [settle throw]. eexists. split; reflexivity.
  - unfold bind at 1. cbn [settle ret]. cbn [take_tokens take_token
                                              index_of_string].
    unfold bind at 1.
    destruct (quiet_shape_result
                {| g_rerun := false; g_keep_array := false;
                   g_empty_array_null := false |} callback res0
                (add_log (ESend ("call", [VStr "JSON.GET";
                                          VStr (_rpfx redisHprefix k); VStr p])
                                (ROk res0)) (set_store st w)))
      as [w3 [H1 H2]].
    destruct (shape_result _ callback res0 _) as [r w4|e w4|w4|];
      cbn [world_of] in H1; try discriminate; injection H1 as ->;
      exists w3; split; try reflexivity; exact H2.
Qed.

Lemma rjget_error fuel k path callback rest_args w p e st :
  _rjpath path = Some p ->
  has_method "call" = true ->
  store_exec (store w) "call"
             [VStr "JSON.GET"; VStr (_rpfx redisHprefix k); VStr p]
  = (RErr e, st) ->
  forall v w', rjget (S fuel) (VStr k) path callback rest_args w <> Ok v w'.
Proof.
  intros Hp Hm Hreply v w'. cbn [rjget]. unfold bind at 1. unfold rjget_result.
  rewrite Hp. unfold bind at 1. cbn [ret]. unfold bind at 1. cbn [rpfx_val ret].
  unfold bind at 1. rewrite (_rraw_json_get _ _ _ Hm). rewrite Hreply.
  cbn [fst snd]. unfold bind at 1. cbn [settle throw]. discriminate.
Qed.

(** C5, where it holds: when the result is null after option handling
    and the first trailing argument that is no option token is a
    function, that function is called with the namespaced key and the
    normalised path.  Without the [rerun] token its result is the
    answer.  With [rerun], and without [keep_array] and
    [empty_array_null], under a prefix that does not begin with a brace,
    its result is dropped and the get -- same key, path and callback,
    no fallback -- is issued again, exactly once: one more request goes
    out, and the answer is the answer to it; when that answer is not
    null it is the answer of the entire call, issued again after the
    function has run. *)
Theorem rjget_fallback (fuel : nat) (k : string) (path callback : value)
  (pre post : list value) (f : closure) (w : World) (p : string)
  (res0 : value) (st : Store) (w1' : World) :
  _rjpath path = Some p ->
  has_method "call" = true ->
  Forall (fun v => option_token v = true) pre ->
  NoDup pre ->
  let rest_args := pre ++ VFun f :: post in
  let rerun := existsb (is_string "rerun") rest_args in
  let keep := existsb (is_string "keep_array") rest_args in
  let ean := existsb (is_string "empty_array_null") rest_args in
  let get := ("call", [VStr "JSON.GET"; VStr (_rpfx redisHprefix k); VStr p]) in
  store_exec (store w) "call" get.2 = (ROk res0, st) ->
  shape_result {| g_rerun := rerun; g_keep_array := keep;
                  g_empty_array_null := ean |} callback res0
               {| store := st; pipes := pipes w; heap := heap w;
                  log := log w ++ [ESend get (ROk res0)] |}
  = Ok VNull w1' ->
  (rerun = false ->
     rjget (S fuel) (VStr k) path callback rest_args w
     = call_fn f [VStr (_rpfx redisHprefix k); VStr p] w1')
  /\ (rerun = true -> keep = false -> ean = false ->
      String.eqb (substring_to 1 redisHprefix) "{" = false ->
      forall produced w2,
        call_fn f [VStr (_rpfx redisHprefix k); VStr p] w1' = Ok produced w2 ->
        rjget (S (S fuel)) (VStr k) path callback rest_args w
        = rjget (S fuel) (VStr k) path callback [] w2
        /\ (exists w3,
             world_of (rjget (S (S fuel)) (VStr k) path callback rest_args w)
             = Some w3
             /\ log w3
                = log w2 ++ [ESend get (store_exec (store w2) "call" get.2).1])
        /\ (forall v w3,
              rjget (S fuel) (VStr k) path callback [] w2 = Ok v w3 ->
              v <> VNull ->
              rjget (S fuel) (VStr k) path callback rest_args w2 = Ok v w3)).
Proof.
  intros Hp Hm Htok Hnd rest_args rerun keep ean get Hreply Hnull.
  destruct (take_tokens_pre pre (VFun f) post eq_refl Htok Hnd)
    as [post' Hrest].
  fold rest_args in Hrest.
  assert (Hstep : forall n,
    rjget (S n) (VStr k) path callback rest_args w
    = (let! produced := call_fn f [VStr (_rpfx redisHprefix k); VStr p] in
       if rerun
       then rjget n (VStr (_rpfx redisHprefix k)) (VStr p) callback []
       else ret produced) w1').
  { intros n. cbn [rjget]. unfold bind at 1.
    rewrite (rjget_result_spec _ _ _ _ _ _ _ _ Hp Hm Hreply).
    rewrite take_tokens_flags, Hrest. fold rerun keep ean.
    unfold bind at 1.
    change (add_log (ESend ("call", [VStr "JSON.GET";
                                     VStr (_rpfx redisHprefix k); VStr p])
                           (ROk res0)) (set_store st w))
      with {| store := st; pipes := pipes w; heap := heap w;
              log := log w ++ [ESend get (ROk res0)] |}.
    rewrite Hnull. reflexivity. }
  split.
  - intros Hr. rewrite Hstep, Hr. unfold bind.
    now destruct (call_fn f _ w1').
  - intros Hr Hkeep Hean HP produced w2 Hcall.
    assert (E : rjget (S (S fuel)) (VStr k) path callback rest_args w
                = rjget (S fuel) (VStr k) path callback [] w2).
    { rewrite Hstep, Hr. unfold bind at 1. rewrite Hcall.
      rewrite !rjget_no_rest.
      now rewrite (rjget_result_again k path callback p Hp
                     (rpfx_twice redisHprefix k HP)). }
    split; [exact E|]. split.
    { rewrite E. apply (rjget_plain_log fuel k path callback w2 p Hp Hm). }
    intros v w3 Hv Hnn.
    destruct (store_exec (store w2) "call"
                [VStr "JSON.GET"; VStr (_rpfx redisHprefix k); VStr p])
      as [[e|res2] st2] eqn:Hr2.
    { now destruct (rjget_error fuel k path callback [] w2 p e st2
                      Hp Hm Hr2 v w3). }
    rewrite (rjget_plain fuel _ _ callback [] _ _ _ _ Hp Hm Hr2
               (tokens_no_function [] (Forall_nil_2 _))) in Hv.
    cbn [rjget]. unfold bind at 1.
    rewrite (rjget_result_spec _ _ _ _ _ _ _ _ Hp Hm Hr2).
    rewrite take_tokens_flags. fold rerun keep ean. rewrite Hkeep, Hean.
    change (shape_result {| g_rerun := rerun; g_keep_array := false;
                            g_empty_array_null := false |} callback res2)
      with (shape_result (take_tokens []).1 callback res2).
    unfold bind at 1. rewrite Hv. cbn [ret g_res].
    destruct v; try reflexivity. now destruct Hnn.
Qed.


(** ** Set drain *)

Lemma even_index_payload pairs :
  forall i, (i mod 2 = 0)%nat ->
            filter_with_index even_index i (zpop_payload pairs)
            = (fun ms => VStr ms.1) <$> pairs.
Proof.
  induction pairs as [|[m s] pairs IH]; intros i Hi; [reflexivity|].
  cbn [zpop_payload flat_map app filter_with_index fst snd].
  unfold even_index at 1 2.
  assert (H1 : (i mod 2 =? 0)%nat = true) by now apply Nat.eqb_eq.
  assert (H2 : (S i mod 2 =? 0)%nat = false).
  { apply Nat.eqb_neq.
    replace (S i) with (1 + i)%nat by lia.
    rewrite <- Nat.Div0.add_mod_idemp_r, Hi. cbn. lia. }
  rewrite H1, H2. cbn [fmap list_fmap]. f_equal.
  apply IH.
  replace (S (S i)) with (2 + i)%nat by lia.
  rewrite <- Nat.Div0.add_mod_idemp_r, Hi. reflexivity.
Qed.

Lemma rr_pop method ks w :
  has_method method = true ->
  dotted method = false ->
  multi_key_method method = false ->
  rr (VStr method) (VStr ks) [VNum 500] w
  = settle (Direct (store_exec (store w) method
                               [VStr (_rpfx redisHprefix ks); VNum 500]).1)
      (add_log (ESend (method, [VStr (_rpfx redisHprefix ks); VNum 500])
                      (store_exec (store w) method
                                  [VStr (_rpfx redisHprefix ks); VNum 500]).1)
               (set_store (store_exec (store w) method
                                      [VStr (_rpfx redisHprefix ks); VNum 500]).2
                          w)).
Proof.
  intros Hm Hdot Hmulti. unfold rr. unfold bind at 1. cbn [rpfx_val ret].
  change (last_arg [VNum 500]) with (Some (VNum 500)). cbv iota beta.
  unfold bind. unfold _redis_call_spread. cbn [head tail default].
  unfold _redis_call. unfold dotted in Hdot. rewrite Hdot.
  cbn [length Nat.ltb Nat.leb id]. rewrite Hmulti, andb_false_r.
  unfold bind. cbn [ret].
  change (_rexec [VNum 500]) with (TClient, [VNum 500]). cbv iota beta.
  unfold invoke. rewrite Hm. unfold transmit.
  change (split_callback (method, [VStr (_rpfx redisHprefix ks); VNum 500]).2)
    with ([VStr (_rpfx redisHprefix ks); VNum 500], @None closure).
  change (split_callback [VStr (_rpfx redisHprefix ks); VNum 500])
    with ([VStr (_rpfx redisHprefix ks); VNum 500], @None closure).
  cbn [fst snd].
  destruct (store_exec (store w) method _) as [r st]. reflexivity.
Qed.

Lemma drain_target_string ptn m w :
  (truthy ptn = false \/ exists p, ptn = VStr p) ->
  drain_target ptn (VStr m) w = Ok (VStr (drain_key ptn m)) w.
Proof.
  intros [Hf|[p ->]]; unfold drain_target, drain_key.
  - rewrite Hf. now destruct ptn.
  - destruct (truthy (VStr p)); reflexivity.
Qed.

Lemma alloc_dels ptn members :
  (truthy ptn = false \/ exists p, ptn = VStr p) ->
  forall w,
    map_m (del_descriptor ptn) ((fun ms => VStr ms) <$> members) w
    = Ok (seq (length (heap w)) (length members))
         (set_heap (heap w ++ ((fun m => descriptor_array (del_desc (drain_key ptn m)))
                                 <$> members)) w).
Proof.
  intros Hptn. induction members as [|m members IH]; intros w.
  - cbn. unfold ret, set_heap. rewrite app_nil_r. now destruct w.
  - cbn [fmap list_fmap map_m]. unfold bind at 1. unfold del_descriptor at 1.
    unfold bind at 1. rewrite (drain_target_string _ _ _ Hptn).
    unfold alloc. unfold bind at 1.
    change (list_fmap _ _ ?f ?l) with (f <$> l). rewrite IH.
    cbn [ret heap set_heap length seq]. f_equal.
    + rewrite length_app. cbn. now rewrite Nat.add_1_r.
    + unfold set_heap. cbn. f_equal. now rewrite <- app_assoc.
Qed.

Lemma fresh_descriptors ds :
  forall h : list (list value),
    Forall2 (fun l d => (h ++ (descriptor_array <$> ds)) !! l
                        = Some (descriptor_array d))
            (seq (length h) (length ds)) ds.
Proof.
  induction ds as [|d ds IH]; intros h; [constructor|].
  cbn [length seq fmap list_fmap]. constructor.
  - rewrite lookup_app_r by lia. now rewrite Nat.sub_diag.
  - specialize (IH (h ++ [descriptor_array d])).
    rewrite length_app in IH. cbn [length] in IH.
    rewrite Nat.add_1_r in IH. rewrite <- app_assoc in IH. exact IH.
Qed.

Lemma rpipemulti_plain commands ds w :
  NoDup commands ->
  Forall2 (fun l d => heap w !! l = Some (descriptor_array d)) commands ds ->
  Forall dispatchable ds ->
  exists h',
    rpipemulti commands VUndef VUndef w
    = Ok (VArr (reply_pair <$> (transmit_all (queued_command <$> ds) (store w)).1))
         (after_batch Pipeline (queued_command <$> ds)
                      (transmit_all (queued_command <$> ds) (store w)).1
                      (transmit_all (queued_command <$> ds) (store w)).2 h' w).
Proof.
  intros Hnd Hall Hok. unfold rpipemulti. cbn [truthy andb].
  destruct (enqueue_all_fresh Pipeline commands ds w Hnd Hall Hok)
    as (h' & Hrun & _).
  exists h'. now rewrite (batch_run Pipeline commands _ w _ h' Hrun).
Qed.

Lemma queued_del k :
  queued_command (del_desc k) = ("del", [VStr (_rpfx redisHprefix k)]).
Proof.
  unfold queued_command, wire_command, del_desc. cbn [d_method d_key d_args].
  change (dotted "del") with false. cbv iota.
  now destruct (_ && _).
Qed.

Lemma del_dispatchable k : has_method "del" = true -> dispatchable (del_desc k).
Proof. intros H. exact H. Qed.

(** C9: one round of the drain of a sorted collection asks [zpopmin] for
    up to 500 elements of the namespaced collection; when the reply is
    not a non-empty array the drain stops; when it is an alternating
    member/score payload, the round executes one batch holding one [del]
    per member -- none for a score -- and the drain goes on with the next
    pop. *)
Theorem drain_sorted_round (fuel : nat) (ks : string) (ptn : value)
  (w : World) :
  has_method "zpopmin" = true ->
  has_method "del" = true ->
  (truthy ptn = false \/ exists p, ptn = VStr p) ->
  let pop := ("zpopmin", [VStr (_rpfx redisHprefix ks); VNum 500]) in
  let r := (store_exec (store w) "zpopmin" pop.2).1 in
  let w1 := add_log (ESend pop r)
                    (set_store (store_exec (store w) "zpopmin" pop.2).2 w) in
  (forall v, r = ROk v -> nonempty_array v = false ->
     rdel_from_set (S fuel) (VStr ks) true ptn w = Ok VUndef w1)
  /\ (forall pairs, r = ROk (VArr (zpop_payload pairs)) -> pairs <> [] ->
      exists w2 rs,
        rdel_from_set (S fuel) (VStr ks) true ptn w
        = rdel_from_set fuel (VStr ks) true ptn w2
        /\ log w2
           = log w
             ++ [ESend pop r;
                 EExec (length (pipes w)) Pipeline
                       ((fun ms => ("del", [VStr (_rpfx redisHprefix
                                                        (drain_key ptn ms.1))]))
                          <$> pairs)
                       rs]
        /\ length rs = length pairs).
Proof.
  intros Hpop Hdel Hptn pop r w1.
  assert (Hrr : rr (VStr "zpopmin") (VStr ks) [VNum 500] w = settle (Direct r) w1).
  { apply rr_pop; [assumption|reflexivity|reflexivity]. }
  split.
  - intros v Hr Hbad. cbn [rdel_from_set]. unfold bind. rewrite Hrr, Hr.
    cbn [settle ret].
    destruct v as [| | | | | |[|x xs]| | | |]; try reflexivity; discriminate.
  - intros pairs Hr Hne.
    set (members := fst <$> pairs).
    set (ds := (fun m => del_desc (drain_key ptn m)) <$> members).
    set (w2 := set_heap (heap w1 ++ (descriptor_array <$> ds)) w1).
    assert (Hds : Forall dispatchable ds).
    { apply Forall_fmap, Forall_forall. intros m _. now apply del_dispatchable. }
    destruct (rpipemulti_plain (seq (length (heap w1)) (length ds)) ds w2)
      as [h' Hbatch].
    { apply NoDup_seq. }
    { apply fresh_descriptors. }
    { exact Hds. }
    set (cs := queued_command <$> ds) in *.
    set (rs := (transmit_all cs (store w2)).1) in *.
    exists (after_batch Pipeline cs rs (transmit_all cs (store w2)).2 h' w2), rs.
    split; [|split].
    + cbn [rdel_from_set]. unfold bind at 1. rewrite Hrr, Hr. cbn [settle ret].
      destruct pairs as [|[m s] pairs']; [contradiction|].
      change (zpop_payload ((m, s) :: pairs'))
        with (VStr m :: s :: zpop_payload pairs').
      cbv iota beta.
      change (VStr m :: s :: zpop_payload pairs')
        with (zpop_payload ((m, s) :: pairs')).
      rewrite even_index_payload by reflexivity.
      replace ((fun ms : string * value => VStr ms.1) <$> (m, s) :: pairs')
        with ((fun ms => VStr ms) <$> members)
        by (unfold members; now rewrite <- list_fmap_compose).
      unfold bind at 1. rewrite (alloc_dels ptn members Hptn w1).
      replace ((fun m0 => descriptor_array (del_desc (drain_key ptn m0)))
                 <$> members)
        with (descriptor_array <$> ds)
        by (unfold ds; now rewrite <- list_fmap_compose).
      fold w2.
      replace (length members) with (length ds)
        by (unfold ds; now rewrite length_fmap).
      unfold bind at 1. rewrite Hbatch. reflexivity.
    + cbn [log after_batch]. unfold w2, w1. cbn [log set_heap add_log set_store pipes].
      rewrite <- app_assoc. cbn [app].
      assert (Ecs : cs = (fun ms : string * value =>
                            ("del", [VStr (_rpfx redisHprefix
                                                 (drain_key ptn ms.1))]))
                           <$> pairs).
      { unfold cs, ds, members. rewrite <- !list_fmap_compose.
        apply list_fmap_ext. intros i [m s] _. cbn. apply queued_del. }
      now rewrite Ecs.
    + unfold rs. rewrite transmit_all_length. unfold cs, ds, members.
      now rewrite !length_fmap.
Qed.

(** * Further properties *)

(** ** Key namespacer and path normalisation *)

Lemma with_prefix_prefixed P b : String.prefix P (with_prefix P b) = true.
Proof.
  unfold with_prefix. destruct (String.prefix P b) eqn:E; [exact E|].
  apply prefix_refl_app.
Qed.

(** X1: with the empty prefix -- the default when none is configured --
    namespacing leaves every key as it is, tagged or not. *)
Theorem rpfx_empty_prefix (k : string) : _rpfx "" k = k.
Proof.
  destruct (first_char_cases k) as [[r ->]|Hk].
  - rewrite _rpfx_brace. unfold with_prefix. now rewrite prefix_empty.
  - rewrite (_rpfx_plain "" k Hk). unfold with_prefix. now rewrite prefix_empty.
Qed.

(** X2: a namespaced key always carries the prefix: directly at its
    start, or directly after the opening brace when the key began with
    one. *)
Theorem rpfx_carries_prefix (P k : string) :
  String.prefix P (if String.eqb (substring_to 1 k) "{"
                   then substring_from 1 (_rpfx P k)
                   else _rpfx P k) = true.
Proof.
  destruct (first_char_cases k) as [[r ->]|Hk].
  - rewrite substring_to_1_cons. change (String.eqb "{" "{") with true.
    cbv iota. rewrite _rpfx_brace, substring_from_1_cons.
    apply with_prefix_prefixed.
  - rewrite Hk, (_rpfx_plain P k Hk). apply with_prefix_prefixed.
Qed.

(** X3: a normalised path is the root marker or begins with [$.], and
    normalising it again changes nothing. *)
Theorem rjpath_idempotent (path : value) (p : string) :
  _rjpath path = Some p ->
  _rjpath (VStr p) = Some p
  /\ (p = "$" \/ substring_to 2 p = "$.").
Proof. apply _rjpath_fixed. Qed.

(** ** Direct dispatch and dispatch into a Batch Context *)


(** X5: a command dispatched with a Batch Context as its last argument
    is queued there and nothing is sent: the store and the request log
    are as before, and the call returns the Batch Context. *)
Theorem rr_queued (m k : string) (args : list value) (p : nat) (w : World) :
  has_method (wire_method m) = true ->
  exists w',
    rr (VStr m) (VStr k) (args ++ [VPipe p]) w = Ok (VPipe p) w'
    /\ store w' = store w
    /\ log w' = log w
    /\ heap w' = heap w
    /\ pipes w'
       = alter (push_command (wire_command m (_rpfx redisHprefix k) args))
               p (pipes w).
Proof.
  intros Hm.
  exists (set_pipes
            (alter (push_command (wire_command m (_rpfx redisHprefix k) args))
                   p (pipes w)) w).
  split; [|repeat split].
  rewrite rr_plain by (intros f; rewrite last_arg_snoc; discriminate).
  unfold bind. rewrite (_redis_call_queued _ _ _ _ _ Hm). reflexivity.
Qed.

Lemma _rraw_args_other m l :
  (indexOf m "JSON." =? 0) = false -> _rraw_args m l = l.
Proof.
  intros H. unfold _rraw_args. rewrite H. cbn [andb].
  destruct (String.eqb_spec m "JSON.ARRINSERT") as [->|_]; [discriminate|].
  reflexivity.
Qed.

Lemma rr_module m k args w :
  dotted m = true ->
  has_method "call" = true ->
  ends_plain args = true ->
  is_function (default VUndef (last_arg (_rraw_args m (VStr (_rpfx redisHprefix k) :: args))))
  = false ->
  rr (VStr m) (VStr k) args w
  = sends ("call", VStr m :: _rraw_args m (VStr (_rpfx redisHprefix k) :: args)) w.
Proof.
  intros Hdot Hm Hp Hs.
  rewrite (rr_plain _ _ _ _ (ends_plain_no_callback _ Hp)).
  unfold bind at 1, _redis_call. unfold dotted in Hdot. rewrite Hdot.
  unfold _rraw. rewrite _rexec_plain.
  2:{ apply ends_plain_cons; [assumption|reflexivity|]. intros p. discriminate. }
  rewrite invoke_client; [reflexivity|assumption|].
  unfold split_callback. rewrite last_arg_cons.
  destruct (_rraw_args m (VStr (_rpfx redisHprefix k) :: args)) as [|a l] eqn:E;
    [reflexivity|].
  rewrite <- E in *. cbn [default] in Hs.
  destruct (last_arg (_rraw_args m (VStr (_rpfx redisHprefix k) :: args)))
    as [[]|]; try reflexivity. discriminate.
Qed.

(** X6: module commands go out through [call] with the namespaced key.
    [JSON.SET] has its value JSON-encoded; [JSON.ARRINSERT], given value
    then index, has the value encoded and is sent with the index before
    the value; a module command whose name does not begin with [JSON.]
    is sent with its arguments unchanged. *)
Theorem rr_module_encoding (k : string) (path v : value) (n : Z) (w : World) :
  has_method "call" = true ->
  is_function v = false ->
  (forall p, v <> VPipe p) ->
  is_function (JSON_stringify v) = false ->
  rr (VStr "JSON.SET") (VStr k) [path; v] w
  = sends ("call", [VStr "JSON.SET"; VStr (_rpfx redisHprefix k); path;
                    JSON_stringify v]) w
  /\ rr (VStr "JSON.ARRINSERT") (VStr k) [path; v; VNum n] w
     = sends ("call", [VStr "JSON.ARRINSERT"; VStr (_rpfx redisHprefix k);
                       path; VNum n; JSON_stringify v]) w
  /\ (forall m args,
        dotted m = true -> (indexOf m "JSON." =? 0) = false ->
        ends_plain args = true ->
        rr (VStr m) (VStr k) args w
        = sends ("call", VStr m :: VStr (_rpfx redisHprefix k) :: args) w).
Proof.
  intros Hm Hv Hp Hs.
  assert (E1 : _rraw_args "JSON.SET" [VStr (_rpfx redisHprefix k); path; v]
               = [VStr (_rpfx redisHprefix k); path; JSON_stringify v]).
  { destruct v; try discriminate; reflexivity. }
  assert (E2 : _rraw_args "JSON.ARRINSERT"
                 [VStr (_rpfx redisHprefix k); path; v; VNum n]
               = [VStr (_rpfx redisHprefix k); path; VNum n; JSON_stringify v]).
  { destruct v; try discriminate; reflexivity. }
  split; [|split].
  - rewrite rr_module; try reflexivity; try assumption.
    + now rewrite E1.
    + unfold ends_plain. change (last_arg [path; v]) with (Some v).
      destruct v; try reflexivity; [discriminate|]. now destruct (Hp p).
    + rewrite E1. exact Hs.
  - rewrite rr_module; try reflexivity; try assumption.
    + now rewrite E2.
    + rewrite E2. exact Hs.
  - intros m args Hdot Hj Hargs.
    rewrite rr_module; try assumption.
    + now rewrite _rraw_args_other.
    + rewrite _rraw_args_other by assumption. rewrite last_arg_cons.
      destruct args as [|a args]; [reflexivity|].
      unfold ends_plain in Hargs.
      destruct (last_arg (a :: args)) as [[]|]; try reflexivity. discriminate.
Qed.

(** ** Batch executor *)

Lemma batch_mode arg2 :
  (if truthy arg2 && negb (is_function arg2) && is_string "t" arg2
   then Multi else Pipeline)
  = if is_string "t" arg2 then Multi else Pipeline.
Proof.
  destruct arg2 as [| |b|n| |s|l|f|p|e|i]; cbn [is_string];
    rewrite ?andb_false_r; try reflexivity.
  destruct (String.eqb_spec s "t") as [->|_]; [reflexivity|].
  now rewrite andb_false_r.
Qed.

(** X7: for a batch of M descriptors that hold a known method and a
    string key, [rpipemulti] makes one round trip and returns M reply
    arrays in submission order, [[null, result]] for a command that
    succeeded and [[error]] for one that failed; the batch is a
    transaction exactly when [arg2] is the string [t], and a pipeline
    otherwise. *)
Theorem rpipemulti_pairs (commands : list nat) (arg2 cb : value) (w : World) :
  Forall (holds_descriptor w) commands ->
  exists cs rs w',
    rpipemulti commands arg2 cb w = Ok (VArr (reply_pair <$> rs)) w'
    /\ length rs = length commands
    /\ Forall2 (fun l c => exists d, heap w !! l = Some (descriptor_array d)
                                     /\ c.1 = wire_method (d_method d))
               commands cs
    /\ (transmit_all cs (store w)).1 = rs
    /\ log w'
       = log w ++ [EExec (length (pipes w))
                         (if is_string "t" arg2 then Multi else Pipeline)
                         cs rs].
Proof.
  intros Hall. unfold rpipemulti. rewrite batch_mode.
  set (md := if is_string "t" arg2 then Multi else Pipeline).
  destruct (enqueue_all_count (length (pipes w)) commands
              (set_pipes (pipes w ++ [{| p_mode := md; p_queue := [] |}]) w)
              Hall) as (cs & h' & Hrun & Hcs).
  rewrite (batch_run md commands _ w cs h' Hrun).
  pose proof (transmit_all_length cs (store w)) as Hlen.
  exists cs, (transmit_all cs (store w)).1.
  assert (Hrs : length (transmit_all cs (store w)).1 = length commands).
  { rewrite Hlen. symmetry. eapply Forall2_length. exact Hcs. }
  match goal with |- context [if ?c then _ else _] => destruct c end.
  - unfold bind, notify.
    match goal with |- context [match ?c with VFun _ => _ | _ => _ end] =>
      destruct c as [| | | | | | |[id|]| | |] end;
      eexists; (split; [reflexivity|]); repeat split; assumption.
  - eexists. split; [reflexivity|]. repeat split; assumption.
Qed.

(** X8: a descriptor that holds nothing but the name of a standard
    method is not queued: the method is run at once on the connection
    with the Batch Context as its only argument, and the batch itself
    is executed empty, so that [rpipemulti2array] returns no result for
    it. *)
Theorem method_only_descriptor (l : nat) (m : string) (w : World) :
  heap w !! l = Some [VStr m] ->
  dotted m = false ->
  has_method m = true ->
  let p := length (pipes w) in
  let r := (store_exec (store w) m [VPipe p]).1 in
  exists w',
    rpipemulti2array [l] w = Ok (VArr []) w'
    /\ log w' = log w ++ [ESend (m, [VPipe p]) r; EExec p Pipeline [] []]
    /\ heap w' !! l = Some [VStr m; VPipe p].
Proof.
  intros Hl Hdot Hm p r.
  unfold rpipemulti2array. unfold bind at 1. unfold new_pipe.
  unfold bind at 1. cbn [for_each]. unfold bind at 1.
  assert (E : enqueue_descriptor p l
                (set_pipes (pipes w ++ [{| p_mode := Pipeline; p_queue := [] |}]) w)
              = Ok tt
                   (add_log (ESend (m, [VPipe p]) r)
                      (set_store (store_exec (store w) m [VPipe p]).2
                         (set_heap (<[l := [VStr m; VPipe p]]> (heap w))
                            (set_pipes (pipes w ++ [{| p_mode := Pipeline;
                                                       p_queue := [] |}]) w))))).
  { unfold enqueue_descriptor, bind, read_heap. cbn [heap set_pipes]. rewrite Hl.
    cbn [length Nat.ltb Nat.leb ret app]. unfold write_heap.
    unfold _redis_call_spread. cbn [head tail default].
    unfold _redis_call. unfold dotted in Hdot. rewrite Hdot.
    cbn [negb length Nat.ltb Nat.leb]. unfold bind, ret.
    change (_rexec []) with (TClient, @nil value). cbv iota beta.
    rewrite invoke_client; [reflexivity|assumption|reflexivity]. }
  fold p. rewrite E. unfold ret at 1. unfold bind, pipe_exec.
  cbn [pipes add_log set_store set_heap set_pipes].
  rewrite lookup_app_r by (unfold p; lia). unfold p. rewrite Nat.sub_diag.
  cbn [lookup list_lookup p_queue transmit_all fmap list_fmap].
  eexists. split; [reflexivity|]. split.
  - cbn [log add_log set_store set_heap set_pipes]. now rewrite <- app_assoc.
  - cbn [heap add_log set_store set_heap set_pipes].
    apply list_lookup_insert_eq. eapply lookup_lt_Some. eassumption.
Qed.

(** ** Scan iterator: full runs and callback order *)

Lemma consume_round_accumulate func opts keys items w :
  o_return opts = true ->
  consume_round func None opts keys [VArr items] w = Ok (keys ++ items) w.
Proof.
  intros Hr. unfold consume_round. destruct items as [|x xs].
  - now rewrite app_nil_r.
  - now rewrite Hr.
Qed.

Lemma scan_loop_accumulates (func : string) (opts : scan_opts)
  (script : list (value * list value)) (st' : Store) :
  forall (params : list value) (i : value) (keys : list value) (w : World),
    scan_rounds func params (store w) script st' ->
    has_method func = true ->
    o_return opts = true ->
    o_one opts = false ->
    scan_loop (length script) func None opts params i keys w
    = Ok (scan_result opts (parseInt (default VUndef (fst <$> last script)))
                      (keys ++ concat (snd <$> script)))
         {| store := st'; pipes := pipes w; heap := heap w;
            log := log w ++ scan_events func params script |}.
Proof.
  intros params i keys w Hplay Hm Hret Hone.
  remember (store w) as st eqn:Est.
  revert i keys w Est.
  induction Hplay as [params st r0 items st' Hex Hstop
                     |params st r0 items st1 script st' Hex Hgo Hrest IH];
    intros i keys w ->.
  - cbn [length scan_loop]. unfold bind at 1.
    rewrite (scan_round_spec _ _ _ Hm), Hex. cbn [fst snd reply_res].
    unfold bind. rewrite (consume_round_accumulate _ _ _ _ _ Hret).
    rewrite Hstop. cbn [negb orb ret]. cbn. now rewrite app_nil_r.
  - cbn [length scan_loop]. unfold bind at 1.
    rewrite (scan_round_spec _ _ _ Hm), Hex. cbn [fst snd reply_res].
    unfold bind. rewrite (consume_round_accumulate _ _ _ _ _ Hret).
    rewrite Hgo, Hone. cbn [negb orb].
    fold (cursor_index func).
    rewrite IH by reflexivity.
    f_equal.
    + f_equal.
      * destruct script as [|s script]; [inversion Hrest|reflexivity].
      * cbn. now rewrite <- app_assoc.
    + cbn. now rewrite <- app_assoc.
Qed.

(** X9: a full scan in accumulate mode (no callback, [return] set,
    [one] not set) over a store that answers the rounds of [script]
    makes one request per round, the first with the cursor of the
    options and each further one with the cursor of the round before,
    and returns the items of all rounds, in order, each once -- after
    the last cursor when [return_cursor] is set. *)
Theorem scan_accumulates_all (ptn cbv hkey : value) (opts : scan_opts)
  (request : command) (script : list (value * list value)) (st' : Store)
  (w : World) :
  scan_request opts ptn hkey request ->
  is_function cbv = false ->
  has_method request.1 = true ->
  o_return opts = true ->
  o_one opts = false ->
  let keys := concat (snd <$> script) in
  scan_rounds request.1 request.2 (store w) script st' ->
  rscan (length script) ptn cbv hkey (Some opts) w
  = Ok (if o_return_cursor opts
        then VArr [parseInt (default VUndef (fst <$> last script)); VArr keys]
        else VArr keys)
       {| store := st'; pipes := pipes w; heap := heap w;
          log := log w ++ scan_events request.1 request.2 script |}.
Proof.
  intros Hreq Hcb Hm Hret Hone keys Hplay.
  rewrite (rscan_start _ _ _ _ _ _ _ Hreq).
  replace (match cbv with VFun f => Some f | _ => None end)
    with (@None closure) by (now destruct cbv).
  exact (scan_loop_accumulates request.1 opts script st' request.2 _ [] w
           Hplay Hm Hret Hone).
Qed.





(** ** Document path accessor: failures, unusable fallbacks, rerun *)

Lemma rjget_result_error k path callback rest_args w p e st :
  _rjpath path = Some p ->
  has_method "call" = true ->
  store_exec (store w) "call"
             [VStr "JSON.GET"; VStr (_rpfx redisHprefix k); VStr p]
  = (RErr e, st) ->
  rjget_result (VStr k) path callback rest_args w
  = Throw (VErr e)
      (add_log (ESend ("call", [VStr "JSON.GET"; VStr (_rpfx redisHprefix k);
                                VStr p]) (RErr e))
               (set_store st w)).
Proof.
  intros Hp Hm Hreply. unfold rjget_result. rewrite Hp.
  unfold bind at 1. cbn [ret]. unfold bind at 1. cbn [rpfx_val ret].
  unfold bind at 1. rewrite (_rraw_json_get _ _ _ Hm). rewrite Hreply.
  reflexivity.
Qed.

(** X11: a failed read is a failure of the get, and the fallback is not
    consulted: an error reply of the store rejects with that error, and
    a textual reply that is not valid JSON rejects with the decoding
    error, whatever the trailing arguments are. *)
Theorem rjget_failures (fuel : nat) (k : string) (path callback : value)
  (rest_args : list value) (w : World) (p : string) :
  _rjpath path = Some p ->
  has_method "call" = true ->
  let get := ("call", [VStr "JSON.GET"; VStr (_rpfx redisHprefix k); VStr p]) in
  (forall e st,
      store_exec (store w) "call" get.2 = (RErr e, st) ->
      rjget (S fuel) (VStr k) path callback rest_args w
      = Throw (VErr e) (add_log (ESend get (RErr e)) (set_store st w)))
  /\ (forall s st,
      store_exec (store w) "call" get.2 = (ROk (VStr s), st) ->
      JSON_parse s = None ->
      rjget (S fuel) (VStr k) path callback rest_args w
      = Throw (VErr "SyntaxError")
              (add_log (ESend get (ROk (VStr s))) (set_store st w))).
Proof.
  intros Hp Hm get. split.
  - intros e st Hreply. cbn [rjget]. unfold bind.
    now rewrite (rjget_result_error _ _ _ _ _ _ _ _ Hp Hm Hreply).
  - intros s st Hreply Hs. cbn [rjget]. unfold bind at 1.
    rewrite (rjget_result_spec _ _ _ _ _ _ _ _ Hp Hm Hreply).
    unfold bind, shape_result. cbn [is_null negb parseJson]. now rewrite Hs.
Qed.

(** X12: when the key is missing and the first trailing argument that
    is no option token is not a function, the get returns null and
    calls nothing, even when a function follows further on. *)
Theorem rjget_unusable_fallback (fuel : nat) (k : string)
  (path callback : value) (pre more : list value) (v : value) (w : World)
  (p : string) (st : Store) :
  _rjpath path = Some p ->
  has_method "call" = true ->
  Forall (fun a => option_token a = true) pre ->
  NoDup pre ->
  option_token v = false ->
  is_function v = false ->
  let get := ("call", [VStr "JSON.GET"; VStr (_rpfx redisHprefix k); VStr p]) in
  store_exec (store w) "call" get.2 = (ROk VNull, st) ->
  rjget (S fuel) (VStr k) path callback (pre ++ v :: more) w
  = Ok VNull {| store := st; pipes := pipes w; heap := heap w;
                log := log w ++ [ESend get (ROk VNull)] |}.
Proof.
  intros Hp Hm Htok Hnd Hv Hf get Hreply.
  destruct (take_tokens_pre pre v more Hv Htok Hnd) as [more' Hrest].
  cbn [rjget]. unfold bind at 1.
  rewrite (rjget_result_spec _ _ _ _ _ _ _ _ Hp Hm Hreply).
  unfold bind at 1. cbn [shape_result is_null negb ret].
  rewrite Hrest. cbn [g_res g_rest is_null negb length Nat.eqb orb].
  destruct v; try reflexivity. discriminate.
Qed.

(** X13: the get issued again after [rerun] carries no option token: its
    answer is shaped as by a get without options, whatever tokens the
    first call was given, and it reads the key namespaced a second time. *)
Theorem rjget_rerun_forgets_options (fuel : nat) (k : string)
  (path callback : value) (pre post : list value) (w : World) (p : string)
  (st : Store) (f : closure) (produced res1 : value)
  (w2 : World) (st2 : Store) :
  _rjpath path = Some p ->
  has_method "call" = true ->
  Forall (fun a => option_token a = true) pre ->
  NoDup pre ->
  existsb (is_string "rerun") pre = true ->
  let k1 := _rpfx redisHprefix k in
  let k2 := _rpfx redisHprefix k1 in
  let w1 := {| store := st; pipes := pipes w; heap := heap w;
               log := log w ++ [ESend ("call", [VStr "JSON.GET"; VStr k1; VStr p])
                                      (ROk VNull)] |} in
  store_exec (store w) "call" [VStr "JSON.GET"; VStr k1; VStr p]
  = (ROk VNull, st) ->
  call_fn f [VStr k1; VStr p] w1 = Ok produced w2 ->
  store_exec (store w2) "call" [VStr "JSON.GET"; VStr k2; VStr p]
  = (ROk res1, st2) ->
  rjget (S (S fuel)) (VStr k) path callback (pre ++ VFun f :: post) w
  = shape_result no_get_opts callback res1
      {| store := st2; pipes := pipes w2; heap := heap w2;
         log := log w2 ++ [ESend ("call", [VStr "JSON.GET"; VStr k2; VStr p])
                                 (ROk res1)] |}.
Proof.
  intros Hp Hm Htok Hnd Hre k1 k2 w1 Hreply Hf Hreply2.
  destruct (take_tokens_pre pre (VFun f) post eq_refl Htok Hnd)
    as [post' Hrest].
  assert (Hrerun : g_rerun (take_tokens (pre ++ VFun f :: post)).1 = true).
  { rewrite take_tokens_flags. cbn [g_rerun]. rewrite existsb_app, Hre.
    reflexivity. }
  cbn [rjget]. unfold bind at 1.
  rewrite (rjget_result_spec _ _ _ _ _ _ _ _ Hp Hm Hreply).
  unfold bind at 1. cbn [shape_result is_null negb ret]. fold k1.
  change (add_log (ESend ("call", [VStr "JSON.GET"; VStr k1; VStr p])
                         (ROk VNull)) (set_store st w)) with w1.
  rewrite Hrest. cbn [g_res g_rest g_hkey g_path g_opts is_null negb length
                      Nat.eqb orb].
  unfold bind at 1. rewrite Hf. rewrite Hrerun.
  destruct (_rjpath_fixed _ _ Hp) as [Hp2 _].
  unfold bind at 1.
  rewrite (rjget_result_spec _ _ _ _ _ _ _ _ Hp2 Hm Hreply2).
  fold k2. change (take_tokens []) with (no_get_opts, @nil value).
  cbn [fst snd]. unfold bind.
  change (add_log (ESend ("call", [VStr "JSON.GET"; VStr k2; VStr p])
                         (ROk res1)) (set_store st2 w2))
    with {| store := st2; pipes := pipes w2; heap := heap w2;
            log := log w2 ++ [ESend ("call", [VStr "JSON.GET"; VStr k2; VStr p])
                                    (ROk res1)] |}.
  destruct (shape_result no_get_opts callback res1 _); try reflexivity.
  cbn. now rewrite orb_true_r.
Qed.

(** ** Set drain: the key of a deletion, full runs, failures *)

Lemma index_star_none_head c s :
  String.index 0 "*" (String c s) = None ->
  c <> "*"%char /\ String.index 0 "*" s = None.
Proof.
  cbn [String.index String.prefix]. destruct (ascii_dec "*" c) as [<-|Hne].
  - now destruct s.
  - destruct (String.index 0 "*" s); [discriminate|]. intros _. split; congruence.
Qed.

Lemma index_star_app a b :
  String.index 0 "*" a = None ->
  String.index 0 "*" (a +:+ "*" +:+ b) = Some (String.length a).
Proof.
  induction a as [|c a IH]; intros H.
  - cbn. now destruct b.
  - destruct (index_star_none_head _ _ H) as [Hc Ha].
    change (String c a +:+ "*" +:+ b) with (String c (a +:+ "*" +:+ b)).
    cbn [String.index String.prefix].
    destruct (ascii_dec "*" c) as [<-|_]; [contradiction|].
    rewrite (IH Ha). reflexivity.
Qed.

Lemma index_star_app_none p :
  String.index 0 "*" p = None -> js_replace p "*" = fun _ => p.
Proof. intros H. unfold js_replace. now rewrite H. Qed.

Lemma substring_app_length a b :
  String.substring 0 (String.length a) (a +:+ b) = a.
Proof.
  induction a as [|c a IH].
  - now destruct b.
  - change (String c a +:+ b) with (String c (a +:+ b)).
    cbn [String.length String.substring]. now rewrite IH.
Qed.

Lemma substring_full b : String.substring 0 (String.length b) b = b.
Proof.
  induction b as [|d b IH]; cbn [String.length String.substring];
    [reflexivity|now rewrite IH].
Qed.

Lemma substring_from_app a b :
  substring_from (String.length a) (a +:+ b) = b.
Proof.
  unfold substring_from. induction a as [|c a IH].
  - change ("" +:+ b) with b. cbn [String.length]. rewrite Nat.sub_0_r.
    apply substring_full.
  - change (String c a +:+ b) with (String c (a +:+ b)).
    cbn [String.length]. rewrite Nat.sub_succ. cbn [String.substring].
    exact IH.
Qed.

Lemma get_substitution_plain matched before after m :
  String.index 0 "$" m = None ->
  get_substitution matched before after m = m.
Proof.
  induction m as [|c m IH]; intros H; [reflexivity|].
  cbn [String.index String.prefix] in H. destruct (ascii_dec "$" c) as [<-|Hne].
  - now destruct m.
  - cbn [get_substitution].
    destruct (Ascii.eqb_spec c "$") as [->|_]; [contradiction|].
    rewrite IH; [reflexivity|].
    now destruct (String.index 0 "$" m).
Qed.

Lemma js_replace_star a b m :
  String.index 0 "*" a = None ->
  String.index 0 "$" m = None ->
  js_replace (a +:+ "*" +:+ b) "*" m = a +:+ m +:+ b.
Proof.
  intros Ha Hm. unfold js_replace. rewrite (index_star_app _ _ Ha).
  cbv zeta. rewrite substring_app_length.
  rewrite (get_substitution_plain _ _ _ _ Hm).
  replace (String.length a + String.length "*")%nat
    with (String.length (a +:+ "*")) by apply string_length_app.
  rewrite <- (string_app_assoc a "*" b), substring_from_app.
  reflexivity.
Qed.

(** X14: the key a drain deletes for a member.  With a pattern that
    holds a wildcard, the first wildcard is replaced by the member (a
    member free of dollar signs goes in as it is); with a pattern that
    holds none, every member gives the pattern itself; without pattern
    the member is the key. *)
Theorem drain_target_substitution (m : string) (w : World) :
  (forall a b,
      String.index 0 "*" a = None -> String.index 0 "$" m = None ->
      drain_target (VStr (a +:+ "*" +:+ b)) (VStr m) w
      = Ok (VStr (a +:+ m +:+ b)) w)
  /\ (forall p,
      String.index 0 "*" p = None -> p <> "" ->
      drain_target (VStr p) (VStr m) w = Ok (VStr p) w)
  /\ (forall ptn, truthy ptn = false ->
      drain_target ptn (VStr m) w = Ok (VStr m) w).
Proof.
  split; [|split].
  - intros a b Ha Hm. unfold drain_target.
    replace (truthy (VStr (a +:+ "*" +:+ b))) with true.
    + cbn [js_string_of ret]. now rewrite js_replace_star.
    + symmetry. cbn [truthy]. apply negb_true_iff, String.eqb_neq.
      destruct a; discriminate.
  - intros p Hp Hne. unfold drain_target.
    replace (truthy (VStr p)) with true.
    + cbn [js_string_of ret]. now rewrite index_star_app_none.
    + symmetry. cbn [truthy]. now apply negb_true_iff, String.eqb_neq.
  - intros ptn Hf. unfold drain_target. now rewrite Hf.
Qed.

Lemma pop_method_plain (is_sorted : bool) :
  dotted (if is_sorted then "zpopmin" else "spop") = false
  /\ multi_key_method (if is_sorted then "zpopmin" else "spop") = false.
Proof. now destruct is_sorted. Qed.

Lemma drain_pop fuel ks is_sorted ptn w :
  has_method (pop_command is_sorted ks).1 = true ->
  rdel_from_set (S fuel) (VStr ks) is_sorted ptn w
  = (let! _keys := sends (pop_command is_sorted ks) in
     match _keys with
     | VArr (k :: ks') =>
         let! commands := map_m (del_descriptor ptn) (drained is_sorted (k :: ks')) in
         do! rpipemulti commands VUndef VUndef in
         rdel_from_set fuel (VStr ks) is_sorted ptn
     | _ => ret VUndef
     end) w.
Proof.
  intros Hm. cbn [rdel_from_set]. unfold bind at 1 4.
  destruct (pop_method_plain is_sorted) as [Hd Hk].
  change (pop_command is_sorted ks).1
    with (if is_sorted then "zpopmin" else "spop") in Hm.
  rewrite (rr_pop _ ks w Hm Hd Hk). reflexivity.
Qed.

Lemma drain_round fuel ks is_sorted ptn w payload members st1 :
  has_method (pop_command is_sorted ks).1 = true ->
  has_method "del" = true ->
  (truthy ptn = false \/ exists p, ptn = VStr p) ->
  store_exec (store w) (pop_command is_sorted ks).1 (pop_command is_sorted ks).2
  = (ROk (VArr payload), st1) ->
  payload <> [] ->
  drained is_sorted payload = (fun m => VStr m) <$> members ->
  exists w2,
    rdel_from_set (S fuel) (VStr ks) is_sorted ptn w
    = rdel_from_set fuel (VStr ks) is_sorted ptn w2
    /\ store w2 = (transmit_all (del_command ptn <$> members) st1).2
    /\ log w2
       = log w
         ++ [ESend (pop_command is_sorted ks) (ROk (VArr payload));
             EExec (length (pipes w)) Pipeline (del_command ptn <$> members)
                   (transmit_all (del_command ptn <$> members) st1).1].
Proof.
  intros Hpop Hdel Hptn Hr Hne Hmem.
  set (pop := pop_command is_sorted ks) in *.
  set (w1 := add_log (ESend pop (ROk (VArr payload))) (set_store st1 w)).
  set (ds := (fun m => del_desc (drain_key ptn m)) <$> members).
  set (w2 := set_heap (heap w1 ++ (descriptor_array <$> ds)) w1).
  assert (Hds : Forall dispatchable ds).
  { apply Forall_fmap, Forall_forall. intros m _. now apply del_dispatchable. }
  destruct (rpipemulti_plain (seq (length (heap w1)) (length ds)) ds w2)
    as [h' Hbatch].
  { apply NoDup_seq. }
  { apply fresh_descriptors. }
  { exact Hds. }
  assert (Ecs : queued_command <$> ds = del_command ptn <$> members).
  { unfold ds. rewrite <- list_fmap_compose. apply list_fmap_ext.
    intros i m _. apply queued_del. }
  rewrite Ecs in Hbatch.
  change (store w2) with st1 in Hbatch.
  exists (after_batch Pipeline (del_command ptn <$> members)
            (transmit_all (del_command ptn <$> members) st1).1
            (transmit_all (del_command ptn <$> members) st1).2 h' w2).
  split; [|split].
  - rewrite (drain_pop fuel ks is_sorted ptn w Hpop). unfold bind at 1.
    unfold sends. fold pop. rewrite Hr. cbn [fst snd settle ret].
    fold w1.
    destruct payload as [|x xs]; [contradiction|]. cbv iota beta.
    rewrite Hmem. unfold bind at 1. rewrite (alloc_dels ptn members Hptn w1).
    replace ((fun m0 => descriptor_array (del_desc (drain_key ptn m0)))
               <$> members)
      with (descriptor_array <$> ds)
      by (unfold ds; now rewrite <- list_fmap_compose).
    fold w2.
    replace (length members) with (length ds)
      by (unfold ds; now rewrite length_fmap).
    unfold bind at 1. rewrite Hbatch. reflexivity.
  - reflexivity.
  - cbn [log after_batch]. unfold w2, w1.
    cbn [log set_heap add_log set_store pipes store].
    now rewrite <- app_assoc.
Qed.

Lemma batched_app l1 l2 : batched (l1 ++ l2) = batched l1 ++ batched l2.
Proof. apply flat_map_app. Qed.

Lemma sent_directly_app l1 l2 :
  sent_directly (l1 ++ l2) = sent_directly l1 ++ sent_directly l2.
Proof. apply flat_map_app. Qed.

Lemma drain_run_rounds ks is_sorted ptn script st st' :
  has_method (pop_command is_sorted ks).1 = true ->
  has_method "del" = true ->
  (truthy ptn = false \/ exists p, ptn = VStr p) ->
  drain_rounds is_sorted ks ptn st script st' ->
  forall w, store w = st ->
  exists w',
    rdel_from_set (S (length script)) (VStr ks) is_sorted ptn w = Ok VUndef w'
    /\ store w' = st'
    /\ batched (log w') = batched (log w) ++ (del_command ptn <$> concat script)
    /\ sent_directly (log w')
       = sent_directly (log w)
         ++ replicate (S (length script)) (pop_command is_sorted ks).
Proof.
  intros Hpop Hdel Hptn Hrounds.
  induction Hrounds as [st v st' Hr Hbad|st payload members st1 script st' Hr Hne Hmem _ IH];
    intros w <-.
  - exists (add_log (ESend (pop_command is_sorted ks) (ROk v)) (set_store st' w)).
    split; [|split; [|split]].
    + rewrite drain_pop by exact Hpop. unfold bind, sends.
      rewrite Hr. cbn [fst snd settle ret].
      destruct v as [| | | | | |[|x xs]| | | |]; try reflexivity; discriminate.
    + reflexivity.
    + cbn [log add_log set_store concat fmap list_fmap].
      rewrite batched_app, app_nil_r. cbn. now rewrite app_nil_r.
    + cbn [log add_log set_store length replicate].
      now rewrite sent_directly_app.
  - destruct (drain_round (S (length script)) ks is_sorted ptn w payload members st1
                Hpop Hdel Hptn Hr Hne Hmem) as (w2 & Hrun & Hst & Hlog).
    destruct (IH w2 Hst) as (w' & Hrest & Hst' & Hb & Hs).
    exists w'. split; [|split; [|split]].
    + cbn [length]. now rewrite Hrun.
    + exact Hst'.
    + rewrite Hb, Hlog, batched_app. cbn [batched flat_map app concat].
      rewrite app_nil_r, fmap_app. now rewrite <- app_assoc.
    + rewrite Hs, Hlog, sent_directly_app. cbn [sent_directly flat_map app].
      rewrite <- app_assoc. reflexivity.
Qed.

(** X15: a whole drain.  When the store answers the pops with payloads
    whose deleted elements are strings, round after round, and then with
    a reply that is no non-empty array, the drain returns [undefined]
    after one pop more than there were payloads; the only requests sent
    one by one are these pops, and the batches hold, in the order
    popped, exactly one deletion per element: of every element of a
    plain-set payload, of every other element of a sorted-set payload. *)
Theorem drain_run (ks : string) (is_sorted : bool) (ptn : value)
  (script : list (list string)) (st' : Store) (w : World) :
  has_method (pop_command is_sorted ks).1 = true ->
  has_method "del" = true ->
  (truthy ptn = false \/ exists p, ptn = VStr p) ->
  drain_rounds is_sorted ks ptn (store w) script st' ->
  exists w',
    rdel_from_set (S (length script)) (VStr ks) is_sorted ptn w = Ok VUndef w'
    /\ store w' = st'
    /\ batched (log w') = batched (log w) ++ (del_command ptn <$> concat script)
    /\ sent_directly (log w')
       = sent_directly (log w)
         ++ replicate (S (length script)) (pop_command is_sorted ks).
Proof.
  intros Hpop Hdel Hptn Hrounds.
  now apply (drain_run_rounds ks is_sorted ptn script (store w) st').
Qed.

(** X16: a pop that the store answers with an error ends the drain with
    that error: nothing is deleted, no batch is opened, and no further
    pop is sent. *)
Theorem drain_pop_error (fuel : nat) (ks : string) (is_sorted : bool)
  (ptn : value) (e : string) (st1 : Store) (w : World) :
  has_method (pop_command is_sorted ks).1 = true ->
  store_exec (store w) (pop_command is_sorted ks).1 (pop_command is_sorted ks).2
  = (RErr e, st1) ->
  rdel_from_set (S fuel) (VStr ks) is_sorted ptn w
  = Throw (VErr e)
          {| store := st1; pipes := pipes w; heap := heap w;
             log := log w ++ [ESend (pop_command is_sorted ks) (RErr e)] |}.
Proof.
  intros Hpop Hr. rewrite (drain_pop fuel ks is_sorted ptn w Hpop).
  unfold bind, sends. rewrite Hr. reflexivity.
Qed.

(** ** Synchronous call and rename *)

Lemma snoc_last_arg (l : list value) (x : value) :
  last_arg l = Some x -> pop l ++ [x] = l.
Proof.
  destruct l as [|y l'] using rev_ind; [discriminate|].
  rewrite last_arg_snoc, pop_snoc. now intros [= ->].
Qed.

Lemma r_rest_args (args : list value) :
  exists g,
    match last_arg args with
    | Some (VFun _) => args
    | _ => args ++ [VFun FLib]
    end = (split_callback args).1 ++ [VFun g].
Proof.
  unfold split_callback.
  destruct (last_arg args) as [[| | | | | | |f| | |]|] eqn:E;
    try (now exists FLib).
  exists f. cbn [fst]. symmetry. now apply snoc_last_arg.
Qed.

Lemma split_callback_snoc (l : list value) (g : closure) :
  split_callback (l ++ [VFun g]) = (l, Some g).
Proof. unfold split_callback. now rewrite last_arg_snoc, pop_snoc. Qed.

Lemma _rexec_callback (l : list value) (g : closure) :
  _rexec (l ++ [VFun g]) = (TClient, l ++ [VFun g]).
Proof. unfold _rexec. now rewrite last_arg_snoc. Qed.

Lemma invoke_callback method l g w :
  has_method method = true ->
  exists rp st',
    invoke TClient method (l ++ [VFun g]) w
    = Ok (Direct rp)
         {| store := st'; pipes := pipes w; heap := heap w;
            log := log w ++ [ESend (method, l) rp] |}.
Proof.
  intros Hm. unfold invoke. rewrite Hm. unfold transmit. cbn [fst snd].
  rewrite split_callback_snoc. cbn [fst snd].
  destruct (store_exec (store w) method l) as [rp st1].
  destruct g as [id|]; eexists _, _; reflexivity.
Qed.

Lemma r_dispatch (m k : string) (args : list value) (w : World) :
  dotted m = false ->
  has_method m = true ->
  exists rp st',
    r (VStr m) (VStr k) args w
    = Ok (Direct rp)
         {| store := st'; pipes := pipes w; heap := heap w;
            log := log w
                   ++ [ESend (m, VStr (_rpfx redisHprefix k)
                                 :: (if String.eqb (substring_to 1 (_rpfx redisHprefix k)) "{"
                                        && multi_key_method m
                                     then prefix_tagged_arg <$> (split_callback args).1
                                     else (split_callback args).1)) rp] |}.
Proof.
  intros Hdot Hm. unfold r. unfold bind at 1. cbn [rpfx_val ret].
  destruct (r_rest_args args) as [g ->].
  set (a := (split_callback args).1).
  unfold _redis_call_spread, _redis_call. cbn [head tail default id].
  unfold dotted in Hdot. rewrite Hdot. cbv iota.
  replace (0 <? length (a ++ [VFun g]))%nat with true
    by (symmetry; apply Nat.ltb_lt; rewrite length_app; cbn; lia).
  set (h := _rpfx redisHprefix k).
  unfold bind at 1.
  destruct (String.eqb (substring_to 1 h) "{" && multi_key_method m); cbn [ret].
  - rewrite fmap_app. cbn [fmap list_fmap prefix_tagged_arg].
    rewrite _rexec_callback.
    apply (invoke_callback m (VStr h :: (prefix_tagged_arg <$> a)) g w Hm).
  - rewrite _rexec_callback.
    apply (invoke_callback m (VStr h :: a) g w Hm).
Qed.

(** X17: the synchronous call always goes to the connection at once.
    For a method without a dot it sends the namespaced key and the
    arguments, a trailing function of the caller excepted; a trailing
    Batch Context is not taken as the execution target, it travels as
    the last argument and no queue changes. *)
Theorem r_never_queues (m k : string) (args : list value) (w : World) :
  dotted m = false ->
  has_method m = true ->
  exists rp st',
    r (VStr m) (VStr k) args w
    = Ok (Direct rp)
         {| store := st'; pipes := pipes w; heap := heap w;
            log := log w
                   ++ [ESend (m, VStr (_rpfx redisHprefix k)
                                 :: (if String.eqb (substring_to 1 (_rpfx redisHprefix k)) "{"
                                        && multi_key_method m
                                     then prefix_tagged_arg <$> (split_callback args).1
                                     else (split_callback args).1)) rp] |}.
Proof. apply r_dispatch. Qed.

(** X18: a rename sends one [rename] with both names namespaced, to the
    connection; a name that is not a string is a [TypeError] before
    anything is sent. *)
Theorem rrename_namespaces_both (a : string) (w : World) :
  has_method "rename" = true ->
  (forall b,
      rrename (VStr a) (VStr b) w
      = Ok (Direct (store_exec (store w) "rename"
                               [VStr (_rpfx redisHprefix a);
                                VStr (_rpfx redisHprefix b)]).1)
           (add_log (ESend ("rename", [VStr (_rpfx redisHprefix a);
                                       VStr (_rpfx redisHprefix b)])
                           (store_exec (store w) "rename"
                                       [VStr (_rpfx redisHprefix a);
                                        VStr (_rpfx redisHprefix b)]).1)
                    (set_store (store_exec (store w) "rename"
                                           [VStr (_rpfx redisHprefix a);
                                            VStr (_rpfx redisHprefix b)]).2 w)))
  /\ (forall v, (forall b, v <> VStr b) ->
        rrename (VStr a) v w = Throw type_error w
        /\ rrename v (VStr a) w = Throw type_error w).
Proof.
  intros Hm. split.
  - intros b. unfold rrename, bind. cbn [rpfx_val ret].
    unfold _redis_call. change (indexOf "rename" ".") with (-1).
    cbn [Z.eqb negb length Nat.ltb Nat.leb].
    change (multi_key_method "rename") with false. rewrite andb_false_r.
    unfold bind. cbn [ret].
    change (_rexec [VStr (_rpfx redisHprefix b)])
      with (TClient, [VStr (_rpfx redisHprefix b)]).
    cbv iota beta. now apply invoke_client.
  - intros v Hv. unfold rrename, bind. cbn [rpfx_val ret].
    destruct v; try (split; reflexivity). now destruct (Hv s).
Qed.

(** ** Sorted-set helpers *)

Lemma sends_ok (c : command) (w : World) (v : value) (st1 : Store) :
  store_exec (store w) c.1 c.2 = (ROk v, st1) ->
  sends c w
  = Ok v {| store := st1; pipes := pipes w; heap := heap w;
            log := log w ++ [ESend c (ROk v)] |}.
Proof. intros H. unfold sends. rewrite H. reflexivity. Qed.

Lemma filter_scored (all : list value) (members : list value) :
  forall i,
    length (drop i all) = length members ->
    filter_with_index (fun _ j => negb (is_null (js_index (VArr all) j))) i members
    = scored members (drop i all).
Proof.
  induction members as [|m members IH]; intros i Hlen; [reflexivity|].
  destruct (all !! i) as [s|] eqn:E.
  - rewrite (drop_S _ _ _ E) in *. cbn [length] in Hlen.
    cbn [filter_with_index js_index]. rewrite E. cbn [default id].
    unfold scored. cbn [zip zip_with List.filter snd].
    rewrite IH by congruence.
    destruct (is_null s); reflexivity.
  - apply lookup_ge_None in E. rewrite drop_ge in Hlen by exact E. discriminate.
Qed.

(** X19: membership test against a sorted collection.  One [zmscore]
    is sent for the namespaced key and the members; when the reply is
    an array with one score per member, the result holds, in order,
    exactly the members whose score is not [null]; when the reply is
    not an array with elements the result is empty, whatever the
    members. *)
Theorem rinzset_scored (k : string) (members : list value) (st1 : Store)
  (w : World) :
  has_method "zmscore" = true ->
  ends_plain members = true ->
  let c := ("zmscore", VStr (_rpfx redisHprefix k) :: members) in
  (forall scores,
      store_exec (store w) c.1 c.2 = (ROk (VArr scores), st1) ->
      length scores = length members ->
      rinzset (VStr k) members w
      = Ok (VArr (scored members scores))
           {| store := st1; pipes := pipes w; heap := heap w;
              log := log w ++ [ESend c (ROk (VArr scores))] |})
  /\ (forall v,
      store_exec (store w) c.1 c.2 = (ROk v, st1) ->
      truthy v = false \/ v = VArr [] ->
      rinzset (VStr k) members w
      = Ok (VArr [])
           {| store := st1; pipes := pipes w; heap := heap w;
              log := log w ++ [ESend c (ROk v)] |}).
Proof.
  intros Hm Hp c.
  assert (Hrr : rr (VStr "zmscore") (VStr k) members w = sends c w).
  { rewrite (rr_sends "zmscore" k members w eq_refl Hm Hp).
    change (multi_key_method "zmscore") with false.
    now rewrite andb_false_r. }
  split.
  - intros scores Hr Hlen. unfold rinzset, bind. rewrite Hrr.
    rewrite (sends_ok c w _ st1 Hr). cbn [truthy negb].
    destruct scores as [|s scores].
    + destruct members; [reflexivity|discriminate].
    + cbn [js_length truthy length].
      replace (Z.of_nat (S (length scores)) =? 0) with false
        by (symmetry; apply Z.eqb_neq; lia).
      cbn [negb ret]. do 2 f_equal.
      now rewrite (filter_scored (s :: scores) members 0 Hlen).
  - intros v Hr Hv. unfold rinzset, bind. rewrite Hrr.
    rewrite (sends_ok c w _ st1 Hr).
    destruct Hv as [Hf| ->].
    + now rewrite Hf.
    + reflexivity.
Qed.

Lemma ends_plain_strings (l : list string) :
  ends_plain ((fun m => VStr m) <$> l) = true.
Proof.
  unfold ends_plain. destruct l as [|x l _] using rev_ind; [reflexivity|].
  rewrite fmap_app. cbn [fmap list_fmap]. now rewrite last_arg_snoc.
Qed.

Lemma rr_sends_single (m k : string) (args : list value) (w : World) :
  dotted m = false ->
  multi_key_method m = false ->
  has_method m = true ->
  ends_plain args = true ->
  rr (VStr m) (VStr k) args w = sends (m, VStr (_rpfx redisHprefix k) :: args) w.
Proof.
  intros Hd Hk Hm Hp. rewrite (rr_sends m k args w Hd Hm Hp).
  now rewrite Hk, andb_false_r.
Qed.

Lemma zscan_page (fuel : nat) (src tgt c nc : string) (payload : list string)
  (st1 st2 : Store) (w : World) :
  has_method "zscan" = true ->
  has_method "sadd" = true ->
  store_exec (store w) "zscan" (zscan_command src c).2
  = (ROk (VArr [VStr nc; VArr ((fun m => VStr m) <$> payload)]), st1) ->
  page_copied tgt st1 payload st2 ->
  exists w2,
    zset2set_scan_from (S fuel) (VStr src) (VStr tgt) (VStr c) w
    = (if String.eqb nc "0" then ret VUndef
       else zset2set_scan_from fuel (VStr src) (VStr tgt) (VStr nc)) w2
    /\ store w2 = st2
    /\ pipes w2 = pipes w
    /\ batched (log w2) = batched (log w)
    /\ sent_directly (log w2)
       = sent_directly (log w)
         ++ zscan_command src c
            :: match payload with
               | [] => []
               | _ => [sadd_command tgt payload]
               end.
Proof.
  intros Hz Hs Hr Hcopy.
  assert (Hpage : rr (VStr "zscan") (VStr src) [VStr c] w
                  = Ok (VArr [VStr nc; VArr ((fun m => VStr m) <$> payload)])
                       {| store := st1; pipes := pipes w; heap := heap w;
                          log := log w
                                 ++ [ESend (zscan_command src c)
                                           (ROk (VArr [VStr nc;
                                                       VArr ((fun m => VStr m)
                                                               <$> payload)]))] |}).
  { rewrite (rr_sends_single "zscan" src [VStr c] w eq_refl eq_refl Hz eq_refl).
    now apply sends_ok. }
  destruct payload as [|m payload].
  - cbn in Hcopy. subst st2.
    eexists. split; [|split; [|split; [|split]]].
    + cbn [zset2set_scan_from]. unfold bind at 1. rewrite Hpage.
      cbn [js_iterate ret]. unfold bind. cbn [ret js_length lookup].
      cbn. reflexivity.
    + reflexivity.
    + reflexivity.
    + cbn [log]. rewrite batched_app. cbn. now rewrite app_nil_r.
    + cbn [log]. now rewrite sent_directly_app.
  - destruct Hcopy as [v Hadd].
    set (w1 := {| store := st1; pipes := pipes w; heap := heap w;
                  log := log w
                         ++ [ESend (zscan_command src c)
                                   (ROk (VArr [VStr nc;
                                               VArr ((fun m0 => VStr m0)
                                                       <$> m :: payload)]))] |}) in *.
    assert (Hsadd : rr (VStr "sadd") (VStr tgt) ((fun m0 => VStr m0) <$> m :: payload) w1
                    = Ok v {| store := st2; pipes := pipes w1; heap := heap w1;
                              log := log w1
                                     ++ [ESend (sadd_command tgt (m :: payload))
                                               (ROk v)] |}).
    { rewrite (rr_sends_single "sadd" tgt _ w1 eq_refl eq_refl Hs
                 (ends_plain_strings _)).
      now apply sends_ok. }
    eexists. split; [|split; [|split; [|split]]].
    + cbn [zset2set_scan_from]. unfold bind at 1. rewrite Hpage.
      unfold bind at 1. cbn [js_iterate ret]. cbv beta iota.
      change ([VStr nc; VArr ((fun m0 => VStr m0) <$> m :: payload)] !! 0%nat)
        with (Some (VStr nc)).
      change ([VStr nc; VArr ((fun m0 => VStr m0) <$> m :: payload)] !! 1%nat)
        with (Some (VArr ((fun m0 => VStr m0) <$> m :: payload))).
      cbn [default id]. unfold bind at 1. cbn [js_length].
      replace (js_positive (VNum (Z.of_nat (length ((fun m0 => VStr m0) <$> m :: payload)))))
        with true by (symmetry; apply Z.ltb_lt; cbn [fmap list_fmap length]; lia).
      unfold bind at 1. unfold bind at 1. unfold bind at 1.
      cbn [js_iterate ret]. fold w1. rewrite Hsadd. cbn [ret is_string].
      reflexivity.
    + reflexivity.
    + reflexivity.
    + cbn [log]. unfold w1. cbn [log]. rewrite !batched_app. cbn.
      now rewrite !app_nil_r.
    + cbn [log]. unfold w1. cbn [log]. rewrite !sent_directly_app.
      cbn. now rewrite <- app_assoc.
Qed.

Lemma zset2set_scan_pages (src tgt : string)
  (script : list (string * list string)) (c : string) (st st' : Store) :
  has_method "zscan" = true ->
  has_method "sadd" = true ->
  zscan_pages src tgt c st script st' ->
  forall w, store w = st ->
  exists w',
    zset2set_scan_from (length script) (VStr src) (VStr tgt) (VStr c) w
    = Ok VUndef w'
    /\ store w' = st'
    /\ pipes w' = pipes w
    /\ batched (log w') = batched (log w)
    /\ sent_directly (log w')
       = sent_directly (log w) ++ copy_requests src tgt c script.
Proof.
  intros Hz Hs Hpages.
  induction Hpages as [c st payload st1 st' Hr Hcopy
                      |c st nc payload st1 st2 script st' Hr Hnc Hcopy _ IH];
    intros w <-.
  - destruct (zscan_page 0 src tgt c "0" payload st1 st' w Hz Hs Hr Hcopy)
      as (w2 & Hrun & Hst & Hp & Hb & Hsd).
    exists w2. cbn [length copy_requests]. rewrite app_nil_r.
    rewrite Hrun. now cbn.
  - destruct (zscan_page (length script) src tgt c nc payload st1 st2 w
                Hz Hs Hr Hcopy) as (w2 & Hrun & Hst & Hp & Hb & Hsd).
    destruct (IH w2 Hst) as (w' & Hrest & Hst' & Hp' & Hb' & Hsd').
    exists w'. split; [|split; [|split; [|split]]].
    + cbn [length]. rewrite Hrun.
      replace (String.eqb nc "0") with false
        by (symmetry; now apply String.eqb_neq).
      exact Hrest.
    + exact Hst'.
    + congruence.
    + congruence.
    + rewrite Hsd', Hsd. cbn [copy_requests]. rewrite <- app_assoc.
      reflexivity.
Qed.

(** X20: the copy of a sorted collection into a set, page by page.  The
    first page is asked with the cursor [0], each further page with the
    cursor the page before returned, until a page returns the string
    [0]; every non-empty payload goes to one [sadd] on the namespaced
    target, whole and as the store returned it; nothing is added for an
    empty payload, and no Batch Context is used. *)
Theorem zset2set_scan_copies (src tgt : string)
  (script : list (string * list string)) (st' : Store) (w : World) :
  has_method "zscan" = true ->
  has_method "sadd" = true ->
  zscan_pages src tgt "0" (store w) script st' ->
  exists w',
    zset2set_scan (length script) (VStr src) (VStr tgt) w = Ok VUndef w'
    /\ store w' = st'
    /\ pipes w' = pipes w
    /\ batched (log w') = batched (log w)
    /\ sent_directly (log w')
       = sent_directly (log w) ++ copy_requests src tgt "0" script.
Proof.
  intros Hz Hs Hpages.
  now apply (zset2set_scan_pages src tgt script "0" (store w) st').
Qed.

Lemma drop_cons_inv {A} (l : list A) :
  forall i x rest,
    drop i l = x :: rest -> l !! i = Some x /\ drop (S i) l = rest.
Proof.
  induction l as [|y l IH]; intros i x rest H.
  - now destruct i.
  - destruct i as [|i].
    + cbn in H. injection H as -> ->. split; reflexivity.
    + cbn in H. destruct (IH i x rest H) as [H1 H2]. split; assumption.
Qed.

Lemma drop_nil_lookup {A} (l : list A) i : drop i l = [] -> l !! i = None.
Proof.
  intros H. apply lookup_ge_None.
  assert (E : length (drop i l) = 0%nat) by now rewrite H.
  rewrite length_drop in E. lia.
Qed.

Lemma js_index_strings all i m :
  all !! i = Some m -> js_index (VArr ((fun m => VStr m) <$> all)) i = VStr m.
Proof. intros E. cbn [js_index]. now rewrite list_lookup_fmap, E. Qed.

Lemma js_index_strings_none (all : list string) i :
  all !! i = None -> js_index (VArr ((fun m => VStr m) <$> all)) i = VUndef.
Proof. intros E. cbn [js_index]. now rewrite list_lookup_fmap, E. Qed.

Lemma pair_up_join (all : list string) :
  forall n page i,
    (length page <= n)%nat ->
    drop i all = page ->
    pair_up (VArr ((fun m => VStr m) <$> all)) (Nat.div2 (S (length page))) i
    = (fun m => VStr m) <$> join_scores page.
Proof.
  induction n as [|n IH]; intros [|m [|s page]] i Hn Hd;
    try reflexivity; try (cbn [length] in Hn; lia).
  - destruct (drop_cons_inv _ _ _ _ Hd) as [Hm Hrest].
    cbn [length Nat.div2 pair_up join_scores fmap list_fmap].
    rewrite (js_index_strings _ _ _ Hm).
    rewrite (js_index_strings_none _ _ (drop_nil_lookup _ _ Hrest)).
    cbn [js_add string_like orb js_string_of]. now rewrite string_app_assoc.
  - destruct (drop_cons_inv _ _ _ _ Hd) as [Hm Hrest].
    destruct (drop_cons_inv _ _ _ _ Hrest) as [Hs Hrest'].
    cbn [length Nat.div2 pair_up join_scores fmap list_fmap].
    rewrite (js_index_strings _ _ _ Hm), (js_index_strings _ _ _ Hs).
    cbn [js_add string_like orb js_string_of]. rewrite string_app_assoc.
    f_equal.
    cbn [length] in Hn.
    apply IH; [lia|exact Hrest'].
Qed.

Lemma js_add_small (a b : Z) :
  Z.abs (a + b) <= 9007199254740992 ->
  js_add (VNum a) (VNum b) = VNum (a + b).
Proof.
  intros H. cbn [js_add string_like orb to_number].
  now apply number_of_Z_small.
Qed.

Lemma zrange_request (src : string) (start lim : Z) (with_scores : value)
  (w : World) :
  has_method "zrange" = true ->
  Z.abs (start + lim) <= 9007199254740992 ->
  rr (VStr "zrange") (VStr src)
     ([VNum start; js_add (VNum start) (VNum lim)]
        ++ (if truthy with_scores then [VStr "WITHSCORES"] else [])) w
  = sends (zrange_command src start lim (truthy with_scores)) w.
Proof.
  intros Hz Hb. rewrite (js_add_small _ _ Hb).
  rewrite (rr_sends_single "zrange" src _ w eq_refl eq_refl Hz).
  - reflexivity.
  - now destruct (truthy with_scores).
Qed.

Lemma zrange_done (fuel : nat) (src tgt cmd : string) (lim start : Z)
  (with_scores v : value) (st1 : Store) (w : World) :
  has_method "zrange" = true ->
  Z.abs (start + lim) <= 9007199254740992 ->
  store_exec (store w) "zrange"
             (zrange_command src start lim (truthy with_scores)).2
  = (ROk v, st1) ->
  truthy v = false \/ v = VArr [] ->
  zset_convert_from (S fuel) (VStr src) (VStr tgt) cmd (VNum lim) with_scores
                    (VNum start) w
  = Ok VUndef
       {| store := st1; pipes := pipes w; heap := heap w;
          log := log w
                 ++ [ESend (zrange_command src start lim (truthy with_scores))
                           (ROk v)] |}.
Proof.
  intros Hz Hb Hr Hv. cbn [zset_convert_from]. unfold bind at 1.
  rewrite (zrange_request src start lim with_scores w Hz Hb).
  rewrite (sends_ok (zrange_command src start lim (truthy with_scores)) w v st1 Hr).
  destruct Hv as [Hf| ->].
  - now rewrite Hf.
  - reflexivity.
Qed.

Lemma zrange_page (fuel : nat) (src tgt cmd : string) (lim start : Z)
  (with_scores v : value) (page : list string) (st1 st2 : Store) (w : World) :
  has_method "zrange" = true ->
  has_method cmd = true ->
  dotted cmd = false ->
  multi_key_method cmd = false ->
  Z.abs (start + lim) <= 9007199254740992 ->
  Z.abs (start + lim + 1) <= 9007199254740992 ->
  store_exec (store w) "zrange"
             (zrange_command src start lim (truthy with_scores)).2
  = (ROk (VArr ((fun m => VStr m) <$> page)), st1) ->
  page <> [] ->
  store_exec st1 cmd
             (add_command cmd tgt (converted (truthy with_scores) page)).2
  = (ROk v, st2) ->
  zset_convert_from (S fuel) (VStr src) (VStr tgt) cmd (VNum lim) with_scores
                    (VNum start) w
  = zset_convert_from fuel (VStr src) (VStr tgt) cmd (VNum lim) with_scores
                      (VNum (start + lim + 1))
      {| store := st2; pipes := pipes w; heap := heap w;
         log := log w
                ++ [ESend (zrange_command src start lim (truthy with_scores))
                          (ROk (VArr ((fun m => VStr m) <$> page)));
                    ESend (add_command cmd tgt
                                       (converted (truthy with_scores) page))
                          (ROk v)] |}.
Proof.
  intros Hz Hc Hd Hk Hb Hb1 Hr Hne Hadd. cbn [zset_convert_from].
  unfold bind at 1.
  rewrite (zrange_request src start lim with_scores w Hz Hb).
  rewrite (sends_ok (zrange_command src start lim (truthy with_scores)) w _ st1 Hr).
  cbn [truthy negb].
  unfold bind at 1. cbn [js_length].
  replace (truthy (VNum (Z.of_nat (length ((fun m => VStr m) <$> page)))))
    with true.
  2:{ symmetry. cbn [truthy]. apply negb_true_iff, Z.eqb_neq.
      rewrite length_fmap. destruct page; [contradiction|cbn; lia]. }
  cbn [negb].
  set (w1 := {| store := st1; pipes := pipes w; heap := heap w;
                log := log w ++ [ESend (zrange_command src start lim
                                                        (truthy with_scores))
                                       (ROk (VArr ((fun m => VStr m) <$> page)))] |}).
  assert (Hmem : (if truthy with_scores
                  then ret (pair_up (VArr ((fun m => VStr m) <$> page))
                                    (Nat.div2 (S (Z.to_nat (Z.of_nat
                                       (length ((fun m => VStr m) <$> page)))))) 0)
                  else js_iterate (VArr ((fun m => VStr m) <$> page))) w1
                 = Ok ((fun m => VStr m) <$> converted (truthy with_scores) page) w1).
  { destruct (truthy with_scores); [|reflexivity].
    rewrite Nat2Z.id, length_fmap. unfold ret, converted.
    now rewrite (pair_up_join page (length page) page 0 (le_n _) eq_refl). }
  unfold bind at 1. rewrite Hmem.
  unfold bind at 1.
  rewrite (rr_sends_single cmd tgt _ w1 Hd Hk Hc (ends_plain_strings _)).
  change (cmd, VStr (_rpfx redisHprefix tgt)
               :: ((fun m => VStr m) <$> converted (truthy with_scores) page))
    with (add_command cmd tgt (converted (truthy with_scores) page)).
  rewrite (sends_ok (add_command cmd tgt (converted (truthy with_scores) page))
                    w1 v st2 Hadd).
  unfold w1. cbn [log pipes heap store].
  rewrite (js_add_small _ _ Hb), (js_add_small _ _ Hb1).
  rewrite <- app_assoc. reflexivity.
Qed.

Lemma zset_convert_pages (src tgt cmd : string) (lim : Z) (with_scores : value)
  (script : list (list string)) (start : Z) (st st' : Store) :
  has_method "zrange" = true ->
  has_method cmd = true ->
  dotted cmd = false ->
  multi_key_method cmd = false ->
  0 < lim ->
  zrange_pages src tgt cmd lim (truthy with_scores) start st script st' ->
  0 <= start ->
  start + Z.of_nat (S (length script)) * (lim + 1) <= 9007199254740992 ->
  forall w, store w = st ->
  exists w',
    zset_convert_from (S (length script)) (VStr src) (VStr tgt) cmd (VNum lim)
                      with_scores (VNum start) w
    = Ok VUndef w'
    /\ store w' = st'
    /\ pipes w' = pipes w
    /\ batched (log w') = batched (log w)
    /\ sent_directly (log w')
       = sent_directly (log w)
         ++ convert_requests_from src tgt cmd lim (truthy with_scores) start script.
Proof.
  intros Hz Hc Hd Hk Hpos Hpages.
  induction Hpages as [start st v st' Hr Hv
                      |start st page st1 v st2 script st' Hr Hne Hadd _ IH];
    intros H0 Hb w <-.
  - assert (Hb0 : Z.abs (start + lim) <= 9007199254740992)
      by (cbn [length] in Hb; lia).
    eexists. split; [|split; [|split; [|split]]].
    + apply (zrange_done 0 src tgt cmd lim start with_scores v st' w Hz Hb0
               Hr Hv).
    + reflexivity.
    + reflexivity.
    + cbn [log]. rewrite batched_app. cbn. now rewrite app_nil_r.
    + cbn [log]. now rewrite sent_directly_app.
  - assert (Hb0 : Z.abs (start + lim) <= 9007199254740992)
      by (cbn [length] in Hb; nia).
    assert (Hb1 : Z.abs (start + lim + 1) <= 9007199254740992)
      by (cbn [length] in Hb; nia).
    assert (Hb2 : start + lim + 1 + Z.of_nat (S (length script)) * (lim + 1)
                  <= 9007199254740992) by (cbn [length] in Hb; nia).
    pose proof (zrange_page (S (length script)) src tgt cmd lim start with_scores
                  v page st1 st2 w Hz Hc Hd Hk Hb0 Hb1 Hr Hne Hadd) as Hrun.
    match type of Hrun with _ = _ ?x => set (w2 := x) in * end.
    destruct (IH ltac:(lia) Hb2 w2 eq_refl) as (w' & Hrest & Hst' & Hp' & Hb' & Hsd').
    exists w'. split; [|split; [|split; [|split]]].
    + cbn [length]. now rewrite Hrun.
    + exact Hst'.
    + exact Hp'.
    + rewrite Hb'. unfold w2. cbn [log]. rewrite batched_app. cbn.
      now rewrite app_nil_r.
    + rewrite Hsd'. unfold w2. cbn [log]. rewrite sent_directly_app. cbn.
      now rewrite <- app_assoc.
Qed.

Lemma convert_requests_closed (src tgt cmd : string) (lim : Z) (ws : bool)
  (script : list (list string)) :
  forall start,
    convert_requests_from src tgt cmd lim ws start script
    = concat (imap (fun i page =>
                      [zrange_command src (start + Z.of_nat i * (lim + 1)) lim ws;
                       add_command cmd tgt (converted ws page)])
                   script)
      ++ [zrange_command src (start + Z.of_nat (length script) * (lim + 1)) lim ws].
Proof.
  induction script as [|page script IH]; intros start.
  - cbn [convert_requests_from imap concat length app].
    replace (start + Z.of_nat 0 * (lim + 1)) with start by lia. reflexivity.
  - cbn [convert_requests_from imap concat length app].
    rewrite IH. replace (start + Z.of_nat 0 * (lim + 1)) with start by lia.
    do 2 f_equal.
    replace (start + lim + 1 + Z.of_nat (length script) * (lim + 1))
      with (start + Z.of_nat (S (length script)) * (lim + 1)) by lia.
    f_equal. f_equal. apply imap_ext. intros i x _. cbn [compose].
    replace (start + lim + 1 + Z.of_nat i * (lim + 1))
      with (start + Z.of_nat (S i) * (lim + 1)) by lia.
    reflexivity.
Qed.

(** X21: the conversion of a sorted collection, window by window.  The
    target command is [lpush] only when it is given as that very string
    and [sadd] otherwise; the limit is 1000 when none is given.  Window
    number [i] is the range from [i * (limit + 1)] to
    [i * (limit + 1) + limit], so the windows neither overlap nor leave
    a gap (for a positive limit, as long as the offsets stay within the
    integers a double holds exactly); every non-empty page goes to the
    target in one command, as it is or, with scores, joined member and
    score two by two; the run ends with the first request that returns
    no member. *)
Theorem zset_convert_windows (src tgt : string)
  (command limit with_scores : value) (lim : Z)
  (script : list (list string)) (st' : Store) (w : World) :
  let cmd := if is_string "lpush" command then "lpush" else "sadd" in
  has_method "zrange" = true ->
  has_method cmd = true ->
  (limit = VNum lim /\ 0 < lim) \/ (truthy limit = false /\ lim = 1000) ->
  Z.of_nat (S (length script)) * (lim + 1) <= 9007199254740992 ->
  zrange_pages src tgt cmd lim (truthy with_scores) 0 (store w) script st' ->
  exists w',
    zset_convert (S (length script)) (VStr src) (VStr tgt) command limit
                 with_scores w
    = Ok VUndef w'
    /\ store w' = st'
    /\ pipes w' = pipes w
    /\ batched (log w') = batched (log w)
    /\ sent_directly (log w')
       = sent_directly (log w)
         ++ convert_requests src tgt cmd lim (truthy with_scores) script.
Proof.
  intros cmd Hz Hc Hlim Hb Hpages.
  assert (Hpos : 0 < lim) by (destruct Hlim as [[_ H]|[_ ->]]; lia).
  assert (Hcmd : dotted cmd = false /\ multi_key_method cmd = false).
  { unfold cmd. now destruct (is_string "lpush" command). }
  destruct Hcmd as [Hd Hk].
  assert (Hl : (if negb (truthy limit) then VNum 1000 else limit) = VNum lim).
  { destruct Hlim as [[-> Hne]|[Hf ->]].
    - cbn [truthy]. now replace (lim =? 0) with false
        by (symmetry; apply Z.eqb_neq; lia).
    - now rewrite Hf. }
  unfold zset_convert. rewrite Hl. fold cmd.
  destruct (zset_convert_pages src tgt cmd lim with_scores script 0 (store w) st'
              Hz Hc Hd Hk Hpos Hpages (Z.le_refl 0) Hb w eq_refl)
    as (w' & Hrun & Hrest).
  exists w'. split; [exact Hrun|].
  rewrite (convert_requests_closed src tgt cmd lim (truthy with_scores) script 0)
    in Hrest.
  exact Hrest.
Qed.

End Model.

(** * Concrete instances *)

Arguments Ok {Store A} a w.
Arguments Throw {Store A} e w.
Arguments Pending {Store A} w.
Arguments OutOfFuel {Store A}.
Arguments store {Store} w.
Arguments pipes {Store} w.
Arguments heap {Store} w.
Arguments log {Store} w.
Arguments init_world {Store} st.

(** The library over the scripted store, with prefix [p:]. *)
Abbreviation SWorld := (World Sample.Store).
Abbreviation s_rpipemaybe :=
  (rpipemaybe Sample.Store Sample.store_exec Sample.has_method Sample.user_fn
              Sample.JSON_stringify Sample.ToString "p:").
Abbreviation s_rpipemulti2array :=
  (rpipemulti2array Sample.Store Sample.store_exec Sample.has_method
                    Sample.user_fn Sample.JSON_stringify Sample.ToString "p:").
Abbreviation s_rscan :=
  (rscan Sample.Store Sample.store_exec Sample.has_method Sample.user_fn
         Sample.ToString "p:").
Abbreviation s_rjget :=
  (rjget Sample.Store Sample.store_exec Sample.has_method Sample.user_fn
         Sample.JSON_parse Sample.JSON_stringify "p:").
Abbreviation s_rdel_from_set :=
  (rdel_from_set Sample.Store Sample.store_exec Sample.has_method
                 Sample.user_fn Sample.JSON_stringify Sample.ToString "p:").

(** C1 fails as stated: with prefix [p:] the key [{tag}foo] becomes
    [{p:tag}foo], which neither begins with [{tag}] nor is the tag
    followed by the namespaced remainder. *)
Lemma rpfx_tag_not_preserved :
  _rpfx "p:" (tagged "tag" "foo") = "{p:tag}foo"
  /\ String.prefix "{tag}" (_rpfx "p:" (tagged "tag" "foo")) = false
  /\ _rpfx "p:" (tagged "tag" "foo") <> tagged "tag" (_rpfx "p:" "foo").
Proof. repeat split; try reflexivity. discriminate. Qed.

(** C1 at the key [{tag}foo] under the prefix [p:]. *)
Lemma rpfx_brace_key_witness :
  "tag}foo" = "tag" +:+ "}" +:+ "foo"
  /\ String.prefix "p:" "tag}foo" = false
  /\ _rpfx "p:" (tagged "tag" "foo") = tagged ("p:" +:+ "tag") "foo".
Proof.
  do 2 (split; [reflexivity|]).
  exact (proj2 (proj2 (rpfx_brace_key "p:" "tag}foo")) "tag" "foo"
               eq_refl eq_refl).
Defined.

(** C4 fails as stated: with a prefix that begins with a brace, a second
    application prefixes again. *)
Lemma rpfx_not_idempotent :
  _rpfx "{a" "b" = "{ab"
  /\ _rpfx "{a" (_rpfx "{a" "b") = "{{aab"
  /\ _rpfx "{a" (_rpfx "{a" "b") <> _rpfx "{a" "b".
Proof. repeat split; try reflexivity. discriminate. Qed.

Lemma rpfx_idempotent_witness :
  String.eqb (substring_to 1 "p:") "{" = false
  /\ _rpfx "p:" (_rpfx "p:" "{tag}foo") = _rpfx "p:" "{tag}foo".
Proof.
  split; [reflexivity|]. apply (rpfx_idempotent "p:" "{tag}foo"). reflexivity.
Defined.

(** C7 on a batch holding the single descriptor [get k]: the request
    [get p:k] goes to the connection and its reply is the value. *)
Lemma rpipemaybe_single_witness :
  let w : SWorld := {| store := [ROk (VStr "v")]; pipes := [];
                       heap := [[VStr "get"; VStr "k"]]; log := [] |} in
  heap w !! 0%nat = Some [VStr "get"; VStr "k"]
  /\ dotted "get" = false
  /\ Sample.has_method "get" = true
  /\ ends_plain [] = true
  /\ s_rpipemaybe [0%nat] w
     = Ok (VStr "v")
          {| store := []; pipes := []; heap := [[VStr "get"; VStr "k"]];
             log := [ESend ("get", [VStr "p:k"]) (ROk (VStr "v"))] |}.
Proof.
  intros w. do 4 (split; [reflexivity|]).
  exact (proj2 (proj2 (rpipemaybe_single Sample.Store Sample.store_exec
                         Sample.has_method Sample.user_fn
                         Sample.JSON_stringify Sample.ToString "p:"
                         0%nat [VStr "get"; VStr "k"] w eq_refl))
               "get" "k" [] eq_refl eq_refl eq_refl eq_refl).
Defined.

(** C2 fails as stated, in three ways.  A scan with the options
    [{one: true}] alone over a store that has more matches makes one
    round and returns the accumulator -- empty, since [return] was not
    requested -- and no cursor.  A first round that brings a cursor and
    no item ends the scan as well, before any match was found.  And a
    cursor beyond [2^53] comes back rounded, so that the scan resumed
    with it would not continue where the first one stopped. *)
Lemma scan_one_not_resumable :
  let one := {| o_return := false; o_return_cursor := false; o_one := true;
                o_cursor := None; o_cb_all := false; o_count := None |} in
  let one_all :=
    {| o_return := true; o_return_cursor := true; o_one := true;
       o_cursor := None; o_cb_all := false; o_count := None |} in
  let more := ROk (VArr [VStr "0"; VArr [VStr "p:xb"]]) in
  let request := ("scan", [VNum 0; VStr "MATCH"; VStr "p:x*"]) in
  let after (r : reply) : SWorld :=
    {| store := [more]; pipes := []; heap := []; log := [ESend request r] |} in
  let found := ROk (VArr [VStr "5"; VArr [VStr "p:xa"]]) in
  let nothing := ROk (VArr [VStr "5"; VArr []]) in
  let far := ROk (VArr [VStr "9007199254740993"; VArr [VStr "p:xa"]]) in
  s_rscan 2 (VStr "x*") VUndef VUndef (Some one) (init_world [found; more])
  = Ok (VArr []) (after found)
  /\ (forall c ks, VArr [] <> VArr [c; VArr ks])
  /\ s_rscan 2 (VStr "x*") VUndef VUndef (Some one_all)
             (init_world [nothing; more])
     = Ok (VArr [VNum 5; VArr []]) (after nothing)
  /\ s_rscan 2 (VStr "x*") VUndef VUndef (Some one_all) (init_world [far; more])
     = Ok (VArr [VNum 9007199254740992; VArr [VStr "p:xa"]]) (after far).
Proof.
  intros one one_all more request after found nothing far.
  split; [vm_compute; reflexivity|].
  split; [intros c ks; discriminate|].
  split; vm_compute; reflexivity.
Qed.

(** C2 on a store with two pages of matches. *)
Lemma scan_one_round_witness :
  let opts := {| o_return := true; o_return_cursor := true; o_one := true;
                 o_cursor := None; o_cb_all := false; o_count := None |} in
  let more := ROk (VArr [VStr "0"; VArr [VStr "p:xb"]]) in
  let found := ROk (VArr [VStr "5"; VArr [VStr "p:xa"]]) in
  let request := ("scan", [VNum 0; VStr "MATCH"; VStr "p:x*"]) in
  let w : SWorld := init_world [found; more] in
  scan_request "p:" opts (VStr "x*") VUndef request
  /\ Sample.has_method "scan" = true
  /\ o_one opts = true
  /\ Sample.store_exec (store w) "scan" request.2 = (found, [more])
  /\ is_function VUndef = false
  /\ s_rscan 3 (VStr "x*") VUndef VUndef (Some opts) w
     = Ok (VArr [VNum 5; VArr [VStr "p:xa"]])
          {| store := [more]; pipes := []; heap := [];
             log := [ESend request found] |}.
Proof.
  intros opts more found request w.
  assert (Hreq : scan_request "p:" opts (VStr "x*") VUndef request)
    by (apply (scan_request_keys "p:" opts "x*" VUndef); [reflexivity|discriminate]).
  split; [exact Hreq|]. do 4 (split; [reflexivity|]).
  exact (proj1 (scan_one_round Sample.Store Sample.store_exec
                  Sample.has_method Sample.user_fn Sample.ToString "p:"
                  2 (VStr "x*") VUndef VUndef opts request w (VStr "5")
                  (VStr "p:xa") [] [] [more] Hreq eq_refl eq_refl eq_refl)
               eq_refl).
Defined.

(** C8 on a key scan whose second round fails in the store: the keys of
    the first round and its cursor are the value. *)
Lemma scan_stops_on_bad_round_witness :
  let opts := {| o_return := true; o_return_cursor := true; o_one := false;
                 o_cursor := None; o_cb_all := false; o_count := None |} in
  let found := ROk (VArr [VStr "5"; VArr [VStr "p:xa"]]) in
  let request := ("scan", [VNum 0; VStr "MATCH"; VStr "p:x*"]) in
  let w : SWorld := init_world [found; RErr "timeout"] in
  let script := [(VStr "5", [VStr "p:xa"])] in
  scan_request "p:" opts (VStr "x*") VUndef request
  /\ Sample.has_method "scan" = true
  /\ scan_rounds_then Sample.Store Sample.store_exec Sample.ToString
       request.1 request.2 (store w) script (RErr "timeout") []
  /\ nonempty_array (reply_res (RErr "timeout")) = false
  /\ s_rscan 2 (VStr "x*") VUndef VUndef (Some opts) w
     = Ok (VArr [VNum 5; VArr [VStr "p:xa"]])
          {| store := []; pipes := []; heap := [];
             log := [ESend request found;
                     ESend ("scan", [VNum 5; VStr "MATCH"; VStr "p:x*"])
                           (RErr "timeout")] |}.
Proof.
  intros opts found request w script.
  assert (Hreq : scan_request "p:" opts (VStr "x*") VUndef request)
    by (apply (scan_request_keys "p:" opts "x*" VUndef); [reflexivity|discriminate]).
  assert (Hs : scan_rounds_then Sample.Store Sample.store_exec Sample.ToString
                 request.1 request.2 (store w) script (RErr "timeout") []).
  { apply (scan_then_more _ _ _ _ _ _ (VStr "5") [VStr "p:xa"]
             [RErr "timeout"]); [reflexivity|reflexivity|].
    now apply scan_then_stop. }
  split; [exact Hreq|]. split; [reflexivity|]. split; [exact Hs|].
  split; [reflexivity|].
  exact (proj2 (scan_stops_on_bad_round Sample.Store Sample.store_exec
                  Sample.has_method Sample.user_fn Sample.ToString "p:")
               (VStr "x*") VUndef VUndef opts request script (RErr "timeout")
               [] w Hreq eq_refl eq_refl eq_refl Hs eq_refl).
Defined.

(** C3 on a batch of two, the second of which fails. *)
Lemma rpipemulti2array_results_witness :
  let w : SWorld :=
    {| store := [ROk (VNum 1); RErr "WRONGTYPE"]; pipes := [];
       heap := [[VStr "set"; VStr "a"; VNum 1];
                [VStr "JSON.GET"; VStr "{t}b"; VStr "$"]];
       log := [] |} in
  Forall (holds_descriptor Sample.Store Sample.has_method w) [0; 1]%nat
  /\ exists rs w',
       s_rpipemulti2array [0; 1]%nat w = Ok (VArr (reply_res <$> rs)) w'
       /\ length rs = 2%nat.
Proof.
  intros w.
  assert (H : Forall (holds_descriptor Sample.Store Sample.has_method w)
                     [0; 1]%nat).
  { repeat constructor.
    - exists {| d_method := "set"; d_key := "a"; d_args := [VNum 1] |}.
      split; reflexivity.
    - exists {| d_method := "JSON.GET"; d_key := "{t}b"; d_args := [VStr "$"] |}.
      split; reflexivity. }
  split; [exact H|].
  destruct (rpipemulti2array_results Sample.Store Sample.store_exec
              Sample.has_method Sample.user_fn Sample.JSON_stringify
              Sample.ToString "p:"
              [0; 1]%nat w H) as (cs & rs & w' & Hrun & Hlen & _).
  exists rs, w'. split; assumption.
Defined.

(** C3 fails as stated: a descriptor that holds a method and nothing
    else is not queued.  The Batch Context appended to it stands in the
    place of the key, the command goes to the connection at once with
    the Batch Context as its argument, the batch that is executed is
    empty, and the value has no result for the descriptor. *)
Lemma rpipemulti2array_method_only :
  let w : SWorld :=
    {| store := [ROk (VStr "x")]; pipes := []; heap := [[VStr "get"]];
       log := [] |} in
  s_rpipemulti2array [0%nat] w
  = Ok (VArr [])
       {| store := [];
          pipes := [{| p_mode := Pipeline; p_queue := [] |}];
          heap := [[VStr "get"; VPipe 0]];
          log := [ESend ("get", [VPipe 0]) (ROk (VStr "x"));
                  EExec 0 Pipeline [] []] |}
  /\ length ([] : list value) <> length [0%nat].
Proof. intros w. split; [vm_compute; reflexivity|discriminate]. Qed.

(** The same batch, computed: the error of the second command is not in
    the value. *)
Lemma rpipemulti2array_drops_errors :
  let w : SWorld :=
    {| store := [ROk (VNum 1); RErr "WRONGTYPE"]; pipes := [];
       heap := [[VStr "set"; VStr "a"; VNum 1];
                [VStr "JSON.GET"; VStr "{t}b"; VStr "$"]];
       log := [] |} in
  exists w', s_rpipemulti2array [0; 1]%nat w = Ok (VArr [VNum 1; VUndef]) w'.
Proof. intros w. eexists. vm_compute. reflexivity. Qed.

(** C10 on one descriptor [set a 1]. *)
Lemma batch_consumes_descriptors_witness :
  let w : SWorld :=
    {| store := []; pipes := []; heap := [[VStr "set"; VStr "a"; VNum 1]];
       log := [] |} in
  let d := {| d_method := "set"; d_key := "a"; d_args := [VNum 1] |} in
  NoDup [0%nat]
  /\ Forall2 (fun l d => heap w !! l = Some (descriptor_array d)) [0%nat] [d]
  /\ Forall (dispatchable Sample.has_method) [d]
  /\ exists v w' v2 w2,
       s_rpipemulti2array [0%nat] w = Ok v w'
       /\ heap w' !! 0%nat
          = Some [VStr "set"; VStr "p:a"; VNum 1; VPipe 0]
       /\ s_rpipemulti2array [0%nat] w' = Ok v2 w2
       /\ p_queue <$> pipes w2 !! 1%nat
          = Some [("set", [VStr "p:a"; VNum 1; VPipe 0])].
Proof.
  intros w d.
  assert (H1 : NoDup [0%nat]) by (apply NoDup_singleton).
  assert (H2 : Forall2 (fun l d => heap w !! l = Some (descriptor_array d))
                       [0%nat] [d]) by (repeat constructor).
  assert (H3 : Forall (dispatchable Sample.has_method) [d])
    by (repeat constructor).
  repeat (split; [assumption|]).
  destruct (proj1 (proj2 (batch_consumes_descriptors Sample.Store
              Sample.store_exec Sample.has_method Sample.user_fn
              Sample.JSON_stringify Sample.ToString "p:" [0%nat] [d] VUndef
              VUndef w H1 H2 H3)))
    as (v & w' & v2 & w2 & Hrun & Hcons & _ & Hrun2 & Hq2).
  exists v, w', v2, w2. repeat split; try assumption.
  inversion Hcons as [|? ? ? ? Hl _]; subst. exact Hl.
Defined.

(** One descriptor array listed twice in a batch is consumed by its first
    dispatch before the second: the second command carries the Batch
    Context as an argument, and the array ends with two of them. *)
Lemma batch_shared_descriptor :
  let w : SWorld :=
    {| store := [ROk (VNum 1); RErr "ERR"]; pipes := [];
       heap := [[VStr "set"; VStr "a"; VNum 1]]; log := [] |} in
  exists v w',
    s_rpipemulti2array [0; 0]%nat w = Ok v w'
    /\ p_queue <$> pipes w' !! 0%nat
       = Some [("set", [VStr "p:a"; VNum 1]);
               ("set", [VStr "p:a"; VNum 1; VPipe 0])]
    /\ heap w' !! 0%nat
       = Some [VStr "set"; VStr "p:a"; VNum 1; VPipe 0; VPipe 0].
Proof.
  intros w. eexists _, _. split; [vm_compute; reflexivity|].
  split; reflexivity.
Qed.

(** C5 with [rerun]: the producer stores the document, and the second
    get finds it. *)
Lemma rjget_fallback_witness :
  let w : SWorld := init_world [ROk VNull] in
  let get := ("call", [VStr "JSON.GET"; VStr "p:doc"; VStr "$.a.b"]) in
  let w1 : SWorld :=
    {| store := []; pipes := []; heap := []; log := [ESend get (ROk VNull)] |} in
  let w2 : SWorld :=
    {| store := [ROk (VStr "[7]")]; pipes := []; heap := [];
       log := [ESend get (ROk VNull)] |} in
  let rest_args := [VStr "rerun"; VFun (FUser 1)] in
  _rjpath (VStr "a.b") = Some "$.a.b"
  /\ Sample.has_method "call" = true
  /\ Forall (fun v => option_token v = true) [VStr "rerun"]
  /\ NoDup [VStr "rerun"]
  /\ Sample.store_exec (store w) "call" get.2 = (ROk VNull, [])
  /\ String.eqb (substring_to 1 "p:") "{" = false
  /\ s_rjget 2 (VStr "doc") (VStr "a.b") VUndef rest_args w
     = s_rjget 1 (VStr "doc") (VStr "a.b") VUndef [] w2
  /\ s_rjget 1 (VStr "doc") (VStr "a.b") VUndef [] w2
     = Ok (VNum 7)
          {| store := []; pipes := []; heap := [];
             log := [ESend get (ROk VNull); ESend get (ROk (VStr "[7]"))] |}.
Proof.
  intros w get w1 w2 rest_args.
  assert (Htok : Forall (fun v => option_token v = true) [VStr "rerun"])
    by (repeat constructor).
  assert (Hnd : NoDup [VStr "rerun"]) by apply NoDup_singleton.
  do 2 (split; [reflexivity|]). split; [exact Htok|]. split; [exact Hnd|].
  do 2 (split; [reflexivity|]). split; [|reflexivity].
  exact (proj1 (proj2 (rjget_fallback Sample.Store Sample.store_exec
                         Sample.has_method Sample.user_fn Sample.JSON_parse
                         Sample.JSON_stringify "p:" 0 "doc" (VStr "a.b")
                         VUndef [VStr "rerun"] [] (FUser 1) w "$.a.b" VNull []
                         w1 eq_refl eq_refl Htok Hnd eq_refl eq_refl)
                      eq_refl eq_refl eq_refl eq_refl (VStr "produced") w2
                      eq_refl)).
Defined.

(** C5 fails as stated, in three ways.  The get that follows the
    producer is given neither the options nor the fallback of the first:
    with [rerun] and [keep_array] the answer is the bare element [7],
    where the entire call, issued again after the producer has run,
    answers the array [[7]].  It is given the key that the first get has
    namespaced: under the prefix [{a] the second request reads another
    key than the first.  And an option token given twice is taken out
    once: the second one is the first argument left, and the function
    after it is not called. *)
Lemma rjget_rerun_drops_options :
  let rest_args := [VStr "rerun"; VStr "keep_array"; VFun (FUser 1)] in
  let get := ("call", [VStr "JSON.GET"; VStr "p:doc"; VStr "$.a.b"]) in
  let produced : SWorld :=
    {| store := [ROk (VStr "[7]")]; pipes := []; heap := [];
       log := [ESend get (ROk VNull)] |} in
  let done : SWorld :=
    {| store := []; pipes := []; heap := [];
       log := [ESend get (ROk VNull); ESend get (ROk (VStr "[7]"))] |} in
  s_rjget 2 (VStr "doc") (VStr "a.b") VUndef rest_args (init_world [ROk VNull])
  = Ok (VNum 7) done
  /\ s_rjget 2 (VStr "doc") (VStr "a.b") VUndef rest_args produced
     = Ok (VArr [VNum 7]) done
  /\ (exists v w',
       rjget Sample.Store Sample.store_exec Sample.has_method Sample.user_fn
             Sample.JSON_parse Sample.JSON_stringify "{a" 2
             (VStr "doc") (VStr "a.b") VUndef [VStr "rerun"; VFun (FUser 1)]
             (init_world [ROk VNull])
       = Ok v w'
       /\ log w'
          = [ESend ("call", [VStr "JSON.GET"; VStr "{adoc"; VStr "$.a.b"])
                   (ROk VNull);
             ESend ("call", [VStr "JSON.GET"; VStr "{{aadoc"; VStr "$.a.b"])
                   (ROk (VStr "[7]"))])
  /\ s_rjget 2 (VStr "doc") (VStr "a.b") VUndef
             [VStr "rerun"; VStr "rerun"; VFun (FUser 1)]
             (init_world [ROk VNull])
     = Ok VNull {| store := []; pipes := []; heap := [];
                   log := [ESend get (ROk VNull)] |}.
Proof.
  intros rest_args get produced done.
  split; [vm_compute; reflexivity|]. split; [vm_compute; reflexivity|].
  split; [|vm_compute; reflexivity].
  eexists _, _. split; vm_compute; reflexivity.
Qed.


(** C9 on a sorted set with three members. *)
Lemma drain_sorted_round_witness :
  let w : SWorld :=
    init_world [ROk (VArr [VStr "a"; VStr "1"; VStr "b"; VStr "2";
                             VStr "c"; VStr "3"]);
                  ROk (VNum 1); ROk (VNum 1); ROk (VNum 1); ROk (VArr [])] in
  let pairs := [("a", VStr "1"); ("b", VStr "2"); ("c", VStr "3")] in
  Sample.has_method "zpopmin" = true
  /\ Sample.has_method "del" = true
  /\ (truthy VUndef = false \/ exists p, VUndef = VStr p)
  /\ exists w2 rs,
       s_rdel_from_set 2 (VStr "zs") true VUndef w
       = s_rdel_from_set 1 (VStr "zs") true VUndef w2
       /\ log w2
          = [ESend ("zpopmin", [VStr "p:zs"; VNum 500])
                   (ROk (VArr (zpop_payload pairs)));
             EExec 0 Pipeline
                   [("del", [VStr "p:a"]); ("del", [VStr "p:b"]);
                    ("del", [VStr "p:c"])] rs]
       /\ length rs = 3%nat.
Proof.
  intros w pairs. repeat (split; [reflexivity || (left; reflexivity)|]).
  exact (proj2 (drain_sorted_round Sample.Store Sample.store_exec
                  Sample.has_method Sample.user_fn Sample.JSON_stringify
                  Sample.ToString "p:" 1 "zs" VUndef w
                  eq_refl eq_refl (or_introl eq_refl))
               pairs eq_refl ltac:(discriminate)).
Defined.

(** The whole drain of that sorted set: two pops and one batch of three
    deletions, for the member names only. *)
Lemma drain_three_members :
  let w : SWorld :=
    init_world [ROk (VArr [VStr "a"; VStr "1"; VStr "b"; VStr "2";
                             VStr "c"; VStr "3"]);
                  ROk (VNum 1); ROk (VNum 1); ROk (VNum 1); ROk (VArr [])] in
  exists w',
    s_rdel_from_set 2 (VStr "zs") true VUndef w = Ok VUndef w'
    /\ log w'
       = [ESend ("zpopmin", [VStr "p:zs"; VNum 500])
                (ROk (VArr [VStr "a"; VStr "1"; VStr "b"; VStr "2";
                            VStr "c"; VStr "3"]));
          EExec 0 Pipeline
                [("del", [VStr "p:a"]); ("del", [VStr "p:b"]);
                 ("del", [VStr "p:c"])]
                [ROk (VNum 1); ROk (VNum 1); ROk (VNum 1)];
          ESend ("zpopmin", [VStr "p:zs"; VNum 500]) (ROk (VArr []))].
Proof. intros w. eexists. split; vm_compute; reflexivity. Qed.

(** ** Instances of the further properties *)

Abbreviation s_rr :=
  (rr Sample.Store Sample.store_exec Sample.has_method Sample.user_fn
      Sample.JSON_stringify Sample.ToString "p:").
Abbreviation s_sends := (sends Sample.Store Sample.store_exec).
Abbreviation s_rpipemulti :=
  (rpipemulti Sample.Store Sample.store_exec Sample.has_method Sample.user_fn
              Sample.JSON_stringify Sample.ToString "p:").
Abbreviation s_consume_round := (consume_round Sample.Store Sample.user_fn).
Abbreviation s_drain_target :=
  (drain_target Sample.Store Sample.user_fn Sample.ToString).
Abbreviation s_r :=
  (r Sample.Store Sample.store_exec Sample.has_method Sample.user_fn
     Sample.JSON_stringify Sample.ToString "p:").

(** A connection that exposes every method. *)
Abbreviation any_method := (fun _ : string => true).
Abbreviation a_rrename :=
  (rrename Sample.Store Sample.store_exec any_method Sample.user_fn
           Sample.JSON_stringify "p:").
Abbreviation a_rinzset :=
  (rinzset Sample.Store Sample.store_exec any_method Sample.user_fn
           Sample.JSON_stringify Sample.ToString "p:" (fun _ => 0%nat)).
Abbreviation a_zset2set_scan :=
  (zset2set_scan Sample.Store Sample.store_exec any_method Sample.user_fn
                 Sample.JSON_stringify Sample.ToString "p:" (fun _ => 0%nat)).
Abbreviation a_zset_convert :=
  (zset_convert Sample.Store Sample.store_exec any_method Sample.user_fn
                Sample.JSON_stringify Sample.ToString "p:" (fun _ => 0%nat)).

(** X3 on a relative path. *)
Lemma rjpath_idempotent_witness :
  _rjpath (VStr "a.b") = Some "$.a.b"
  /\ _rjpath (VStr "$.a.b") = Some "$.a.b"
  /\ ("$.a.b" = "$" \/ substring_to 2 "$.a.b" = "$.").
Proof.
  split; [reflexivity|]. apply (rjpath_idempotent (VStr "a.b")). reflexivity.
Defined.


(** X5 on a [set] queued in an open Batch Context. *)
Lemma rr_queued_witness :
  let w : SWorld := {| store := []; pipes := [{| p_mode := Pipeline;
                                                 p_queue := [] |}];
                       heap := []; log := [] |} in
  Sample.has_method (wire_method "set") = true
  /\ exists w',
       s_rr (VStr "set") (VStr "k") ([VNum 1] ++ [VPipe 0]) w = Ok (VPipe 0) w'
       /\ store w' = []
       /\ log w' = []
       /\ pipes w' = [{| p_mode := Pipeline;
                         p_queue := [("set", [VStr "p:k"; VNum 1])] |}].
Proof.
  intros w. split; [reflexivity|].
  destruct (rr_queued Sample.Store Sample.store_exec Sample.has_method
              Sample.user_fn Sample.JSON_stringify Sample.ToString "p:" "set" "k" [VNum 1]
              0%nat w eq_refl) as (w' & Hrun & Hst & Hlog & _ & Hp).
  exists w'. split; [exact Hrun|]. split; [exact Hst|]. split; [exact Hlog|].
  exact Hp.
Defined.

(** X6 on a document write and an array insertion. *)
Lemma rr_module_encoding_witness :
  let w : SWorld := init_world [ROk (VStr "OK")] in
  Sample.has_method "call" = true
  /\ is_function (VNum 7) = false
  /\ (forall p, VNum 7 <> VPipe p)
  /\ is_function (Sample.JSON_stringify (VNum 7)) = false
  /\ s_rr (VStr "JSON.SET") (VStr "doc") [VStr "$"; VNum 7] w
     = Ok (VStr "OK")
          {| store := []; pipes := []; heap := [];
             log := [ESend ("call", [VStr "JSON.SET"; VStr "p:doc"; VStr "$";
                                     VStr "7"]) (ROk (VStr "OK"))] |}
  /\ s_rr (VStr "JSON.ARRINSERT") (VStr "doc") [VStr "$"; VNum 7; VNum 0] w
     = Ok (VStr "OK")
          {| store := []; pipes := []; heap := [];
             log := [ESend ("call", [VStr "JSON.ARRINSERT"; VStr "p:doc";
                                     VStr "$"; VNum 0; VStr "7"])
                           (ROk (VStr "OK"))] |}.
Proof.
  intros w. split; [reflexivity|]. split; [reflexivity|].
  split; [discriminate|]. split; [reflexivity|].
  destruct (rr_module_encoding Sample.Store Sample.store_exec
              Sample.has_method Sample.user_fn Sample.JSON_stringify Sample.ToString "p:"
              "doc" (VStr "$") (VNum 7) 0 w eq_refl eq_refl
              ltac:(discriminate) eq_refl) as (Hset & Hins & _).
  split.
  - rewrite Hset. reflexivity.
  - rewrite Hins. reflexivity.
Defined.

(** X7 on a transaction of two commands, the second of which fails. *)
Lemma rpipemulti_pairs_witness :
  let w : SWorld :=
    {| store := [ROk (VStr "x"); RErr "ERR"]; pipes := [];
       heap := [[VStr "get"; VStr "a"]; [VStr "set"; VStr "b"; VNum 1]];
       log := [] |} in
  Forall (holds_descriptor Sample.Store Sample.has_method w) [0; 1]%nat
  /\ exists cs rs w',
       s_rpipemulti [0; 1]%nat (VStr "t") VUndef w
       = Ok (VArr (reply_pair <$> rs)) w'
       /\ length rs = 2%nat
       /\ log w' = [EExec 0 Multi cs rs].
Proof.
  intros w.
  assert (H : Forall (holds_descriptor Sample.Store Sample.has_method w)
                     [0; 1]%nat).
  { repeat constructor.
    - exists {| d_method := "get"; d_key := "a"; d_args := [] |}.
      split; reflexivity.
    - exists {| d_method := "set"; d_key := "b"; d_args := [VNum 1] |}.
      split; reflexivity. }
  split; [exact H|].
  destruct (rpipemulti_pairs Sample.Store Sample.store_exec Sample.has_method
              Sample.user_fn Sample.JSON_stringify Sample.ToString "p:" [0; 1]%nat (VStr "t")
              VUndef w H) as (cs & rs & w' & Hrun & Hlen & _ & _ & Hlog).
  exists cs, rs, w'. split; [exact Hrun|]. split; [exact Hlen|exact Hlog].
Defined.

(** X8 on the one-element descriptor [[get]]. *)
Lemma method_only_descriptor_witness :
  let w : SWorld :=
    {| store := [ROk (VStr "x")]; pipes := []; heap := [[VStr "get"]];
       log := [] |} in
  heap w !! 0%nat = Some [VStr "get"]
  /\ dotted "get" = false
  /\ Sample.has_method "get" = true
  /\ exists w',
       s_rpipemulti2array [0%nat] w = Ok (VArr []) w'
       /\ log w' = [ESend ("get", [VPipe 0]) (ROk (VStr "x"));
                    EExec 0 Pipeline [] []]
       /\ heap w' !! 0%nat = Some [VStr "get"; VPipe 0].
Proof.
  intros w. do 3 (split; [reflexivity|]).
  exact (method_only_descriptor Sample.Store Sample.store_exec
           Sample.has_method Sample.user_fn Sample.JSON_stringify Sample.ToString "p:"
           0%nat "get" w eq_refl eq_refl eq_refl).
Defined.

(** X9 on an enumeration of two rounds. *)
Lemma scan_accumulates_all_witness :
  let opts := {| o_return := true; o_return_cursor := false; o_one := false;
                 o_cursor := None; o_cb_all := false; o_count := None |} in
  let request := ("scan", [VNum 0; VStr "MATCH"; VStr "p:x*"]) in
  let script := [(VStr "5", [VStr "p:xa"]); (VStr "0", [VStr "p:xb"])] in
  let w : SWorld :=
    init_world [ROk (VArr [VStr "5"; VArr [VStr "p:xa"]]);
                  ROk (VArr [VStr "0"; VArr [VStr "p:xb"]])] in
  scan_request "p:" opts (VStr "x*") VUndef request
  /\ scan_rounds Sample.Store Sample.store_exec Sample.ToString request.1
                 request.2 (store w) script []
  /\ Sample.has_method "scan" = true
  /\ o_return opts = true
  /\ o_one opts = false
  /\ s_rscan 2 (VStr "x*") VUndef VUndef (Some opts) w
     = Ok (VArr [VStr "p:xa"; VStr "p:xb"])
          {| store := []; pipes := []; heap := [];
             log := [ESend request
                           (ROk (VArr [VStr "5"; VArr [VStr "p:xa"]]));
                     ESend ("scan", [VNum 5; VStr "MATCH"; VStr "p:x*"])
                           (ROk (VArr [VStr "0"; VArr [VStr "p:xb"]]))] |}.
Proof.
  intros opts request script w.
  assert (Hreq : scan_request "p:" opts (VStr "x*") VUndef request)
    by (apply (scan_request_keys "p:" opts "x*" VUndef); [reflexivity|discriminate]).
  assert (H : scan_rounds Sample.Store Sample.store_exec Sample.ToString
                          request.1 request.2 (store w) script []).
  { apply (scan_rounds_more _ _ _ _ _ _ (VStr "5") [VStr "p:xa"]
             [ROk (VArr [VStr "0"; VArr [VStr "p:xb"]])]);
      [reflexivity|reflexivity|].
    apply scan_rounds_last; reflexivity. }
  split; [exact Hreq|]. split; [exact H|]. do 3 (split; [reflexivity|]).
  exact (scan_accumulates_all Sample.Store Sample.store_exec
           Sample.has_method Sample.user_fn Sample.ToString "p:" (VStr "x*")
           VUndef VUndef opts request script [] w Hreq eq_refl eq_refl eq_refl
           eq_refl H).
Defined.


(** X11 on a store that is down. *)
Lemma rjget_failures_witness :
  let w : SWorld := init_world [RErr "down"] in
  _rjpath (VStr "a") = Some "$.a"
  /\ Sample.has_method "call" = true
  /\ Sample.store_exec (store w) "call"
       [VStr "JSON.GET"; VStr (_rpfx "p:" "doc"); VStr "$.a"]
     = (RErr "down", [])
  /\ s_rjget 1 (VStr "doc") (VStr "a") VUndef [VFun (FUser 1)] w
     = Throw (VErr "down")
             {| store := []; pipes := []; heap := [];
                log := [ESend ("call", [VStr "JSON.GET"; VStr "p:doc";
                                        VStr "$.a"]) (RErr "down")] |}.
Proof.
  intros w. do 3 (split; [reflexivity|]).
  rewrite (proj1 (rjget_failures Sample.Store Sample.store_exec
                    Sample.has_method Sample.user_fn Sample.JSON_parse
                    Sample.JSON_stringify "p:" 0 "doc" (VStr "a") VUndef
                    [VFun (FUser 1)] w "$.a" eq_refl eq_refl)
                 "down" [] eq_refl).
  reflexivity.
Defined.

(** X12: the first argument left is a string, and the function after
    it is never called. *)
Lemma rjget_unusable_fallback_witness :
  let w : SWorld := init_world [ROk VNull] in
  let get := ("call", [VStr "JSON.GET"; VStr "p:doc"; VStr "$.a.b"]) in
  _rjpath (VStr "a.b") = Some "$.a.b"
  /\ Sample.has_method "call" = true
  /\ Forall (fun a => option_token a = true) [VStr "keep_array"]
  /\ NoDup [VStr "keep_array"]
  /\ option_token (VStr "later") = false
  /\ is_function (VStr "later") = false
  /\ Sample.store_exec (store w) "call" get.2 = (ROk VNull, [])
  /\ s_rjget 1 (VStr "doc") (VStr "a.b") VUndef
             [VStr "keep_array"; VStr "later"; VFun (FUser 1)] w
     = Ok VNull {| store := []; pipes := []; heap := [];
                   log := [ESend get (ROk VNull)] |}.
Proof.
  intros w get.
  assert (Htok : Forall (fun a => option_token a = true) [VStr "keep_array"])
    by (repeat constructor).
  assert (Hnd : NoDup [VStr "keep_array"]) by apply NoDup_singleton.
  do 2 (split; [reflexivity|]). split; [exact Htok|]. split; [exact Hnd|].
  do 3 (split; [reflexivity|]).
  exact (rjget_unusable_fallback Sample.Store Sample.store_exec
           Sample.has_method Sample.user_fn Sample.JSON_parse
           Sample.JSON_stringify "p:" 0 "doc" (VStr "a.b") VUndef
           [VStr "keep_array"] [VFun (FUser 1)] (VStr "later") w "$.a.b" []
           eq_refl eq_refl Htok Hnd eq_refl eq_refl eq_refl).
Defined.

(** X13: [keep_array] is given, and forgotten by the second get, which
    unwraps the document [[7]]. *)
Lemma rjget_rerun_forgets_options_witness :
  let w : SWorld := init_world [ROk VNull] in
  let pre := [VStr "rerun"; VStr "keep_array"] in
  let get := ("call", [VStr "JSON.GET"; VStr "p:doc"; VStr "$.a"]) in
  let w1 : SWorld := {| store := []; pipes := []; heap := [];
                        log := [ESend get (ROk VNull)] |} in
  let w2 : SWorld := {| store := [ROk (VStr "[7]")]; pipes := []; heap := [];
                        log := [ESend get (ROk VNull)] |} in
  _rjpath (VStr "a") = Some "$.a"
  /\ Sample.has_method "call" = true
  /\ Forall (fun a => option_token a = true) pre
  /\ NoDup pre
  /\ existsb (is_string "rerun") pre = true
  /\ Sample.store_exec (store w) "call" get.2 = (ROk VNull, [])
  /\ call_fn Sample.Store Sample.user_fn (FUser 1)
             [VStr "p:doc"; VStr "$.a"] w1
     = Ok (VStr "produced") w2
  /\ Sample.store_exec (store w2) "call" get.2 = (ROk (VStr "[7]"), [])
  /\ s_rjget 2 (VStr "doc") (VStr "a") VUndef (pre ++ [VFun (FUser 1)]) w
     = Ok (VNum 7)
          {| store := []; pipes := []; heap := [];
             log := [ESend get (ROk VNull); ESend get (ROk (VStr "[7]"))] |}.
Proof.
  intros w pre get w1 w2.
  assert (Htok : Forall (fun a => option_token a = true) pre)
    by (repeat constructor).
  assert (Hnd : NoDup pre).
  { apply NoDup_cons. split; [|apply NoDup_singleton].
    intros H. apply list_elem_of_singleton in H. discriminate. }
  do 2 (split; [reflexivity|]). split; [exact Htok|]. split; [exact Hnd|].
  do 4 (split; [reflexivity|]).
  exact (rjget_rerun_forgets_options Sample.Store Sample.store_exec
           Sample.has_method Sample.user_fn Sample.JSON_parse
           Sample.JSON_stringify "p:" 0 "doc" (VStr "a") VUndef pre [] w
           "$.a" [] (FUser 1) (VStr "produced") (VStr "[7]") w2 []
           eq_refl eq_refl Htok Hnd eq_refl eq_refl eq_refl eq_refl).
Defined.

(** X14 on the pattern [user:*:data]. *)
Lemma drain_target_substitution_witness :
  let w : SWorld := init_world [] in
  String.index 0 "*" "user:" = None
  /\ String.index 0 "$" "42" = None
  /\ s_drain_target (VStr "user:*:data") (VStr "42") w
     = Ok (VStr "user:42:data") w.
Proof.
  intros w. do 2 (split; [reflexivity|]).
  exact (proj1 (drain_target_substitution Sample.Store Sample.user_fn
                  Sample.ToString "42" w)
               "user:" ":data" eq_refl eq_refl).
Defined.

(** X15 on a plain set popped in two payloads, with a key pattern. *)
Lemma drain_run_witness :
  let w : SWorld :=
    init_world [ROk (VArr [VStr "a"; VStr "b"]); ROk (VNum 1); ROk (VNum 1);
                  ROk (VArr [VStr "c"]); ROk (VNum 1); ROk (VArr [])] in
  let script := [["a"; "b"]; ["c"]] in
  let pop := ("spop", [VStr "p:s"; VNum 500]) in
  Sample.has_method (pop_command "p:" false "s").1 = true
  /\ Sample.has_method "del" = true
  /\ (truthy (VStr "k:*") = false \/ exists p, VStr "k:*" = VStr p)
  /\ drain_rounds Sample.Store Sample.store_exec Sample.user_fn "p:" false "s"
                  (VStr "k:*") (store w) script []
  /\ exists w',
       s_rdel_from_set 3 (VStr "s") false (VStr "k:*") w = Ok VUndef w'
       /\ store w' = []
       /\ batched (log w')
          = [("del", [VStr "p:k:a"]); ("del", [VStr "p:k:b"]);
             ("del", [VStr "p:k:c"])]
       /\ sent_directly (log w') = [pop; pop; pop].
Proof.
  intros w script pop.
  assert (H : drain_rounds Sample.Store Sample.store_exec Sample.user_fn "p:"
                           false "s" (VStr "k:*") (store w) script []).
  { eapply drain_rounds_more; [reflexivity|discriminate|reflexivity|].
    eapply drain_rounds_more; [reflexivity|discriminate|reflexivity|].
    eapply drain_rounds_done; reflexivity. }
  split; [reflexivity|]. split; [reflexivity|].
  split; [right; eexists; reflexivity|]. split; [exact H|].
  exact (drain_run Sample.Store Sample.store_exec Sample.has_method
           Sample.user_fn Sample.JSON_stringify Sample.ToString "p:" "s" false
           (VStr "k:*") script [] w eq_refl eq_refl
           (or_intror (ex_intro _ "k:*" eq_refl)) H).
Defined.

(** X16 on a store that is down. *)
Lemma drain_pop_error_witness :
  let w : SWorld := init_world [RErr "down"] in
  Sample.has_method (pop_command "p:" true "zs").1 = true
  /\ Sample.store_exec (store w) (pop_command "p:" true "zs").1
                       (pop_command "p:" true "zs").2
     = (RErr "down", [])
  /\ s_rdel_from_set 1 (VStr "zs") true VUndef w
     = Throw (VErr "down")
             {| store := []; pipes := []; heap := [];
                log := [ESend ("zpopmin", [VStr "p:zs"; VNum 500])
                              (RErr "down")] |}.
Proof.
  intros w. do 2 (split; [reflexivity|]).
  exact (drain_pop_error Sample.Store Sample.store_exec Sample.has_method
           Sample.user_fn Sample.JSON_stringify Sample.ToString "p:" 0 "zs"
           true VUndef "down" [] w eq_refl eq_refl).
Defined.

(** X17 with a trailing Batch Context. *)
Lemma r_never_queues_witness :
  let w : SWorld :=
    {| store := [ROk (VStr "v")];
       pipes := [{| p_mode := Pipeline; p_queue := [] |}];
       heap := []; log := [] |} in
  dotted "get" = false
  /\ Sample.has_method "get" = true
  /\ exists rp st',
       s_r (VStr "get") (VStr "k") [VPipe 0] w
       = Ok (Direct rp)
            {| store := st';
               pipes := [{| p_mode := Pipeline; p_queue := [] |}];
               heap := [];
               log := [ESend ("get", [VStr "p:k"; VPipe 0]) rp] |}.
Proof.
  intros w. do 2 (split; [reflexivity|]).
  exact (r_never_queues Sample.Store Sample.store_exec Sample.has_method
           Sample.user_fn Sample.JSON_stringify Sample.ToString "p:" "get" "k" [VPipe 0] w
           eq_refl eq_refl).
Defined.

(** X18 on a plain and a tagged name. *)
Lemma rrename_namespaces_both_witness :
  let w : SWorld := init_world [ROk (VStr "OK")] in
  any_method "rename" = true
  /\ a_rrename (VStr "a") (VStr "{t}b") w
     = Ok (Direct (ROk (VStr "OK")))
          {| store := []; pipes := []; heap := [];
             log := [ESend ("rename", [VStr "p:a"; VStr "{p:t}b"])
                           (ROk (VStr "OK"))] |}.
Proof.
  intros w. split; [reflexivity|].
  exact (proj1 (rrename_namespaces_both Sample.Store Sample.store_exec
                  any_method Sample.user_fn Sample.JSON_stringify "p:" "a" w
                  eq_refl) "{t}b").
Defined.

(** X19 on three members, the second of which has no score. *)
Lemma rinzset_scored_witness :
  let w : SWorld := init_world [ROk (VArr [VStr "1"; VNull; VStr "3"])] in
  let members := [VStr "a"; VStr "b"; VStr "c"] in
  any_method "zmscore" = true
  /\ ends_plain members = true
  /\ Sample.store_exec (store w) "zmscore" (VStr "p:z" :: members)
     = (ROk (VArr [VStr "1"; VNull; VStr "3"]), [])
  /\ length [VStr "1"; VNull; VStr "3"] = length members
  /\ a_rinzset (VStr "z") members w
     = Ok (VArr [VStr "a"; VStr "c"])
          {| store := []; pipes := []; heap := [];
             log := [ESend ("zmscore", VStr "p:z" :: members)
                           (ROk (VArr [VStr "1"; VNull; VStr "3"]))] |}.
Proof.
  intros w members. do 4 (split; [reflexivity|]).
  exact (proj1 (rinzset_scored Sample.Store Sample.store_exec any_method
                  Sample.user_fn Sample.JSON_stringify Sample.ToString "p:" (fun _ => 0%nat)
                  "z" members [] w eq_refl eq_refl)
               [VStr "1"; VNull; VStr "3"] eq_refl eq_refl).
Defined.

(** X20 on a sorted collection scanned in two pages. *)
Lemma zset2set_scan_copies_witness :
  let w : SWorld :=
    init_world [ROk (VArr [VStr "7"; VArr [VStr "a"; VStr "1"]]);
                  ROk (VNum 2);
                  ROk (VArr [VStr "0"; VArr [VStr "b"; VStr "2"]]);
                  ROk (VNum 2)] in
  let script := [("7", ["a"; "1"]); ("0", ["b"; "2"])] in
  any_method "zscan" = true
  /\ any_method "sadd" = true
  /\ zscan_pages Sample.Store Sample.store_exec "p:" "z" "s" "0" (store w)
                 script []
  /\ exists w',
       a_zset2set_scan 2 (VStr "z") (VStr "s") w = Ok VUndef w'
       /\ store w' = []
       /\ sent_directly (log w')
          = [("zscan", [VStr "p:z"; VStr "0"]);
             ("sadd", [VStr "p:s"; VStr "a"; VStr "1"]);
             ("zscan", [VStr "p:z"; VStr "7"]);
             ("sadd", [VStr "p:s"; VStr "b"; VStr "2"])].
Proof.
  intros w script.
  assert (H : zscan_pages Sample.Store Sample.store_exec "p:" "z" "s" "0"
                          (store w) script []).
  { eapply zscan_pages_more;
      [reflexivity|discriminate|eexists; reflexivity|].
    eapply zscan_pages_last; [reflexivity|eexists; reflexivity]. }
  do 2 (split; [reflexivity|]). split; [exact H|].
  destruct (zset2set_scan_copies Sample.Store Sample.store_exec any_method
              Sample.user_fn Sample.JSON_stringify Sample.ToString "p:" (fun _ => 0%nat)
              "z" "s" script [] w eq_refl eq_refl H)
    as (w' & Hrun & Hst & _ & _ & Hsent).
  exists w'. split; [exact Hrun|]. split; [exact Hst|exact Hsent].
Defined.

(** X21 with scores, in windows of two members. *)
Lemma zset_convert_windows_witness :
  let w : SWorld :=
    init_world [ROk (VArr [VStr "a"; VStr "1"; VStr "b"; VStr "2"]);
                  ROk (VNum 2);
                  ROk (VArr [VStr "c"; VStr "3"]);
                  ROk (VNum 1);
                  ROk (VArr [])] in
  let script := [["a"; "1"; "b"; "2"]; ["c"; "3"]] in
  any_method "zrange" = true
  /\ any_method (if is_string "lpush" VUndef then "lpush" else "sadd") = true
  /\ ((VNum 1 = VNum 1 /\ 0 < 1) \/ (truthy (VNum 1) = false /\ 1 = 1000))
  /\ Z.of_nat (S (length script)) * (1 + 1) <= 9007199254740992
  /\ zrange_pages Sample.Store Sample.store_exec Sample.ToString "p:" "z" "s"
                  "sadd" 1 (truthy (VBool true)) 0 (store w) script []
  /\ exists w',
       a_zset_convert 3 (VStr "z") (VStr "s") VUndef (VNum 1) (VBool true) w
       = Ok VUndef w'
       /\ store w' = []
       /\ sent_directly (log w')
          = [("zrange", [VStr "p:z"; VNum 0; VNum 1; VStr "WITHSCORES"]);
             ("sadd", [VStr "p:s"; VStr "a,1"; VStr "b,2"]);
             ("zrange", [VStr "p:z"; VNum 2; VNum 3; VStr "WITHSCORES"]);
             ("sadd", [VStr "p:s"; VStr "c,3"]);
             ("zrange", [VStr "p:z"; VNum 4; VNum 5; VStr "WITHSCORES"])].
Proof.
  intros w script.
  assert (H : zrange_pages Sample.Store Sample.store_exec Sample.ToString "p:"
                           "z" "s" "sadd" 1 (truthy (VBool true)) 0 (store w)
                           script []).
  { apply (zrange_pages_more _ _ _ _ _ _ _ _ _ 0 _ ["a"; "1"; "b"; "2"]
             [ROk (VNum 2); ROk (VArr [VStr "c"; VStr "3"]); ROk (VNum 1);
              ROk (VArr [])]
             (VNum 2)
             [ROk (VArr [VStr "c"; VStr "3"]); ROk (VNum 1); ROk (VArr [])]);
      [reflexivity|discriminate|reflexivity|].
    apply (zrange_pages_more _ _ _ _ _ _ _ _ _ _ _ ["c"; "3"]
             [ROk (VNum 1); ROk (VArr [])] (VNum 1) [ROk (VArr [])]);
      [reflexivity|discriminate|reflexivity|].
    apply (zrange_pages_done _ _ _ _ _ _ _ _ _ _ _ (VArr []) []);
      [reflexivity|right; reflexivity]. }
  assert (Hl : (VNum 1 = VNum 1 /\ 0 < 1)
               \/ (truthy (VNum 1) = false /\ 1 = 1000))
    by (left; split; reflexivity).
  assert (Hb : Z.of_nat (S (length script)) * (1 + 1) <= 9007199254740992)
    by (vm_compute; discriminate).
  do 2 (split; [reflexivity|]).
  split; [exact Hl|]. split; [exact Hb|]. split; [exact H|].
  pose proof (zset_convert_windows Sample.Store Sample.store_exec any_method
                Sample.user_fn Sample.JSON_stringify Sample.ToString "p:"
                (fun _ => 0%nat) "z" "s" VUndef (VNum 1) (VBool true) 1 script
                [] w eq_refl eq_refl Hl Hb H) as H2.
  destruct H2 as (w' & Hrun & Hst & _ & _ & Hsent).
  exists w'. split; [exact Hrun|]. split; [exact Hst|exact Hsent].
Defined.
